(** * SoundCloud extractor: credential refresh, format classification,
      format selection, stream collection and paginated collections.

    A shallow embedding of [yt_dlp/extractor/soundcloud.py].  Python
    values that come off the wire are [json] terms, dictionaries that
    are built by the extractor are association lists in insertion
    order, and everything that touches the network or the extractor
    instance is a state transformer over [state] that may raise an
    [exn].  Strings are sequences of 7-bit characters. *)

From Stdlib Require Import String Ascii List ZArith Bool Lia DecimalString.
Import ListNotations.
Open Scope string_scope.

Set Implicit Arguments.
Set Warnings "-register-all".

(* ================================================================= *)
(** ** Strings *)

Module Str.

(** [needle in hay] *)
Fixpoint contains (needle hay : string) : bool :=
  prefix needle hay ||
  match hay with
  | EmptyString => false
  | String _ rest => contains needle rest
  end.

(** [s.split(sep)[0]] for a one-character separator *)
Fixpoint split_head (sep : ascii) (s : string) : string :=
  match s with
  | EmptyString => EmptyString
  | String c rest =>
      if Ascii.eqb c sep then EmptyString else String c (split_head sep rest)
  end.

(** [sep.join(parts)] *)
Definition join (sep : string) (parts : list string) : string :=
  String.concat sep parts.

(** membership in a list of strings, [x in xs] *)
Definition mem (x : string) (xs : list string) : bool :=
  existsb (String.eqb x) xs.

Definition nonempty (s : string) : bool :=
  match s with EmptyString => false | _ => true end.

Definition is_digit (c : ascii) : bool :=
  let n := nat_of_ascii c in (48 <=? n)%nat && (n <=? 57)%nat.

Definition is_lower (c : ascii) : bool :=
  let n := nat_of_ascii c in (97 <=? n)%nat && (n <=? 122)%nat.

Definition is_upper (c : ascii) : bool :=
  let n := nat_of_ascii c in (65 <=? n)%nat && (n <=? 90)%nat.

Definition is_alnum (c : ascii) : bool := is_digit c || is_lower c || is_upper c.

(** [\s] on 7-bit characters: space, \t \n \v \f \r and the four
    separators 0x1c .. 0x1f *)
Definition is_space (c : ascii) : bool :=
  let n := nat_of_ascii c in
  (n =? 32)%nat || ((9 <=? n)%nat && (n <=? 13)%nat)
  || ((28 <=? n)%nat && (n <=? 31)%nat).

Definition dquote : ascii := ascii_of_nat 34.

(** [s] without the prefix [p], when it starts with it *)
Fixpoint strip_prefix (p s : string) : option string :=
  match p with
  | EmptyString => Some s
  | String a p' =>
      match s with
      | EmptyString => None
      | String b s' => if Ascii.eqb a b then strip_prefix p' s' else None
      end
  end.

Fixpoint all_chars (p : ascii -> bool) (s : string) : bool :=
  match s with
  | EmptyString => true
  | String c rest => p c && all_chars p rest
  end.

(** the longest prefix of [s] whose characters satisfy [p], and the rest *)
Fixpoint span (p : ascii -> bool) (s : string) : string * string :=
  match s with
  | EmptyString => (EmptyString, EmptyString)
  | String c rest =>
      if p c then let (a, b) := span p rest in (String c a, b)
      else (EmptyString, s)
  end.

(** the first [n] characters of [s], when there are that many, and the rest *)
Fixpoint take (n : nat) (s : string) : option (string * string) :=
  match n with
  | O => Some (EmptyString, s)
  | S n' =>
      match s with
      | EmptyString => None
      | String c rest =>
          match take n' rest with
          | Some (a, b) => Some (String c a, b)
          | None => None
          end
      end
  end.

(** [int(s)] for a string of decimal digits *)
Definition int_of_digits (s : string) : Z :=
  fold_left (fun acc c => (10 * acc + (Z.of_nat (nat_of_ascii c) - 48))%Z)
            (list_ascii_of_string s) 0%Z.

(** [str(z)] for an integer *)
Definition of_Z (z : Z) : string := NilZero.string_of_int (Z.to_int z).

(** [s.lower()] *)
Definition lower_char (c : ascii) : ascii :=
  if is_upper c then ascii_of_nat (nat_of_ascii c + 32) else c.

Fixpoint lower (s : string) : string :=
  match s with
  | EmptyString => EmptyString
  | String c rest => String (lower_char c) (lower rest)
  end.

End Str.

(* ================================================================= *)
(** ** Regular expressions, as far as [_is_requested] builds them *)

Module Re.

Inductive regex : Type :=
| Void                      (* matches nothing *)
| Eps                       (* the empty pattern *)
| Lit (c : ascii)           (* an escaped character *)
| Dot                       (* [.] : any character but a newline *)
| Cat (r1 r2 : regex)
| Alt (r1 r2 : regex)
| Star (r : regex).

Definition newline : ascii := ascii_of_nat 10.

Fixpoint nullable (r : regex) : bool :=
  match r with
  | Void => false
  | Eps => true
  | Lit _ => false
  | Dot => false
  | Cat r1 r2 => nullable r1 && nullable r2
  | Alt r1 r2 => nullable r1 || nullable r2
  | Star _ => true
  end.

Fixpoint deriv (a : ascii) (r : regex) : regex :=
  match r with
  | Void => Void
  | Eps => Void
  | Lit c => if Ascii.eqb a c then Eps else Void
  | Dot => if Ascii.eqb a newline then Void else Eps
  | Cat r1 r2 =>
      if nullable r1 then Alt (Cat (deriv a r1) r2) (deriv a r2)
      else Cat (deriv a r1) r2
  | Alt r1 r2 => Alt (deriv a r1) (deriv a r2)
  | Star r1 => Cat (deriv a r1) (Star r1)
  end.

(** [re.compile(r).fullmatch(s)], as a truth value *)
Fixpoint fullmatch (r : regex) (s : string) : bool :=
  match s with
  | EmptyString => nullable r
  | String a rest => fullmatch (deriv a r) rest
  end.

(** [re.escape(s)] read back as a pattern: every character stands for itself *)
Fixpoint literal (s : string) : regex :=
  match s with
  | EmptyString => Eps
  | String c rest => Cat (Lit c) (literal rest)
  end.

(** [re.escape(s).replace(r'\*', r'.*')]: as [literal], but a star is [.*] *)
Fixpoint glob (s : string) : regex :=
  match s with
  | EmptyString => Eps
  | String c rest =>
      Cat (if Ascii.eqb c "*"%char then Star Dot else Lit c) (glob rest)
  end.

(** ['|'.join(rs)] read back as a pattern; the join of nothing is the
    empty pattern *)
Fixpoint alternation (rs : list regex) : regex :=
  match rs with
  | [] => Eps
  | [r] => r
  | r :: rest => Alt r (alternation rest)
  end.

End Re.

(* ================================================================= *)
(** ** Values off the wire, dictionaries, exceptions *)

(** A decoded JSON document.  Python's [None] is [JNull], [False] is
    [JBool false]; numbers are integers (no property below reads a
    fractional field). *)
Inductive json : Type :=
| JNull
| JBool (b : bool)
| JNum (z : Z)
| JStr (s : string)
| JArr (items : list json)
| JObj (fields : list (string * json)).

(** A dictionary built by the extractor: keys in insertion order. *)
Definition dict : Type := list (string * string).

Module Py.

Fixpoint assoc {A : Type} (k : string) (d : list (string * A)) : option A :=
  match d with
  | [] => None
  | (k', v) :: rest => if String.eqb k k' then Some v else assoc k rest
  end.

(** [d[k] = v] *)
Fixpoint setitem (k v : string) (d : dict) : dict :=
  match d with
  | [] => [(k, v)]
  | (k', v') :: rest =>
      if String.eqb k k' then (k, v) :: rest else (k', v') :: setitem k v rest
  end.

(** [d.pop(k, None)] *)
Fixpoint pop (k : string) (d : dict) : dict :=
  match d with
  | [] => []
  | (k', v') :: rest =>
      if String.eqb k k' then rest else (k', v') :: pop k rest
  end.

(** [bool(j)] *)
Definition truthy (j : json) : bool :=
  match j with
  | JNull => false
  | JBool b => b
  | JNum z => negb (Z.eqb z 0)
  | JStr s => Str.nonempty s
  | JArr items => match items with [] => false | _ => true end
  | JObj fields => match fields with [] => false | _ => true end
  end.

(** [bool(o)] for an optional value, [None] standing for Python's [None] *)
Definition truthy_opt (o : option json) : bool :=
  match o with Some j => truthy j | None => false end.

Definition truthy_str (o : option string) : bool :=
  match o with Some s => Str.nonempty s | None => false end.

(** [j.get(k)] on a dictionary: the value, or [None] *)
Definition get (k : string) (fields : list (string * json)) : option json :=
  match assoc k fields with
  | Some JNull => None
  | other => other
  end.

(** the [{str}] filter of [traverse_obj] *)
Definition as_str (o : option json) : option string :=
  match o with Some (JStr s) => Some s | _ => None end.

(** one string key of a [traverse_obj] path: only dictionaries are entered *)
Definition step (k : string) (o : option json) : option json :=
  match o with
  | Some (JObj fields) => get k fields
  | _ => None
  end.

End Py.

(** [ExtractorError]: its message and, when the cause is an [HTTPError],
    the status of that cause. *)
Record ExtractorError : Type := mkExtractorError {
  msg : string;
  cause_status : option Z
}.

Inductive exn : Type :=
| Extractor (e : ExtractorError)
| GeoRestricted                   (* [raise_geo_restricted] *)
| KeyError (key : string)
| TypeError
| AttributeError.

(** What the transport is asked for. *)
Inductive request_kind : Type := GetJson | GetWebpage | Head.

Record request : Type := mkRequest {
  rq_kind : request_kind;
  rq_url : string;
  rq_query : dict
}.

(** The handle of a [HEAD] probe: final URL, the extension
    [urlhandle_detect_ext] finds and the [Content-Length] as
    [int_or_none] reads it. *)
Record urlh : Type := mkUrlh {
  uh_url : string;
  uh_ext : option string;
  uh_content_length : option Z
}.

(** The collaborators of the extractor that live outside
    [soundcloud.py]: helpers of [yt_dlp.utils], the options of the
    session and the transport.  The transport answers a request
    knowing every request sent before it. *)
Class Env : Type := {
  KNOWN_EXTENSIONS : list string;
  mimetype2ext : option string -> option string;
  url_or_none : string -> option string;
  update_url_query : string -> dict -> string;
  suitable : string -> bool;                 (* [SoundcloudIE.suitable] *)
  py_repr : json -> string;                  (* [str] of a list or a dict *)
  formats_arg : option (list string);        (* extractor argument [formats] *)
  extractor_retries : nat;                   (* option [extractor_retries] *)
  fetch_json : list request -> request -> ExtractorError + json;
  fetch_webpage : list request -> request -> ExtractorError + string;
  fetch_head : list request -> request -> ExtractorError + urlh
}.

(* ================================================================= *)
(** ** The extractor instance and its monad *)

Record state : Type := mkState {
  CLIENT_ID : string;               (* [self._CLIENT_ID] *)
  cache : option string;            (* cache entry soundcloud/client_id *)
  sent : list request;              (* every request so far, oldest first *)
  warnings : list string            (* [report_warning] *)
}.

Definition M (A : Type) : Type := state -> (exn + A) * state.

Definition ret {A : Type} (a : A) : M A := fun s => (inr a, s).

Definition raise {A : Type} (e : exn) : M A := fun s => (inl e, s).

Definition bind {A B : Type} (m : M A) (k : A -> M B) : M B :=
  fun s =>
    match m s with
    | (inr a, s') => k a s'
    | (inl e, s') => (inl e, s')
    end.

Notation "x <- m ;; k" := (bind m (fun x => k))
  (at level 61, m at next level, right associativity).
Notation "m ;;; k" := (bind m (fun _ => k))
  (at level 61, right associativity).

Definition get_client_id : M string := fun s => (inr (CLIENT_ID s), s).

Definition set_client_id (c : string) : M unit :=
  fun s => (inr tt, mkState c (cache s) (sent s) (warnings s)).

Definition report_warning (w : string) : M unit :=
  fun s => (inr tt, mkState (CLIENT_ID s) (cache s) (sent s) (warnings s ++ [w])).

Definition report_warning_once (w : string) : M unit :=
  fun s => if Str.mem w (warnings s) then (inr tt, s) else report_warning w s.

(** [of_option e o]: the value of [o], or [e] raised *)
Definition of_option {A : Type} (e : exn) (o : option A) : M A :=
  match o with Some a => ret a | None => raise e end.

(* ================================================================= *)
(** ** The three searches with captures *)

Module Search.

Import Str.

(** [client_id\s*:\s*"([0-9a-zA-Z]{32})"] anchored at the head of [s].
    Each [\s*] is followed by a character that is no space, so taking
    the longest run of spaces loses no match. *)
Definition client_id_here (s : string) : option string :=
  match strip_prefix "client_id" s with
  | None => None
  | Some r1 =>
      match snd (span is_space r1) with
      | String colon r2 =>
          if Ascii.eqb colon ":"%char then
            match snd (span is_space r2) with
            | String q r3 =>
                if Ascii.eqb q dquote then
                  match take 32 r3 with
                  | Some (cid, String q' _) =>
                      if Ascii.eqb q' dquote && all_chars is_alnum cid
                      then Some cid else None
                  | _ => None
                  end
                else None
            | EmptyString => None
            end
          else None
      | EmptyString => None
      end
  end.

(** [_search_regex(r'client_id\s*:\s*"([0-9a-zA-Z]{32})"', s, 'client id',
    default=None)]: the capture of the leftmost match *)
Fixpoint client_id (s : string) : option string :=
  match client_id_here s with
  | Some cid => Some cid
  | None =>
      match s with
      | EmptyString => None
      | String _ rest => client_id rest
      end
  end.

(** [src=Q([^Q]+)Q] at the head of [s], where Q is the double quote:
    the capture and what follows the closing quote *)
Definition src_here (s : string) : option (string * string) :=
  match strip_prefix (String "s" (String "r" (String "c" (String "="
                       (String dquote EmptyString))))) s with
  | None => None
  | Some r =>
      match span (fun c => negb (Ascii.eqb c dquote)) r with
      | (String c v, String _ after) => Some (String c v, after)
      | _ => None
      end
  end.

(** [[^>]+src=Q([^Q]+)Q] at the head of [s].  [[^>]+] is greedy: the
    longest run is tried first, then shorter ones; [first] tells that
    the run is still empty. *)
Fixpoint attrs_src (first : bool) (s : string) : option (string * string) :=
  match s with
  | EmptyString => None
  | String c rest =>
      let here := if first then None else src_here s in
      if Ascii.eqb c ">"%char then here
      else match attrs_src false rest with
           | Some m => Some m
           | None => here
           end
  end.

(** [re.findall(r'<script[^>]+src=Q([^Q]+)Q', s)]: [skip] characters of
    [s] belong to the match before *)
Fixpoint script_srcs_from (skip : nat) (s : string) : list string :=
  match s with
  | EmptyString => []
  | String _ rest =>
      match skip with
      | S k => script_srcs_from k rest
      | O =>
          match strip_prefix "<script" s with
          | None => script_srcs_from 0 rest
          | Some r =>
              match attrs_src true r with
              | None => script_srcs_from 0 rest
              | Some (v, after) =>
                  v :: script_srcs_from
                         (String.length s - String.length after - 1) rest
              end
          end
      end
  end.

Definition script_srcs (s : string) : list string := script_srcs_from 0 s.

(** the lookahead [(?=[/?])] *)
Definition slash_or_question (s : string) : bool :=
  match s with
  | String c _ => Ascii.eqb c "/"%char || Ascii.eqb c "?"%char
  | EmptyString => false
  end.

Definition is_ext_char (c : ascii) : bool := is_digit c || is_lower c.

(** [[0-9a-z]{3,4}(?=[/?])] at the head of [s]: four characters are
    tried before three *)
Definition ext_here (s : string) : option string :=
  match take 4 s with
  | Some (e, after) =>
      if all_chars is_ext_char e && slash_or_question after then Some e
      else match take 3 s with
           | Some (e3, after3) =>
               if all_chars is_ext_char e3 && slash_or_question after3
               then Some e3 else None
           | None => None
           end
  | None =>
      match take 3 s with
      | Some (e3, after3) =>
          if all_chars is_ext_char e3 && slash_or_question after3
          then Some e3 else None
      | None => None
      end
  end.

(** [\.(?P<abr>\d+)\.(?P<ext>[0-9a-z]{3,4})(?=[/?])] at the head of [s].
    [\d+] is followed by a dot, so only the longest run of digits can
    match. *)
Definition abr_ext_here (s : string) : option (string * string) :=
  match s with
  | String dot r1 =>
      if Ascii.eqb dot "."%char then
        match span is_digit r1 with
        | (String d ds, String dot2 r2) =>
            if Ascii.eqb dot2 "."%char then
              match ext_here r2 with
              | Some e => Some (String d ds, e)
              | None => None
              end
            else None
        | _ => None
        end
      else None
  | EmptyString => None
  end.

(** [re.search(r'\.(?P<abr>\d+)\.(?P<ext>[0-9a-z]{3,4})(?=[/?])', s)]:
    the groups [abr] and [ext] of the leftmost match *)
Fixpoint abr_ext (s : string) : option (string * string) :=
  match abr_ext_here s with
  | Some m => Some m
  | None =>
      match s with
      | EmptyString => None
      | String _ rest => abr_ext rest
      end
  end.

(** [re.search(r'/(?:preview|playlist)/0/30/', s)], as a truth value *)
Definition preview_path (s : string) : bool :=
  contains "/preview/0/30/" s || contains "/playlist/0/30/" s.

End Search.

(* ================================================================= *)
(** ** Helpers of [yt_dlp] that [soundcloud.py] calls *)

(** Modelled from the spec: [InfoExtractor._configuration_arg] lives in
    [extractor/common.py], which is not part of the sources at hand.
    The format selector is built from the list of patterns that is
    configured.  The method returns the default it is called with when
    the extractor argument is absent, and else the values that are
    given, in lower case (here for the letters A to Z); a list that is
    given and empty is returned as it is. *)
Definition _configuration_arg (arg : option (list string))
    (default : list string) : list string :=
  match arg with
  | None => default
  | Some values => map Str.lower values
  end.

(** Modelled from the spec: [join_nonempty] lives in [utils], which is
    not part of the sources at hand.  An identity key is written
    [protocol_extension]: the values that are present and not empty,
    joined by the delimiter. *)
Definition join_nonempty (delim : string) (values : list (option string))
    : string :=
  Str.join delim
    (flat_map (fun v => match v with
                        | Some s => if Str.nonempty s then [s] else []
                        | None => []
                        end) values).

(** Modelled from the spec: [RetryManager] lives in [utils] and
    [extractor/common.py], which are not part of the sources at hand.
    It is a deterministic bounded loop: the operation is attempted, an
    error the caller marks as retryable leads to another attempt while
    attempts remain, any other outcome ends the loop, and on the final
    exhausted attempt the last error is surfaced unchanged.  With
    [retries] retries the bound is [S retries] attempts. *)
Fixpoint with_retry {A : Type} (retries : nat) (retryable : exn -> bool)
    (op : M A) : M A :=
  fun s =>
    match op s with
    | (inr a, s') => (inr a, s')
    | (inl e, s') =>
        if retryable e then
          match retries with
          | O => (inl e, s')
          | S n => with_retry n retryable op s'
          end
        else (inl e, s')
    end.

Section Extractor.

Context {E : Env}.

(* ----------------------------------------------------------------- *)
(** *** [SoundcloudBaseIE]: constants *)

Definition _API_V2_BASE : string := "https://api-v2.soundcloud.com/".
Definition _BASE_URL : string := "https://soundcloud.com/".

Definition _DEFAULT_FORMATS : list string :=
  ["http_aac"; "hls_aac"; "http_opus"; "hls_opus"; "http_mp3"; "hls_mp3"].

(* ----------------------------------------------------------------- *)
(** *** [_is_requested] *)

(** the pattern one configured entry contributes to the alternation *)
Definition pattern_regex (pattern : string) : Re.regex :=
  if String.eqb pattern "default"
  then Re.alternation (map Re.literal _DEFAULT_FORMATS)
  else Re.glob pattern.

(** The compiled selector.  The source joins a [set] of patterns;
    neither the order of the alternatives nor a repeated alternative
    changes what a full match accepts, so the list is kept as it is. *)
Definition is_requested_for (arg : option (list string))
    (identifier : string) : bool :=
  Re.fullmatch
    (Re.alternation (map pattern_regex (_configuration_arg arg ["default"])))
    identifier.

Definition _is_requested (identifier : string) : bool :=
  is_requested_for formats_arg identifier.

(* ----------------------------------------------------------------- *)
(** *** Transport *)

(** [super()._download_json(url, ..., query=query)] *)
Definition super_download_json (url : string) (query : dict) : M json :=
  fun s =>
    let r := mkRequest GetJson url query in
    let s' := mkState (CLIENT_ID s) (cache s) (sent s ++ [r]) (warnings s) in
    match fetch_json (sent s) r with
    | inr j => (inr j, s')
    | inl e => (inl (Extractor e), s')
    end.

(** [self._download_webpage(url, None)] *)
Definition _download_webpage (url : string) : M string :=
  fun s =>
    let r := mkRequest GetWebpage url [] in
    let s' := mkState (CLIENT_ID s) (cache s) (sent s ++ [r]) (warnings s) in
    match fetch_webpage (sent s) r with
    | inr body => (inr body, s')
    | inl e => (inl (Extractor e), s')
    end.

(** [self._download_webpage(url, None, fatal=False)]: a warning and
    [False] instead of the error *)
Definition _download_webpage_nonfatal (url : string) : M (option string) :=
  fun s =>
    match _download_webpage url s with
    | (inr body, s') => (inr (Some body), s')
    | (inl (Extractor e), s') => (report_warning (msg e) ;;; ret None) s'
    | (inl other, s') => (inl other, s')
    end.

(** [self._request_webpage(HEADRequest(url), ..., fatal=False)] *)
Definition _request_head_nonfatal (url : string) : M (option urlh) :=
  fun s =>
    let r := mkRequest Head url [] in
    let s' := mkState (CLIENT_ID s) (cache s) (sent s ++ [r]) (warnings s) in
    match fetch_head (sent s) r with
    | inr h => (inr (Some h), s')
    | inl e => (report_warning (msg e) ;;; ret None) s'
    end.

(* ----------------------------------------------------------------- *)
(** *** The client id *)

Definition _store_client_id (client_id : option string) : M unit :=
  fun s => (inr tt, mkState (CLIENT_ID s) client_id (sent s) (warnings s)).

(** the loop of [_update_client_id] over the script sources *)
Fixpoint scan_scripts (srcs : list string) : M unit :=
  match srcs with
  | [] => raise (Extractor (mkExtractorError "Unable to extract client id" None))
  | src :: rest =>
      script <- _download_webpage_nonfatal src ;;
      match script with
      | Some body =>
          if Str.nonempty body then
            match Search.client_id body with
            | Some client_id =>
                set_client_id client_id ;;;
                _store_client_id (Some client_id)
            | None => scan_scripts rest
            end
          else scan_scripts rest
      | None => scan_scripts rest
      end
  end.

Definition _update_client_id : M unit :=
  webpage <- _download_webpage "https://soundcloud.com/" ;;
  scan_scripts (rev (Search.script_srcs webpage)).

(** [isinstance(e.cause, HTTPError) and e.cause.status in statuses] *)
Definition http_status_in (statuses : list Z) (e : ExtractorError) : bool :=
  match cause_status e with
  | Some st => existsb (Z.eqb st) statuses
  | None => false
  end.

(** the body of [for _ in range(n)] in [_download_json]; running off
    the end of the loop returns [None] *)
Fixpoint download_json_loop (n : nat) (url : string) (query : dict)
    (non_fatal : bool) : M json :=
  match n with
  | O => ret JNull
  | S n' =>
      fun s =>
        let query' := Py.setitem "client_id" (CLIENT_ID s) query in
        match super_download_json url query' s with
        | (inr j, s1) => (inr j, s1)
        | (inl (Extractor e), s1) =>
            if http_status_in [401; 403]%Z e then
              (_store_client_id None ;;;
               _update_client_id ;;;
               download_json_loop n' url query' non_fatal) s1
            else if non_fatal then
              (report_warning (msg e) ;;; ret (JBool false)) s1
            else (inl (Extractor e), s1)
        | (inl other, s1) => (inl other, s1)
        end
  end.

(** [SoundcloudBaseIE._download_json(url, ..., query=query)], with
    [fatal=False] when [non_fatal] *)
Definition _download_json (url : string) (query : dict) (non_fatal : bool)
    : M json :=
  download_json_loop 2 url query non_fatal.

(** [_initialize_pre_login] *)
Definition _initialize_pre_login : M unit :=
  fun s =>
    let c := match cache s with
             | Some c => if Str.nonempty c then c
                         else "a3e059563d7fd3372b49b37f00a00bcf"
             | None => "a3e059563d7fd3372b49b37f00a00bcf"
             end in
    (inr tt, mkState c (cache s) (sent s) (warnings s)).

(* ----------------------------------------------------------------- *)
(** *** Reading the payload *)

(** [str(j)], which is also [compat_str(j)] *)
Definition compat_str (j : json) : string :=
  match j with
  | JStr s => s
  | JNum z => Str.of_Z z
  | JBool true => "True"
  | JBool false => "False"
  | JNull => "None"
  | other => py_repr other
  end.

(** [str_or_none(o)] *)
Definition str_or_none (o : option json) : option string :=
  match o with Some j => Some (compat_str j) | None => None end.

(** [obj[key]]: only a dictionary can be indexed by a string *)
Definition getitem (key : string) (obj : json) : M json :=
  match obj with
  | JObj fields => of_option (KeyError key) (Py.assoc key fields)
  | _ => raise TypeError
  end.

(** the fields of [obj] when [obj.get] exists *)
Definition as_dict (obj : json) : M (list (string * json)) :=
  match obj with
  | JObj fields => ret fields
  | _ => raise AttributeError
  end.

Definition opt_eqb (o : option string) (s : string) : bool :=
  match o with Some x => String.eqb x s | None => false end.

(** What the transcoding loop reads from one element [t] of
    [media.transcodings]. *)
Record RawTranscoding : Type := mkRawTranscoding {
  t_url : string;                  (* [t['url']] *)
  t_protocol : option string;      (* [('format', 'protocol', {str})] *)
  t_preset : option string;        (* [('preset', {str_or_none})] *)
  t_mime_type : option string;     (* [('format', 'mime_type', {str})] *)
  t_snipped : bool                 (* the truth value of [t.get('snipped')] *)
}.

(** one element of the list, if the filter
    [lambda _, v: url_or_none(v['url'])] keeps it *)
Definition raw_transcoding (v : json) : option RawTranscoding :=
  match v with
  | JObj t =>
      match Py.assoc "url" t with
      | Some (JStr u) =>
          if Py.truthy_str (url_or_none u) then
            Some (mkRawTranscoding u
                    (Py.as_str (Py.step "protocol" (Py.get "format" t)))
                    (str_or_none (Py.get "preset" t))
                    (Py.as_str (Py.step "mime_type" (Py.get "format" t)))
                    (Py.truthy_opt (Py.get "snipped" t)))
          else None
      | _ => None
      end
  | _ => None
  end.

Definition keep_some {A : Type} (l : list (option A)) : list A :=
  flat_map (fun o => match o with Some a => [a] | None => [] end) l.

(** [traverse_obj(info, ('media', 'transcodings',
    lambda _, v: url_or_none(v['url'])))] *)
Definition transcodings (info : list (string * json)) : list RawTranscoding :=
  match Py.step "transcodings" (Py.get "media" info) with
  | Some (JArr items) => keep_some (map raw_transcoding items)
  | Some (JObj fields) => keep_some (map (fun kv => raw_transcoding (snd kv)) fields)
  | _ => []
  end.

(* ----------------------------------------------------------------- *)
(** *** Classifying a transcoding *)

(** lines 286-292: the protocol of the identity *)
Definition derive_protocol (t : RawTranscoding) : option string :=
  let protocol := t_protocol t in
  let protocol :=
    if opt_eqb protocol "progressive" then Some "http" else protocol in
  let protocol :=
    if negb (opt_eqb protocol "hls") && Str.contains "/hls" (t_url t)
    then Some "hls" else protocol in
  if opt_eqb protocol "encrypted-hls" || Str.contains "/encrypted-hls" (t_url t)
  then Some "hls-aes" else protocol.

(** [ext in KNOWN_EXTENSIONS] *)
Definition known_extension (ext : option string) : bool :=
  match ext with Some e => Str.mem e KNOWN_EXTENSIONS | None => false end.

(** lines 294-298: the extension of the identity *)
Definition derive_ext (t : RawTranscoding) : option string :=
  let ext :=
    match t_preset t with
    | Some preset =>
        if Str.nonempty preset then Some (Str.split_head "_"%char preset)
        else None
    | None => None
    end in
  if known_extension ext then ext else mimetype2ext (t_mime_type t).

(** line 300 *)
Definition identifier (t : RawTranscoding) : string :=
  join_nonempty "_" [derive_protocol t; derive_ext t].

(** line 328: the preview flag handed to [add_format] *)
Definition snippet (t : RawTranscoding) : bool :=
  t_snipped t || Str.contains "/preview/" (t_url t).

(* ----------------------------------------------------------------- *)
(** *** Stream descriptors *)

(** The value under [abr]: the digits of a tag found in a URL, or a
    number. *)
Inductive abr_value : Type :=
| AbrTag (digits : string)
| AbrInt (z : Z).

(** A format dictionary; an absent key and a key bound to [None] are
    both [None]. *)
Record Format : Type := mkFormat {
  f_url : string;
  f_ext : option string;
  f_abr : option abr_value;
  f_quality : option Z;
  f_format_note : option string;
  f_format_id : option string;
  f_protocol : option string;
  f_preference : option Z;
  f_filesize : option Z;
  f_vcodec : option string
}.

(** [{'url': url, 'ext': ext}] *)
Definition new_format (url : string) (ext : option string) : Format :=
  mkFormat url ext None None None None None None None None.

Definition abr_truthy (a : option abr_value) : bool :=
  match a with
  | Some (AbrTag d) => Str.nonempty d
  | Some (AbrInt z) => negb (Z.eqb z 0)
  | None => false
  end.

(** [str_or_none(f.get('abr'))] *)
Definition abr_str (a : option abr_value) : option string :=
  match a with
  | Some (AbrTag d) => Some d
  | Some (AbrInt z) => Some (Str.of_Z z)
  | None => None
  end.

(** [int(abr)] *)
Definition abr_int (a : abr_value) : Z :=
  match a with
  | AbrTag d => Str.int_of_digits d
  | AbrInt z => z
  end.

(** lines 244-248: the groups of the URL tag fill the keys [abr] and
    [ext] that are not set yet *)
Definition merge_url_tag (stream_url : string) (f : Format) : Format :=
  match Search.abr_ext stream_url with
  | Some (abr, ext) =>
      let abr' := if abr_truthy (f_abr f) then f_abr f else Some (AbrTag abr) in
      let ext' := if Py.truthy_str (f_ext f) then f_ext f else Some ext in
      mkFormat (f_url f) ext' abr' (f_quality f) (f_format_note f)
        (f_format_id f) (f_protocol f) (f_preference f) (f_filesize f)
        (f_vcodec f)
  | None => f
  end.

(** lines 253-258 *)
Definition mark_premium (f : Format) : Format :=
  if opt_eqb (f_ext f) "aac" then
    mkFormat (f_url f) (f_ext f) (Some (AbrInt 256)) (Some 5%Z)
      (Some "Premium") (f_format_id f) (f_protocol f) (f_preference f)
      (f_filesize f) (f_vcodec f)
  else f.

Definition truthy_part (o : option string) : list string :=
  match o with
  | Some s => if Str.nonempty s then [s] else []
  | None => []
  end.

(** [add_format(f, protocol, is_preview)] with [stream_url] of the
    enclosing scope: the dictionary that is appended to [formats] *)
Definition add_format (stream_url : string) (f : Format)
    (protocol : option string) (is_preview : bool) : Format :=
  let f := merge_url_tag stream_url f in
  let ext := f_ext f in
  let f := mark_premium f in
  let preview := is_preview || Search.preview_path (f_url f) in
  let format_id_list :=
    (truthy_part protocol ++ truthy_part ext ++ truthy_part (abr_str (f_abr f))
     ++ (if preview then ["preview"] else []))%list in
  let abr :=
    if abr_truthy (f_abr f)
    then match f_abr f with Some a => Some (AbrInt (abr_int a)) | None => None end
    else f_abr f in
  let protocol' :=
    if opt_eqb protocol "hls" || opt_eqb protocol "hls-aes"
    then (if opt_eqb ext "aac" then "m3u8" else "m3u8_native")
    else "http" in
  mkFormat (f_url f) (f_ext f) abr (f_quality f) (f_format_note f)
    (Some (Str.join "_" format_id_list)) (Some protocol')
    (if preview then Some (-10)%Z else None) (f_filesize f) (f_vcodec f).

(** [f['vcodec'] = 'none'] *)
Definition set_vcodec_none (f : Format) : Format :=
  mkFormat (f_url f) (f_ext f) (f_abr f) (f_quality f) (f_format_note f)
    (f_format_id f) (f_protocol f) (f_preference f) (f_filesize f)
    (Some "none").

(* ----------------------------------------------------------------- *)
(** *** [_extract_info_dict]: the formats *)

(** lines 217-219 *)
Definition auth_query (client_id : string) (secret_token : option string)
    : dict :=
  match secret_token with
  | Some token =>
      if Str.nonempty token
      then [("client_id", client_id); ("secret_token", token)]
      else [("client_id", client_id)]
  | None => [("client_id", client_id)]
  end.

(** lines 221-238: the probe for the original file.  The result is the
    set [format_urls] and the list [formats] after it. *)
Definition original_download (info : list (string * json))
    (track_id : string) (query : dict) : M (list string * list Format) :=
  if Py.truthy_opt (Py.get "downloadable" info)
     && Py.truthy_opt (Py.get "has_downloads_left" info) then
    let download_url :=
      update_url_query (_API_V2_BASE ++ "tracks/" ++ track_id ++ "/download")
        query in
    answer <- _download_json download_url [] true ;;
    fields <- (if Py.truthy answer then as_dict answer else ret []) ;;
    match Py.get "redirectUri" fields with
    | Some (JStr redirect_url) =>
        if Str.nonempty redirect_url then
          probe <- _request_head_nonfatal redirect_url ;;
          match probe with
          | Some h =>
              ret ([uh_url h],
                   [mkFormat (uh_url h)
                      (Some (match uh_ext h with
                             | Some e => if Str.nonempty e then e else "mp3"
                             | None => "mp3"
                             end))
                      None (Some 10%Z) (Some "Original") (Some "download")
                      None None (uh_content_length h) None])
          | None => ret ([], [])
          end
        else ret ([], [])
    | Some other =>
        (* a request for something that is no string is refused *)
        if Py.truthy other then raise TypeError else ret ([], [])
    | None => ret ([], [])
    end
  else ret ([], []).

(** lines 240-241 *)
Definition invalid_url (format_urls : list string) (url : option string)
    : bool :=
  match url with
  | Some u => negb (Str.nonempty u) || Str.mem u format_urls
  | None => true
  end.

(** one attempt of the loop of lines 306-319 *)
Definition stream_attempt (format_url : string) (query : dict) : M json :=
  fun s =>
    match _download_json format_url query false s with
    | (inl (Extractor e), s1) =>
        if http_status_in [429%Z] e then
          (report_warning_once "You have reached the API rate limit" ;;;
           raise (Extractor e)) s1
        else (report_warning (msg e) ;;; ret JNull) s1
    | other => other
    end.

Definition rate_limited (e : exn) : bool :=
  match e with
  | Extractor e' => http_status_in [429%Z] e'
  | _ => false
  end.

(** lines 305-319: [stream] after the loop.  The manager is built with
    [fatal=False]: when the attempts are used up the error becomes a
    warning and [stream] is still [None]. *)
Definition fetch_stream (format_url : string) (query : dict) : M json :=
  fun s =>
    match with_retry extractor_retries rate_limited
            (stream_attempt format_url query) s with
    | (inl (Extractor e), s1) => (report_warning (msg e) ;;; ret JNull) s1
    | other => other
    end.

(** [traverse_obj(stream, ('url', {url_or_none}))] *)
Definition stream_url_of (stream : json) : option string :=
  match Py.as_str (Py.step "url" (Some stream)) with
  | Some u => url_or_none u
  | None => None
  end.

(** lines 284-328: the body of the loop for one transcoding *)
Definition transcoding_step (query : dict) (t : RawTranscoding)
    (acc : list string * list Format) : M (list string * list Format) :=
  let (format_urls, formats) := acc in
  let protocol := derive_protocol t in
  let ext := derive_ext t in
  if negb (_is_requested (identifier t)) then ret acc
  else
    stream <- fetch_stream (t_url t) query ;;
    match stream_url_of stream with
    | Some stream_url =>
        if invalid_url format_urls (Some stream_url) then ret acc
        else ret (format_urls ++ [stream_url],
                  formats ++ [add_format stream_url
                                (new_format stream_url ext) protocol
                                (snippet t)])%list
    | None => ret acc
    end.

Fixpoint transcodings_loop (query : dict) (ts : list RawTranscoding)
    (acc : list string * list Format) : M (list string * list Format) :=
  match ts with
  | [] => ret acc
  | t :: rest =>
      acc' <- transcoding_step query t acc ;;
      transcodings_loop query rest acc'
  end.

(** The part of the record [_extract_info_dict] returns that the
    properties below are about. *)
Record info_dict : Type := mkInfoDict {
  id_ : string;
  title : json;
  formats : option (list Format)
}.

(** [_extract_info_dict(info, full_title, secret_token, extract_flat)].
    Of the metadata that follows the formats, the read of [user] is
    kept, which fails on a value that is no dictionary; thumbnails,
    counters and timestamps send nothing and are left out. *)
Definition _extract_info_dict (info : json) (secret_token : option string)
    (extract_flat : bool) : M info_dict :=
  id_value <- getitem "id" info ;;
  let track_id := compat_str id_value in
  title_value <- getitem "title" info ;;
  fields <- as_dict info ;;
  client_id <- get_client_id ;;
  let query := auth_query client_id secret_token in
  acc <- (if extract_flat then ret ([], [])
          else original_download fields track_id query) ;;
  acc <- (if extract_flat then ret acc
          else transcodings_loop query (transcodings fields) acc) ;;
  let formats := map set_vcodec_none (snd acc) in
  if match formats with [] => true | _ => false end
     && match Py.get "policy" fields with
        | Some (JStr p) => String.eqb p "BLOCK"
        | _ => false
        end
  then raise GeoRestricted
  else
    _user <- (match Py.get "user" fields with
              | Some user => if Py.truthy user then as_dict user else ret []
              | None => ret []
              end) ;;
    ret (mkInfoDict track_id title_value
           (if extract_flat then None else Some formats)).

(** [_resolv_url] *)
Definition _resolv_url (url : string) : string :=
  _API_V2_BASE ++ "resolve?url=" ++ url.

(* ----------------------------------------------------------------- *)
(** *** [SoundcloudIE] *)

(** What [_VALID_URL] captures: the two alternatives of the pattern
    with their groups. *)
Inductive locator : Type :=
| ApiTrack (track_id : string) (secret_token : option string)
| Permalink (uploader title_slug : string) (token : option string).

Definition SoundcloudIE_real_extract (loc : locator) : M info_dict :=
  match loc with
  | ApiTrack track_id token =>
      let query :=
        if Py.truthy_str token
        then match token with Some t => [("secret_token", t)] | None => [] end
        else [] in
      info <- _download_json (_API_V2_BASE ++ "tracks/" ++ track_id) query false ;;
      _extract_info_dict info token false
  | Permalink uploader title_slug token =>
      let resolve_title := uploader ++ "/" ++ title_slug in
      let resolve_title :=
        if Py.truthy_str token
        then match token with
             | Some t => resolve_title ++ "/" ++ t
             | None => resolve_title
             end
        else resolve_title in
      info <- _download_json (_resolv_url (_BASE_URL ++ resolve_title)) [] false ;;
      _extract_info_dict info token false
  end.

(* ----------------------------------------------------------------- *)
(** *** [SoundcloudSetIE] and [SoundcloudRelatedIE]: the resolve call *)

(** [key in obj] *)
Definition py_contains (key : string) (obj : json) : M bool :=
  match obj with
  | JObj fields =>
      ret (match Py.assoc key fields with Some _ => true | None => false end)
  | JArr items =>
      ret (existsb (fun j => match j with
                             | JStr s => String.eqb s key
                             | _ => false
                             end) items)
  | JStr s => ret (Str.contains key s)
  | _ => raise TypeError
  end.

Fixpoint map_M {A B : Type} (f : A -> M B) (l : list A) : M (list B) :=
  match l with
  | [] => ret []
  | a :: rest => b <- f a ;; bs <- map_M f rest ;; ret (b :: bs)
  end.

(** [[str(err['error_message']) for err in errors]] *)
Definition error_messages (errors : json) : M (list string) :=
  match errors with
  | JArr items =>
      map_M (fun err => m <- getitem "error_message" err ;; ret (compat_str m))
            items
  | JObj [] => ret []
  | JStr EmptyString => ret []
  | _ => raise TypeError
  end.

(** [SoundcloudSetIE._real_extract], lines 696-709: the payload that is
    handed to [_extract_set] *)
Definition SoundcloudSetIE_resolve (uploader slug_title : string)
    (token : option string) : M json :=
  let full_title := uploader ++ "/sets/" ++ slug_title in
  let full_title :=
    match token with
    | Some t => if Str.nonempty t then full_title ++ "/" ++ t else full_title
    | None => full_title
    end in
  info <- _download_json (_resolv_url (_BASE_URL ++ full_title)) [] false ;;
  has_errors <- py_contains "errors" info ;;
  if has_errors then
    errors <- getitem "errors" info ;;
    msgs <- error_messages errors ;;
    raise (Extractor (mkExtractorError
             ("unable to download video webpage: " ++ Str.join "," msgs)
             None))
  else ret info.

Inductive relation : Type := Albums | Sets | Recommended.

(** [_BASE_URL_MAP[relation] % track_id] *)
Definition related_path (r : relation) (track_id : string) : string :=
  match r with
  | Albums => "tracks/" ++ track_id ++ "/albums"
  | Sets => "tracks/" ++ track_id ++ "/playlists_without_albums"
  | Recommended => "tracks/" ++ track_id ++ "/related"
  end.

(** [relation.capitalize()] *)
Definition relation_title (r : relation) : string :=
  match r with
  | Albums => "Albums"
  | Sets => "Sets"
  | Recommended => "Recommended"
  end.

(** The playlist dictionary of [_extract_playlist]; its [entries] are
    the generator [_entries(base_url, playlist_id)], not started yet. *)
Record playlist : Type := mkPlaylist {
  pl_base_url : string;
  pl_id : string;
  pl_title : string
}.

(** [SoundcloudRelatedIE._real_extract] *)
Definition SoundcloudRelatedIE_real_extract (slug : string) (r : relation)
    : M playlist :=
  track <- _download_json (_resolv_url (_BASE_URL ++ slug)) [] false ;;
  fields <- as_dict track ;;
  if Py.truthy_opt (Py.get "errors" fields) then
    errors <- getitem "errors" track ;;
    msgs <- error_messages errors ;;
    raise (Extractor (mkExtractorError
             ("soundcloud:related said: " ++ Str.join "," msgs) None))
  else
    track_id <- getitem "id" track ;;
    let title :=
      match Py.get "title" fields with
      | Some t => if Py.truthy t then compat_str t else slug
      | None => slug
      end in
    ret (mkPlaylist (_API_V2_BASE ++ related_path r (compat_str track_id))
           (compat_str track_id)
           (title ++ " (" ++ relation_title r ++ ")")).

(* ----------------------------------------------------------------- *)
(** *** [SoundcloudPagedPlaylistBaseIE._entries] *)

(** [self.url_result(url, ie_key, video_id, video_title)] *)
Record url_result : Type := mkUrlResult {
  ur_url : string;
  ur_ie_key : option string;
  ur_id : option string;
  ur_title : option json
}.

(** [resolve_entry] over its candidates: [None] when none has a link *)
Fixpoint resolve_entry (candidates : list (option json)) : option url_result :=
  match candidates with
  | [] => None
  | Some (JObj cand) :: rest =>
      match Py.get "permalink_url" cand with
      | Some (JStr u) =>
          match url_or_none u with
          | Some permalink_url =>
              if Str.nonempty permalink_url then
                Some (mkUrlResult permalink_url
                        (if suitable permalink_url then Some "Soundcloud"
                         else None)
                        (str_or_none (Py.get "id" cand))
                        (Py.get "title" cand))
              else resolve_entry rest
          | None => resolve_entry rest
          end
      | _ => resolve_entry rest
      end
  | _ :: rest => resolve_entry rest
  end.

(** what [for e in response['collection'] or []] iterates over *)
Definition collection_items (collection : json) : exn + list json :=
  match collection with
  | JArr items => inr items
  | JObj fields => inr (map (fun kv => JStr (fst kv)) fields)
  | JStr s =>
      inr (map (fun c => JStr (String c EmptyString)) (list_ascii_of_string s))
  | JNull => inr []
  | JBool false => inr []
  | JNum z => if Z.eqb z 0 then inr [] else inl TypeError
  | JBool true => inl TypeError
  end.

(** the records one page yields, and the error that cuts the page short *)
Fixpoint yield_entries (items : list json)
    : list (option url_result) * option exn :=
  match items with
  | [] => ([], None)
  | JObj e :: rest =>
      let (ys, err) := yield_entries rest in
      (resolve_entry [Some (JObj e); Py.get "track" e; Py.get "playlist" e]
         :: ys, err)
  | _ :: _ => ([], Some AttributeError)
  end.

(** lines 739-745: only a 502 is handed to the retry manager *)
Definition bad_gateway (e : exn) : bool :=
  match e with
  | Extractor e' => http_status_in [502%Z] e'
  | _ => false
  end.

(** lines 733-745: [response] after the retry loop *)
Definition fetch_page (url : string) (query : dict) : M json :=
  with_retry extractor_retries bad_gateway (_download_json url query false).

(** How one round of [for i in itertools.count()] ends. *)
Inductive page_end : Type :=
| NextPage (url : string) (query : dict)
| LastPage
| PageRaised (e : exn).

(** lines 733-764: one round of the outer loop: what it yields and how
    it ends *)
Definition entries_page (url : string) (query : dict)
    : state -> (list (option url_result) * page_end) * state :=
  fun s =>
    match fetch_page url query s with
    | (inl e, s1) => (([], PageRaised e), s1)
    | (inr response, s1) =>
        match response with
        | JObj fields =>
            match Py.assoc "collection" fields with
            | None => (([], PageRaised (KeyError "collection")), s1)
            | Some collection =>
                match collection_items collection with
                | inl e => (([], PageRaised e), s1)
                | inr items =>
                    match yield_entries items with
                    | (ys, Some e) => ((ys, PageRaised e), s1)
                    | (ys, None) =>
                        match Py.get "next_href" fields with
                        | Some (JStr next) =>
                            if Str.nonempty next
                            then ((ys, NextPage next (Py.pop "offset" query)), s1)
                            else ((ys, LastPage), s1)
                        | Some other =>
                            (* the next request would be for something
                               that is no string *)
                            if Py.truthy other
                            then ((ys, PageRaised TypeError), s1)
                            else ((ys, LastPage), s1)
                        | None => ((ys, LastPage), s1)
                        end
                    end
                end
            end
        | _ => (([], PageRaised TypeError), s1)
        end
    end.

(** How the consumer sees the generator end. *)
Inductive generator_end : Type :=
| StopIteration
| Raised (e : exn)
| Suspended (url : string) (query : dict).   (* more rounds to run *)

(** [rounds] rounds of the outer loop *)
Fixpoint entries_from (rounds : nat) (url : string) (query : dict)
    : state -> (list (option url_result) * generator_end) * state :=
  fun s =>
    match rounds with
    | O => (([], Suspended url query), s)
    | S n =>
        match entries_page url query s with
        | ((ys, LastPage), s1) => ((ys, StopIteration), s1)
        | ((ys, PageRaised e), s1) => ((ys, Raised e), s1)
        | ((ys, NextPage url' query'), s1) =>
            match entries_from n url' query' s1 with
            | ((ys', fin), s2) => (((ys ++ ys')%list, fin), s2)
            end
        end
    end.

(** lines 726-730 *)
Definition first_page_query : dict :=
  [("limit", "200"); ("linked_partitioning", "1"); ("offset", "0")].

(** [_entries(url, playlist_id)], run for at most [rounds] pages *)
Definition _entries (rounds : nat) (url : string)
    : state -> (list (option url_result) * generator_end) * state :=
  entries_from rounds url first_page_query.

End Extractor.

(* ================================================================= *)
(** ** Fixtures: small worlds to run the extractor in *)

Module Fixture.

Definition quoted (s : string) : string :=
  String Str.dquote (s ++ String Str.dquote EmptyString).

Definition http_error (status : Z) : ExtractorError :=
  mkExtractorError "HTTP Error" (Some status).

Definition no_page : list request -> request -> ExtractorError + string :=
  fun _ _ => inl (http_error 404).

Definition no_head : list request -> request -> ExtractorError + urlh :=
  fun _ _ => inl (http_error 404).

(** A session: the helpers are small stand-ins with the behaviour of the
    originals on the inputs used below. *)
Definition session (formats : option (list string)) (retries : nat)
    (fj : list request -> request -> ExtractorError + json)
    (fw : list request -> request -> ExtractorError + string)
    (fh : list request -> request -> ExtractorError + urlh) : Env :=
  {| KNOWN_EXTENSIONS := ["mp3"; "m4a"; "aac"; "opus"; "ogg"; "flac"; "wav"];
     mimetype2ext := fun m =>
       match m with
       | Some "audio/mpeg" => Some "mp3"
       | Some "audio/ogg" => Some "ogg"
       | _ => None
       end;
     url_or_none := fun u =>
       if prefix "https://" u || prefix "http://" u || prefix "//" u
       then Some u else None;
     update_url_query := fun u q =>
       u ++ "?" ++ Str.join "&" (map (fun kv => fst kv ++ "=" ++ snd kv) q);
     suitable := fun u => prefix "https://soundcloud.com/" u;
     py_repr := fun _ => "<object>";
     formats_arg := formats;
     extractor_retries := retries;
     fetch_json := fj;
     fetch_webpage := fw;
     fetch_head := fh |}.

Definition start : state :=
  mkState "a3e059563d7fd3372b49b37f00a00bcf"
          (Some "a3e059563d7fd3372b49b37f00a00bcf") [] [].

(* --- the platform's bootstrap page and one script with an id --- *)

Definition fresh_id : string := "0K8gqs6E9DAXUVUHUgFuAqkNmZzCBzPk".
Definition second_id : string := "Zz1UwOjeyUnlaLtRRigRlqVpOOmHf0Ut".

Definition homepage : string :=
  "<html><script crossorigin src=" ++ quoted "https://a-v2.sndcdn.com/assets/0-1.js"
  ++ "></script><script crossorigin src="
  ++ quoted "https://a-v2.sndcdn.com/assets/50-2.js" ++ "></script></html>".

Definition script_with (cid : string) : string :=
  "e.exports={client_id: " ++ quoted cid ++ ",env:1}".

(** the id a script embeds changes after the first refresh *)
Definition bootstrap : list request -> request -> ExtractorError + string :=
  fun hist r =>
    if String.eqb (rq_url r) "https://soundcloud.com/" then inr homepage
    else if String.eqb (rq_url r) "https://a-v2.sndcdn.com/assets/50-2.js"
    then inr "var x=1;"
    else if String.eqb (rq_url r) "https://a-v2.sndcdn.com/assets/0-1.js"
    then inr (script_with (if (List.length hist <=? 4)%nat then fresh_id
                           else second_id))
    else inl (http_error 404).

(** a bootstrap page whose scripts embed no id *)
Definition bootstrap_without_id
    : list request -> request -> ExtractorError + string :=
  fun _ r =>
    if String.eqb (rq_url r) "https://soundcloud.com/" then inr homepage
    else inr "var x=1;".

Definition track_payload : json :=
  JObj [("id", JNum 62986583); ("title", JStr "She so Heavy")].

(** the API refuses the stale id and accepts any other *)
Definition api_refusing_stale_id
    : list request -> request -> ExtractorError + json :=
  fun _ r =>
    match Py.assoc "client_id" (rq_query r) with
    | Some "a3e059563d7fd3372b49b37f00a00bcf" => inl (http_error 401)
    | _ => inr track_payload
    end.

(** the API refuses every id *)
Definition api_refusing_all : list request -> request -> ExtractorError + json :=
  fun _ _ => inl (http_error 403).

Definition track_url : string := "https://api-v2.soundcloud.com/tracks/62986583".

Definition refresh_env : Env :=
  session None 2 api_refusing_stale_id bootstrap no_head.

Definition refresh_without_id_env : Env :=
  session None 2 api_refusing_stale_id bootstrap_without_id no_head.

Definition refused_env : Env :=
  session None 2 api_refusing_all bootstrap no_head.

(* --- a collection of three pages: 2, 2 and 1 items --- *)

Definition item (n : Z) (slug : string) : json :=
  JObj [("id", JNum n);
        ("title", JStr slug);
        ("permalink_url", JStr ("https://soundcloud.com/artist/" ++ slug))].

Definition page1 : json :=
  JObj [("collection", JArr [item 1 "one"; item 2 "two"]);
        ("next_href", JStr "https://api-v2.soundcloud.com/users/7/tracks?offset=2")].

Definition page2 : json :=
  JObj [("collection", JArr [item 3 "three"; item 4 "four"]);
        ("next_href", JStr "https://api-v2.soundcloud.com/users/7/tracks?offset=4")].

Definition page3 : json :=
  JObj [("collection", JArr [item 5 "five"]); ("next_href", JNull)].

Definition collection_url : string :=
  "https://api-v2.soundcloud.com/users/7/tracks".

Definition three_pages : list request -> request -> ExtractorError + json :=
  fun _ r =>
    if String.eqb (rq_url r) collection_url then inr page1
    else if String.eqb (rq_url r)
              "https://api-v2.soundcloud.com/users/7/tracks?offset=2"
    then inr page2
    else if String.eqb (rq_url r)
              "https://api-v2.soundcloud.com/users/7/tracks?offset=4"
    then inr page3
    else inl (http_error 404).

Definition paged_env : Env := session None 2 three_pages no_page no_head.

Definition record_of (n : string) (slug : string) : option url_result :=
  Some (mkUrlResult ("https://soundcloud.com/artist/" ++ slug)
          (Some "Soundcloud") (Some n) (Some (JStr slug))).

Definition five_records : list (option url_result) :=
  [record_of "1" "one"; record_of "2" "two"; record_of "3" "three";
   record_of "4" "four"; record_of "5" "five"].

(** the first [failures] requests of the session end in a 502 *)
Definition flaky (failures : nat)
    : list request -> request -> ExtractorError + json :=
  fun hist _ =>
    if (List.length hist <? failures)%nat then inl (http_error 502)
    else inr page3.

(** three attempts per page *)
Definition flaky_env (failures : nat) : Env :=
  session None 2 (flaky failures) no_page no_head.

(** a failure that is no 502 *)
Definition broken_env : Env :=
  session None 2 (fun _ _ => inl (http_error 500)) no_page no_head.

(** one 502, and after it failures that are no 502 *)
Definition unsteady : list request -> request -> ExtractorError + json :=
  fun hist _ =>
    if (List.length hist <? 1)%nat then inl (http_error 502)
    else inl (http_error 500).

(** six attempts per page *)
Definition unsteady_env : Env := session None 5 unsteady no_page no_head.

(** five attempts per page *)
Definition patient_env (failures : nat) : Env :=
  session None 4 (flaky failures) no_page no_head.

(* --- a track with transcodings --- *)

Definition media_url (name kind : string) : string :=
  "https://api-v2.soundcloud.com/media/soundcloud:tracks:1/" ++ name
  ++ "/stream/" ++ kind.

Definition transcoding (name kind protocol preset mime : string) : json :=
  JObj [("url", JStr (media_url name kind));
        ("preset", JStr preset);
        ("snipped", JBool false);
        ("format", JObj [("protocol", JStr protocol);
                         ("mime_type", JStr mime)])].

Definition track_with (ts : list json) : json :=
  JObj [("id", JNum 1);
        ("title", JStr "Song");
        ("downloadable", JBool true);
        ("has_downloads_left", JBool true);
        ("media", JObj [("transcodings", JArr ts)])].

(** two HLS MP3 renditions of one track, a third entry that resolves to
    the stream of the first, and a premium AAC rendition *)
Definition track : json :=
  track_with
    [transcoding "aaa" "hls" "hls" "mp3_0_0" "audio/mpeg";
     transcoding "bbb" "hls" "hls" "mp3_0_1" "audio/mpeg";
     transcoding "aaa-again" "hls" "hls" "mp3_0_0" "audio/mpeg";
     transcoding "ccc" "hls" "hls" "aac_1_0" "audio/mp4"].

Definition playable (name tag : string) : json :=
  JObj [("url", JStr ("https://cf-hls-media.sndcdn.com/playlist/" ++ name
                      ++ tag ++ "/playlist.m3u8?Policy=p"))].

Definition track_api : list request -> request -> ExtractorError + json :=
  fun _ r =>
    let u := rq_url r in
    if String.eqb u "https://api-v2.soundcloud.com/tracks/1" then inr track
    else if prefix "https://api-v2.soundcloud.com/resolve?url=" u then inr track
    else if prefix "https://api-v2.soundcloud.com/tracks/1/download" u
    then inr (JObj [("redirectUri", JStr "https://cf-media.sndcdn.com/original")])
    else if String.eqb u (media_url "aaa" "hls") then inr (playable "aaa" ".128.mp3")
    else if String.eqb u (media_url "bbb" "hls") then inr (playable "bbb" ".128.mp3")
    else if String.eqb u (media_url "aaa-again" "hls")
    then inr (playable "aaa" ".128.mp3")
    else if String.eqb u (media_url "ccc" "hls") then inr (playable "ccc" ".96.aac")
    else inl (http_error 404).

Definition original_file : list request -> request -> ExtractorError + urlh :=
  fun _ r =>
    inr (mkUrlh "https://cf-media.sndcdn.com/original.wav?sig=1" (Some "wav")
           (Some 1024%Z)).

Definition track_env : Env :=
  session None 2 track_api no_page original_file.

Definition aaa_stream : string :=
  "https://cf-hls-media.sndcdn.com/playlist/aaa.128.mp3/playlist.m3u8?Policy=p".

Definition ccc_stream : string :=
  "https://cf-hls-media.sndcdn.com/playlist/ccc.96.aac/playlist.m3u8?Policy=p".

Definition secret : string := "s-AbCdE".

(* --- a resolve call that is answered with an error list --- *)

Definition not_found : json :=
  JObj [("errors", JArr [JObj [("error_message", JStr "not found")]])].

Definition not_found_env : Env :=
  session None 2 (fun _ _ => inr not_found) no_page no_head.

(* --- single transcodings --- *)

Definition progressive_on_hls_path : RawTranscoding :=
  mkRawTranscoding (media_url "aaa" "hls") (Some "progressive")
    (Some "mp3_0_0") (Some "audio/mpeg") false.

Definition encrypted_on_hls_path : RawTranscoding :=
  mkRawTranscoding "https://api-v2.soundcloud.com/hls/aaa" (Some "encrypted-hls")
    (Some "aac_1_0") (Some "audio/mp4") false.

Definition progressive_mp3 : RawTranscoding :=
  mkRawTranscoding (media_url "aaa" "progressive") (Some "progressive")
    (Some "mp3_0_0") (Some "audio/mpeg") false.

Definition encrypted_aac : RawTranscoding :=
  mkRawTranscoding (media_url "ccc" "encrypted-hls") (Some "hls")
    (Some "aac_1_0") (Some "audio/mp4") false.

Definition abr_opus : RawTranscoding :=
  mkRawTranscoding (media_url "ddd" "hls") (Some "hls")
    (Some "abr_sq") (Some "audio/ogg") false.

End Fixture.

(* ================================================================= *)
(** ** Vocabulary of the properties *)

(** What a pattern of [Re.regex] accepts as a whole string. *)
Inductive matches : Re.regex -> string -> Prop :=
| MEps : matches Re.Eps EmptyString
| MLit (c : ascii) : matches (Re.Lit c) (String c EmptyString)
| MDot (c : ascii) :
    c <> Re.newline -> matches Re.Dot (String c EmptyString)
| MCat (r1 r2 : Re.regex) (s1 s2 : string) :
    matches r1 s1 -> matches r2 s2 -> matches (Re.Cat r1 r2) (s1 ++ s2)
| MAltL (r1 r2 : Re.regex) (s : string) :
    matches r1 s -> matches (Re.Alt r1 r2) s
| MAltR (r1 r2 : Re.regex) (s : string) :
    matches r2 s -> matches (Re.Alt r1 r2) s
| MStarNil (r : Re.regex) : matches (Re.Star r) EmptyString
| MStarApp (r : Re.regex) (s1 s2 : string) :
    matches r s1 -> matches (Re.Star r) s2 -> matches (Re.Star r) (s1 ++ s2).

(** a run of characters without a line break *)
Definition one_line (w : string) : bool :=
  Str.all_chars (fun c => negb (Ascii.eqb c Re.newline)) w.

(** What a configured pattern with wildcards accepts: a star stands for
    any run of characters on one line, every other character for
    itself, and the key is consumed to its end. *)
Inductive glob_accepts : string -> string -> Prop :=
| GlobEnd : glob_accepts EmptyString EmptyString
| GlobChar (c : ascii) (p k : string) :
    c <> "*"%char -> glob_accepts p k ->
    glob_accepts (String c p) (String c k)
| GlobStar (p w k : string) :
    one_line w = true ->
    glob_accepts p k ->
    glob_accepts (String "*"%char p) (w ++ k).

(** What one configured entry accepts. *)
Definition entry_accepts (pattern key : string) : Prop :=
  if String.eqb pattern "default" then In key _DEFAULT_FORMATS
  else glob_accepts pattern key.

(** the descriptor of the original file (lines 231-238) *)
Definition is_original (f : Format) : Prop :=
  f_format_id f = Some "download" /\ f_format_note f = Some "Original"
  /\ f_quality f = Some 10%Z.

(** a descriptor that [add_format] made from a resolved stream URL *)
Definition is_collected `{E : Env} (f : Format) : Prop :=
  exists stream_url ext protocol is_preview,
    Str.nonempty stream_url = true
    /\ f = add_format stream_url (new_format stream_url ext) protocol is_preview.

(** a descriptor that the loop over [ts] made: from a transcoding of
    [ts] whose key the selector accepts, and from the URL that the
    stream of this transcoding resolved to under [query] *)
Definition is_collected_from `{E : Env} (query : dict)
    (ts : list RawTranscoding) (f : Format) : Prop :=
  exists t stream_url,
    In t ts
    /\ _is_requested (identifier t) = true
    /\ (exists s1 stream s2,
          fetch_stream (t_url t) query s1 = (inr stream, s2)
          /\ stream_url_of stream = Some stream_url)
    /\ f = add_format stream_url (new_format stream_url (derive_ext t))
             (derive_protocol t) (snippet t).

(** what holds of [format_urls] and [formats] throughout
    [_extract_info_dict] *)
Definition collection_invariant `{E : Env} (acc : list string * list Format)
    : Prop :=
  map f_url (snd acc) = fst acc
  /\ NoDup (fst acc)
  /\ Forall (fun f => is_original f \/ is_collected f) (snd acc).

(** the join that names a descriptor: the parts that are present and
    not empty, and the preview marker *)
Definition format_id_of (protocol ext abr : option string) (preview : bool)
    : string :=
  Str.join "_"
    (truthy_part protocol ++ truthy_part ext ++ truthy_part abr
     ++ (if preview then ["preview"] else []))%list.

(** the bitrate as [add_format] writes it into the name: the premium
    rate for [aac], else the rate already in the dictionary, else the
    tag of the URL *)
Definition abr_text (stream_url : string) (f : Format) : option string :=
  abr_str (f_abr (mark_premium (merge_url_tag stream_url f))).

(** a descriptor marked as a preview *)
Definition marked_preview (f : Format) : bool :=
  match f_preference f with Some _ => true | None => false end.

(** the requests for JSON among the requests sent *)
Definition json_requests (l : list request) : list request :=
  filter (fun r => match rq_kind r with GetJson => true | _ => false end) l.

(** the session after one more request *)
Definition after_request (s : state) (r : request) : state :=
  mkState (CLIENT_ID s) (cache s) (sent s ++ [r]) (warnings s).

(** the session with the cached client id dropped *)
Definition invalidated (s : state) : state :=
  mkState (CLIENT_ID s) None (sent s) (warnings s).

(** the request [_download_json] sends for [url] and [query] while the
    client id is [client_id] *)
Definition json_request (url : string) (query : dict) (client_id : string)
    : request :=
  mkRequest GetJson url (Py.setitem "client_id" client_id query).

Definition homepage_request : request :=
  mkRequest GetWebpage "https://soundcloud.com/" [].

Definition no_client_id : exn :=
  Extractor (mkExtractorError "Unable to extract client id" None).

(** [s'] is [s] after some more requests, all of which satisfy [Q] *)
Definition extends (Q : request -> Prop) (s s' : state) : Prop :=
  exists new, sent s' = (sent s ++ new)%list /\ Forall Q new.

(** every request [m] sends satisfies [Q] *)
Definition sends {A : Type} (Q : request -> Prop) (m : M A) : Prop :=
  forall s, extends Q s (snd (m s)).

(** [s'] is [s] after the request [r] and maybe more *)
Definition starts_with (r : request) (s s' : state) : Prop :=
  exists rest, sent s' = (sent s ++ r :: rest)%list.

(** a request that belongs to the refresh of the client id *)
Definition is_webpage (r : request) : Prop := rq_kind r = GetWebpage.

(** 502 as the cause of an [ExtractorError] *)
Definition is_bad_gateway (e : exn) : Prop :=
  exists m, e = Extractor (mkExtractorError m (Some 502%Z)).

(** the state after [k] runs of an operation, one after the other *)
Fixpoint after_runs {A : Type} (op : M A) (k : nat) (s : state) : state :=
  match k with
  | O => s
  | S k' => after_runs op k' (snd (op s))
  end.

(** run number [i] of an operation, counted from 0 and started in [s],
    fails with a 502 *)
Definition fails_with_bad_gateway {A : Type} (op : M A) (i : nat) (s : state)
    : Prop :=
  exists e, fst (op (after_runs op i s)) = inl e /\ is_bad_gateway e.

(** a request [_download_json] may send for [url] and [query]: one of
    the refresh, or the request itself under some client id *)
Definition json_or_refresh (url : string) (query : dict) (r : request) : Prop :=
  is_webpage r \/ exists c, r = json_request url query c.

(** a request that carries the secret token: as the query parameter
    [secret_token], or, for the download of the original file, in the
    query that [update_url_query] writes into its URL *)
Definition carries_token `{E : Env} (token : string) (r : request) : Prop :=
  Py.assoc "secret_token" (rq_query r) = Some token
  \/ exists track_id client_id,
       rq_url r
       = update_url_query (_API_V2_BASE ++ "tracks/" ++ track_id ++ "/download")
           [("client_id", client_id); ("secret_token", token)].

(** every request for JSON carries the secret token *)
Definition json_carries_token `{E : Env} (token : string) (r : request) : Prop :=
  rq_kind r = GetJson -> carries_token token r.

(* ================================================================= *)
(** ** More of [soundcloud.py] *)

(** [_initialize_pre_login] falls back to this id *)
Definition default_client_id : string := "a3e059563d7fd3372b49b37f00a00bcf".

(** the session after a warning *)
Definition after_warning (s : state) (w : string) : state :=
  mkState (CLIENT_ID s) (cache s) (sent s) (warnings s ++ [w]).

(** the id in use is the cached one, whenever one is cached *)
Definition cache_agrees (s : state) : Prop :=
  forall c, cache s = Some c -> CLIENT_ID s = c.


(** the link a candidate offers to [resolve_entry]: the truthy
    [url_or_none(cand.get('permalink_url'))] of a dictionary *)
Definition usable_link `{E : Env} (cand : option json) : option string :=
  match cand with
  | Some (JObj c) =>
      match Py.get "permalink_url" c with
      | Some (JStr u) =>
          match url_or_none u with
          | Some p => if Str.nonempty p then Some p else None
          | None => None
          end
      | _ => None
      end
  | _ => None
  end.

Definition is_dict (j : json) : Prop := exists fields, j = JObj fields.

(* ----------------------------------------------------------------- *)
(** *** [sign] *)

Definition _USER_AGENT : string :=
  "Mozilla/5.0 (Windows NT 10.0; Win64; x64) AppleWebKit/537.36 (KHTML, like Gecko) Chrome/84.0.4147.105 Safari/537.36".

(** the body of the loop of lines 203-206, for the character [ch] *)
Definition sign_round (m : Z) (ch : ascii) : Z :=
  let m := (Z.shiftr m 1 + Z.shiftl (Z.land 1 m) 23)%Z in
  let m := (m + Z.of_nat (nat_of_ascii ch))%Z in
  Z.land m 16777215.

(** [m] after the loop over [h] *)
Definition sign_state (h : string) : Z :=
  fold_left sign_round (list_ascii_of_string h) 8011470%Z.

Definition hex_digit (d : Z) : ascii :=
  if (d <? 10)%Z then ascii_of_nat (48 + Z.to_nat d)
  else ascii_of_nat (87 + Z.to_nat d).

(** the digits of [m] to the base 16 in front of [acc], the most
    significant one first *)
Fixpoint hex_from (fuel : nat) (m : Z) (acc : string) : string :=
  match fuel with
  | O => acc
  | S n =>
      let acc' := String (hex_digit (m mod 16)) acc in
      if (m <? 16)%Z then acc' else hex_from n (m / 16) acc'
  end.

(** [f'{m:x}'] for [m] that is not negative *)
Definition hex (m : Z) : string :=
  hex_from (S (Z.to_nat (Z.log2 m))) m EmptyString.

(** [sign(user, pw, clid)] *)
Definition sign (user pw clid : string) : string :=
  let a := 33%Z in
  let i := 1%Z in
  let s := 440123%Z in
  let w := 117%Z in
  let u := 1800000%Z in
  let l := 1042%Z in
  let b := 37%Z in
  let k := 37%Z in
  let c := 5%Z in
  let n := "0763ed7314c69015fd4a0dc16bbf4b90" in
  let y := "8" in
  let r := _USER_AGENT in
  let e := user in
  let t := clid in
  let d := Str.join "-" (map Str.of_Z [a; i; s; w; u; l; b; k]) in
  let h := n ++ y ++ d ++ r ++ e ++ t ++ d ++ n in
  let m := sign_state h in
  y ++ ":" ++ d ++ ":" ++ hex m ++ ":" ++ Str.of_Z c.

(* ----------------------------------------------------------------- *)
(** *** [_extract_info_dict]: the thumbnails *)

Definition _ARTWORK_MAP : list (string * Z) :=
  [("mini", 16); ("tiny", 20); ("small", 32); ("badge", 47); ("t67x67", 67);
   ("large", 100); ("t300x300", 300); ("crop", 400); ("t500x500", 500);
   ("original", 0)]%Z.

Module Image.

Import Str.

(** [_IMAGE_REPL_RE], a hyphen, one or more of [0-9a-z] and [.jpg], at
    the head of [s]: what follows the match.  The run is followed by a
    dot, so only the longest run can match. *)
Definition here (s : string) : option string :=
  match s with
  | String c r =>
      if Ascii.eqb c "-"%char then
        match span Search.is_ext_char r with
        | (String _ _, after) => strip_prefix ".jpg" after
        | _ => None
        end
      else None
  | EmptyString => None
  end.

(** [re.search(_IMAGE_REPL_RE, s)], as a truth value *)
Fixpoint search (s : string) : bool :=
  match here s with
  | Some _ => true
  | None =>
      match s with
      | EmptyString => false
      | String _ rest => search rest
      end
  end.

(** [re.sub(_IMAGE_REPL_RE, repl, s)] for a replacement without
    backslashes: [skip] characters of [s] belong to the match before *)
Fixpoint sub_from (skip : nat) (repl s : string) : string :=
  match s with
  | EmptyString => EmptyString
  | String c rest =>
      match skip with
      | S k => sub_from k repl rest
      | O =>
          match here s with
          | Some after =>
              repl ++ sub_from (String.length s - String.length after - 1)
                        repl rest
          | None => String c (sub_from 0 repl rest)
          end
      end
  end.

Definition sub (repl s : string) : string := sub_from 0 repl s.

End Image.

(** A thumbnail dictionary; an absent key is [None]. *)
Record Thumbnail : Type := mkThumbnail {
  th_id : option string;
  th_url : string;
  th_preference : option Z;
  th_width : option Z;
  th_height : option Z
}.

(** ['-%s.jpg' % image_id] *)
Definition size_name (image_id : string) : string := "-" ++ image_id ++ ".jpg".

(** a string that names a size somewhere: a hyphen, a run of digits and
    small letters that is not empty, and [.jpg] *)
Definition names_a_size (t : string) : Prop :=
  exists before image_id after,
    t = before ++ size_name image_id ++ after
    /\ Str.nonempty image_id = true
    /\ Str.all_chars Search.is_ext_char image_id = true.

(** the dictionary [i] of lines 342-354 for one entry of [_ARTWORK_MAP] *)
Definition artwork_thumbnail (artwork_url : option json) (thumbnail : string)
    (entry : string * Z) : Thumbnail :=
  let (image_id, size) := entry in
  let url := Image.sub (size_name image_id) thumbnail in
  let resized := String.eqb image_id "tiny" && negb (Py.truthy_opt artwork_url) in
  let size := if resized then 18%Z else size in
  let preference :=
    if resized then None
    else if String.eqb image_id "original" then Some 10%Z else None in
  if negb (Z.eqb size 0)
  then mkThumbnail (Some image_id) url preference (Some size) (Some size)
  else mkThumbnail (Some image_id) url preference None None.

(** lines 336-359: [thumbnails], where [user] is the dictionary
    [info.get('user') or {}] of line 334 *)
Definition thumbnails (info user : list (string * json)) : list Thumbnail :=
  let artwork_url := Py.get "artwork_url" info in
  let thumbnail :=
    if Py.truthy_opt artwork_url then artwork_url
    else Py.get "avatar_url" user in
  match thumbnail with
  | Some (JStr t) =>
      if Image.search t then map (artwork_thumbnail artwork_url t) _ARTWORK_MAP
      else [mkThumbnail None t None None None]
  | _ => []
  end.

(** a digit to the base 16 as [format] writes it *)
Definition is_hex_char (c : ascii) : bool :=
  Str.is_digit c
  || ((97 <=? nat_of_ascii c)%nat && (nat_of_ascii c <=? 102)%nat).

(** the number a digit to the base 16 stands for *)
Definition hex_digit_value (c : ascii) : Z :=
  if Str.is_digit c then Z.of_nat (nat_of_ascii c) - 48
  else Z.of_nat (nat_of_ascii c) - 87.

(** [int(s, 16)] for a string of such digits *)
Definition hex_value (s : string) : Z :=
  fold_left (fun acc c => (16 * acc + hex_digit_value c)%Z)
            (list_ascii_of_string s) 0%Z.

Section Playlists.

Context {E : Env}.

(* ----------------------------------------------------------------- *)
(** *** [SoundcloudPlaylistBaseIE._extract_set] *)

(** [self.url_result(url, SoundcloudIE.ie_key(), track_id)]; the URL is
    whatever truthy value the payload holds under [permalink_url], or a
    string the extractor builds *)
Record set_entry : Type := mkSetEntry {
  se_url : json;
  se_id : option string
}.

(** [self.playlist_result(entries, playlist_id, title, description)] *)
Record set_result : Type := mkSetResult {
  ps_entries : list set_entry;
  ps_id : string;
  ps_title : option json;
  ps_description : option json
}.

Definition of_sum {A : Type} (r : exn + A) : M A :=
  match r with inr a => ret a | inl e => raise e end.

(** what [for x in obj] iterates over *)
Definition iterate (obj : json) : M (list json) :=
  match obj with
  | JArr items => ret items
  | JObj fields => ret (map (fun kv => JStr (fst kv)) fields)
  | JStr s =>
      ret (map (fun c => JStr (String c EmptyString)) (list_ascii_of_string s))
  | _ => raise TypeError
  end.

(** [all(t.get('permalink_url') for t in tracks)]: the tracks after the
    first one without a link are not looked at *)
Fixpoint all_have_permalink (tracks : list json) : M bool :=
  match tracks with
  | [] => ret true
  | t :: rest =>
      fields <- as_dict t ;;
      if Py.truthy_opt (Py.get "permalink_url" fields)
      then all_have_permalink rest
      else ret false
  end.

(** [[compat_str(t['id']) for t in tracks]] *)
Definition track_ids (tracks : list json) : M (list string) :=
  map_M (fun t => v <- getitem "id" t ;; ret (compat_str v)) tracks.

(** lines 656-661: the URL of a track without a link *)
Definition track_api_url (track_id : string) (token : option string)
    : string :=
  let url := _API_V2_BASE ++ "tracks/" ++ track_id in
  match token with
  | Some t => if Str.nonempty t then url ++ "?secret_token=" ++ t else url
  | None => url
  end.

(** lines 653-663: the loop that fills [entries] *)
Fixpoint set_entries (token : option string) (tracks : list json)
    : M (list set_entry) :=
  match tracks with
  | [] => ret []
  | track :: rest =>
      fields <- as_dict track ;;
      let track_id := str_or_none (Py.get "id" fields) in
      let url := Py.get "permalink_url" fields in
      if Py.truthy_opt url then
        entries <- set_entries token rest ;;
        ret (mkSetEntry (match url with Some u => u | None => JNull end)
               track_id :: entries)
      else if negb (Py.truthy_str track_id) then set_entries token rest
      else
        entries <- set_entries token rest ;;
        ret (mkSetEntry
               (JStr (track_api_url
                        (match track_id with Some i => i | None => "" end)
                        token))
               track_id :: entries)
  end.

(** [_extract_set(playlist, token)] *)
Definition _extract_set (playlist : json) (token : option string)
    : M set_result :=
  id_value <- getitem "id" playlist ;;
  let playlist_id := compat_str id_value in
  fields <- as_dict playlist ;;
  tracks <- of_sum (collection_items
                      (match Py.get "tracks" fields with
                       | Some t => t
                       | None => JNull
                       end)) ;;
  complete <- all_have_permalink tracks ;;
  tracks <- (if negb complete && Py.truthy_str token then
               ids <- track_ids tracks ;;
               answer <- _download_json (_API_V2_BASE ++ "tracks")
                           [("ids", Str.join "," ids);
                            ("playlistId", playlist_id);
                            ("playlistSecretToken",
                             match token with Some t => t | None => "" end)]
                           false ;;
               iterate answer
             else ret tracks) ;;
  entries <- set_entries token tracks ;;
  ret (mkSetResult entries playlist_id (Py.get "title" fields)
         (Py.get "description" fields)).

(* ----------------------------------------------------------------- *)
(** *** [SoundcloudSetIE] and [SoundcloudPlaylistIE] *)

(** [SoundcloudSetIE._real_extract] for the groups [uploader],
    [slug_title] and [token] of [_VALID_URL] *)
Definition SoundcloudSetIE_real_extract (uploader slug_title : string)
    (token : option string) : M set_result :=
  info <- SoundcloudSetIE_resolve uploader slug_title token ;;
  _extract_set info token.

(** [SoundcloudPlaylistIE._real_extract] for the groups [id] and [token] *)
Definition SoundcloudPlaylistIE_real_extract (playlist_id : string)
    (token : option string) : M set_result :=
  let query :=
    match token with
    | Some t => if Str.nonempty t then [("secret_token", t)] else []
    | None => []
    end in
  data <- _download_json (_API_V2_BASE ++ "playlists/" ++ playlist_id) query
            false ;;
  _extract_set data token.

End Playlists.

(** a computation that leaves the session as it is *)
Definition silent {A : Type} (m : M A) : Prop := forall s, snd (m s) = s.

(** the request for the tracks of a playlist that is read with a secret
    token *)
Definition is_tracks_request `{E : Env} (token : string) (r : request) : Prop :=
  rq_url r = _API_V2_BASE ++ "tracks"
  /\ Py.assoc "playlistSecretToken" (rq_query r) = Some token
  /\ exists ids playlist_id,
       Py.assoc "ids" (rq_query r) = Some ids
       /\ Py.assoc "playlistId" (rq_query r) = Some playlist_id.

(** how an entry of a set refers to its track [fields]: by the link of
    the payload, or by the API URL of the id when there is no link *)
Definition entry_of_track `{E : Env} (token : option string)
    (fields : list (string * json)) (e : set_entry) : Prop :=
  se_id e = str_or_none (Py.get "id" fields)
  /\ ((Py.truthy_opt (Py.get "permalink_url" fields) = true
       /\ Py.get "permalink_url" fields = Some (se_url e))
      \/ (Py.truthy_opt (Py.get "permalink_url" fields) = false
          /\ exists track_id,
               se_id e = Some track_id
               /\ Str.nonempty track_id = true
               /\ se_url e = JStr (track_api_url track_id token))).

(** [re.search(r'soundcloud:track-stations:(\d+)', s)]: the capture of
    the leftmost match.  The digits are the last thing in the pattern,
    so the longest run is taken. *)
Module Station.

Import Str.

Definition id_here (s : string) : option string :=
  match strip_prefix "soundcloud:track-stations:" s with
  | Some r =>
      match span is_digit r with
      | (String d ds, _) => Some (String d ds)
      | _ => None
      end
  | None => None
  end.

Fixpoint id (s : string) : option string :=
  match id_here s with
  | Some m => Some m
  | None =>
      match s with
      | EmptyString => None
      | String _ rest => id rest
      end
  end.

End Station.

Section Users.

Context {E : Env}.

(* ----------------------------------------------------------------- *)
(** *** [SoundcloudUserIE], [SoundcloudUserPermalinkIE] and
        [SoundcloudTrackStationIE] *)

(** The playlist dictionary of [_extract_playlist] as these three
    extractors fill it: the id may be [None], the title any value of the
    payload.  Its [entries] are the generator [_entries(base_url, id)],
    not started yet. *)
Record paged_playlist : Type := mkPagedPlaylist {
  pp_base_url : string;
  pp_id : option string;
  pp_title : option json
}.

(** the group [rsrc] of [SoundcloudUserIE._VALID_URL] *)
Inductive resource : Type :=
| UserTracks | UserAlbums | UserSets | UserReposts | UserLikes | UserSpotlight.

(** [_BASE_URL_MAP[resource] % user_id], with [all] for no group *)
Definition user_path (rsrc : option resource) (user_id : string) : string :=
  match rsrc with
  | None => "stream/users/" ++ user_id
  | Some UserTracks => "users/" ++ user_id ++ "/tracks"
  | Some UserAlbums => "users/" ++ user_id ++ "/albums"
  | Some UserSets => "users/" ++ user_id ++ "/playlists"
  | Some UserReposts => "stream/users/" ++ user_id ++ "/reposts"
  | Some UserLikes => "users/" ++ user_id ++ "/likes"
  | Some UserSpotlight => "users/" ++ user_id ++ "/spotlight"
  end.

(** [resource.capitalize()] *)
Definition resource_title (rsrc : option resource) : string :=
  match rsrc with
  | None => "All"
  | Some UserTracks => "Tracks"
  | Some UserAlbums => "Albums"
  | Some UserSets => "Sets"
  | Some UserReposts => "Reposts"
  | Some UserLikes => "Likes"
  | Some UserSpotlight => "Spotlight"
  end.

(** [SoundcloudUserIE._real_extract] for the groups [user] and [rsrc] *)
Definition SoundcloudUserIE_real_extract (uploader : string)
    (rsrc : option resource) : M paged_playlist :=
  user <- _download_json (_resolv_url (_BASE_URL ++ uploader)) [] false ;;
  id_value <- getitem "id" user ;;
  fields <- as_dict user ;;
  username <- getitem "username" user ;;
  ret (mkPagedPlaylist
         (_API_V2_BASE ++ user_path rsrc (compat_str id_value))
         (str_or_none (Py.get "id" fields))
         (Some (JStr (compat_str username ++ " (" ++ resource_title rsrc
                      ++ ")")))).

(** [SoundcloudUserPermalinkIE._real_extract] *)
Definition SoundcloudUserPermalinkIE_real_extract (url : string)
    : M paged_playlist :=
  user <- _download_json (_resolv_url url) [] false ;;
  id_value <- getitem "id" user ;;
  fields <- as_dict user ;;
  ret (mkPagedPlaylist
         (_API_V2_BASE ++ "stream/users/" ++ compat_str id_value)
         (Some (compat_str id_value))
         (Py.get "username" fields)).

(** [self._search_regex(r'soundcloud:track-stations:(\d+)', v, 'track id')].
    Modelled from the spec: [_search_regex] lives in
    [extractor/common.py], which is not part of the sources at hand; a
    search without a match is fatal and raises an [ExtractorError], and
    searching in something that is no string is a [TypeError]. *)
Definition search_station_id (v : json) : M string :=
  match v with
  | JStr s =>
      of_option
        (Extractor (mkExtractorError "Unable to extract track id" None))
        (Station.id s)
  | _ => raise TypeError
  end.

(** [SoundcloudTrackStationIE._real_extract] *)
Definition SoundcloudTrackStationIE_real_extract (url : string)
    : M paged_playlist :=
  track <- _download_json (_resolv_url url) [] false ;;
  id_value <- getitem "id" track ;;
  track_id <- search_station_id id_value ;;
  title_value <- getitem "title" track ;;
  ret (mkPagedPlaylist
         (_API_V2_BASE ++ "stations/" ++ compat_str id_value ++ "/tracks")
         (Some track_id)
         (Some (JStr ("Track station: " ++ compat_str title_value)))).

End Users.

Section Searching.

Context {E : Env}.

(* ----------------------------------------------------------------- *)
(** *** [SoundcloudSearchIE] *)

Definition _MAX_RESULTS_PER_PAGE : nat := 200.
Definition _DEFAULT_RESULTS_PER_PAGE : nat := 50.

(** [self.url_result(item['uri'], SoundcloudIE.ie_key(),
    **self._extract_info_dict(item, extract_flat=True))] *)
Record search_result : Type := mkSearchResult {
  sr_url : json;
  sr_info : info_dict
}.

(** What the consumer still takes from the generator: [None] when it
    takes whatever comes, as [islice(..., 0, None)] does. *)
Definition satisfied (demand : option nat) : bool :=
  match demand with Some O => true | _ => false end.

Definition take_one (demand : option nat) : option nat :=
  match demand with Some n => Some (Nat.pred n) | None => None end.

(** How the loop over the items of a page ends: at the end of the
    items or suspended at a [yield] that is never resumed, with what is
    still to take, or with an error. *)
Inductive items_end : Type :=
| ItemsRead (demand : option nat)
| ItemsRaised (e : exn).

(** lines 1008-1012: the results the consumer takes from one page *)
Fixpoint search_items (demand : option nat) (items : list json)
    : state -> (list search_result * items_end) * state :=
  fun s =>
    match items with
    | [] => (([], ItemsRead demand), s)
    | item :: rest =>
        if satisfied demand then (([], ItemsRead demand), s)
        else if Py.truthy item then
          match (uri <- getitem "uri" item ;;
                 info <- _extract_info_dict item None true ;;
                 ret (mkSearchResult uri info)) s with
          | (inl e, s1) => (([], ItemsRaised e), s1)
          | (inr r, s1) =>
              match search_items (take_one demand) rest s1 with
              | ((rs, fin), s2) => ((r :: rs, fin), s2)
              end
          end
        else search_items demand rest s
    end.

(** How the consumer sees the search end. *)
Inductive search_end : Type :=
| SearchExhausted                 (* the last page has been read *)
| SearchTaken                     (* the consumer has what it asked for *)
| SearchRaised (e : exn)
| SearchSuspended (url : string). (* more rounds to run *)

(** lines 1003-1016: [rounds] rounds of the loop over the pages *)
Fixpoint search_from (rounds : nat) (demand : option nat) (next_url : string)
    : state -> (list search_result * search_end) * state :=
  fun s =>
    if satisfied demand then (([], SearchTaken), s)
    else
      match rounds with
      | O => (([], SearchSuspended next_url), s)
      | S n =>
          match _download_json next_url [] false s with
          | (inl e, s1) => (([], SearchRaised e), s1)
          | (inr (JObj fields), s1) =>
              match collection_items
                      (match Py.get "collection" fields with
                       | Some c => c
                       | None => JNull
                       end) with
              | inl e => (([], SearchRaised e), s1)
              | inr items =>
                  match search_items demand items s1 with
                  | ((rs, ItemsRaised e), s2) => ((rs, SearchRaised e), s2)
                  | ((rs, ItemsRead remaining), s2) =>
                      if satisfied remaining then ((rs, SearchTaken), s2)
                      else
                        match Py.get "next_href" fields with
                        | Some (JStr next) =>
                            if Str.nonempty next then
                              match search_from n remaining next s2 with
                              | ((rs', fin), s3) =>
                                  (((rs ++ rs')%list, fin), s3)
                              end
                            else ((rs, SearchExhausted), s2)
                        | Some other =>
                            (* the next request would be for something
                               that is no string *)
                            if Py.truthy other
                            then ((rs, SearchRaised TypeError), s2)
                            else ((rs, SearchExhausted), s2)
                        | None => ((rs, SearchExhausted), s2)
                        end
                  end
              end
          | (inr _, s1) => (([], SearchRaised AttributeError), s1)
          end
      end.

(** lines 994-996: [limit], where [limit] is the keyword argument when
    there is one, an integer or [float('inf')] ([None] here) *)
Definition page_limit (limit : option (option nat)) : nat :=
  match limit with
  | Some (Some n) => Nat.min n _MAX_RESULTS_PER_PAGE
  | Some None => _MAX_RESULTS_PER_PAGE
  | None => Nat.min _DEFAULT_RESULTS_PER_PAGE _MAX_RESULTS_PER_PAGE
  end.

Definition str_of_nat (n : nat) : string := Str.of_Z (Z.of_nat n).

(** lines 997-1002: the URL of the first page, for the keyword
    arguments [limit] and [q] in the order of the call *)
Definition first_search_url (endpoint : string) (limit : option (option nat))
    (q : string) : string :=
  let query :=
    match limit with
    | Some _ => [("limit", str_of_nat (page_limit limit)); ("q", q)]
    | None => [("q", q); ("limit", str_of_nat (page_limit limit))]
    end in
  update_url_query (_API_V2_BASE ++ endpoint)
    (query ++ [("linked_partitioning", "1"); ("offset", "0")])%list.

(** [_get_collection(endpoint, collection_id, limit=limit, q=q)], run
    for at most [rounds] pages by a consumer that takes [demand] *)
Definition _get_collection (rounds : nat) (endpoint : string)
    (limit : option (option nat)) (q : string) (demand : option nat)
    : state -> (list search_result * search_end) * state :=
  search_from rounds demand (first_search_url endpoint limit q).

(** [_get_n_results(query, n)]: the entries of the playlist result as
    [islice] hands them on, [n] being [None] for [float('inf')] *)
Definition _get_n_results (rounds : nat) (query : string) (n : option nat)
    : state -> (list search_result * search_end) * state :=
  _get_collection rounds "search/tracks" (Some n) query n.

End Searching.

(* ----------------------------------------------------------------- *)
(** *** Logging in *)

(** The request that verifies a token: its URL and the access token of
    the JSON document that is posted. *)
Record auth_probe : Type := mkAuthProbe {
  ap_url : string;
  ap_access_token : string
}.

(** What logging in needs from outside [soundcloud.py]: the answer of
    the transport to a probe, which knows the probes before it, and the
    text of [self._login_hint(method="cookies")]. *)
Class Auth : Type := {
  verify_session : list auth_probe -> auth_probe -> ExtractorError + unit;
  login_hint : string
}.

(** The extractor with what logging in reads and writes: [_HEADERS],
    the dictionary that all the extractors of the module share, the
    probes sent and how often [report_login] ran. *)
Record login_state : Type := mkLoginState {
  ls_session : state;
  _HEADERS : dict;
  ls_probes : list auth_probe;
  ls_logins : nat
}.

Definition L (A : Type) : Type := login_state -> (exn + A) * login_state.

Section Login.

Context {A : Auth}.

Definition _API_AUTH_QUERY_TEMPLATE (client_id : string) : string :=
  "?client_id=" ++ client_id.

Definition _API_VERIFY_AUTH_TOKEN (query : string) : string :=
  "https://api-auth.soundcloud.com/connect/session" ++ query.

(** [bool(self._HEADERS)] *)
Definition has_headers (l : login_state) : bool :=
  match _HEADERS l with [] => false | _ => true end.

(** [_verify_oauth_token(token)]; a probe that fails is not fatal and
    leaves its error as a warning *)
Definition _verify_oauth_token (token : string) : L unit :=
  fun l =>
    let s := ls_session l in
    let probe :=
      mkAuthProbe (_API_VERIFY_AUTH_TOKEN (_API_AUTH_QUERY_TEMPLATE (CLIENT_ID s)))
        token in
    match verify_session (ls_probes l) probe with
    | inr _ =>
        (inr tt,
         mkLoginState s
           (Py.setitem "Authorization" ("OAuth " ++ token) (_HEADERS l))
           (ls_probes l ++ [probe]) (S (ls_logins l)))
    | inl e =>
        (inr tt,
         mkLoginState
           (mkState (CLIENT_ID s) (cache s) (sent s)
              (warnings s
               ++ [msg e;
                   "Provided authorization token is invalid. Continuing as guest"]))
           (_HEADERS l) (ls_probes l ++ [probe]) (ls_logins l))
    end.

(** [_real_initialize], where [cookie] is the value of the cookie
    [oauth_token] for [_BASE_URL] when there is one *)
Definition _real_initialize (cookie : option string) : L unit :=
  fun l =>
    if has_headers l then (inr tt, l)
    else
      match cookie with
      | Some token =>
          if Str.nonempty token then _verify_oauth_token token l
          else (inr tt, l)
      | None => (inr tt, l)
      end.

(** [_perform_login(username, password)] *)
Definition _perform_login (username password : string) : L unit :=
  fun l =>
    if negb (String.eqb username "oauth") then
      (inl (Extractor
              (mkExtractorError
                 ("Login using username and password is not currently supported. "
                  ++ "Use " ++ String Str.dquote "--username oauth --password <oauth_token>"
                  ++ String Str.dquote " to login using an oauth token, "
                  ++ "or else " ++ login_hint)
                 None)), l)
    else if has_headers l then (inr tt, l)
    else _verify_oauth_token password l.

End Login.

(** a track that has a link or an id *)
Definition addressable `{E : Env} (track : json) : bool :=
  match track with
  | JObj fields =>
      Py.truthy_opt (Py.get "permalink_url" fields)
      || Py.truthy_str (str_or_none (Py.get "id" fields))
  | _ => false
  end.

(** sessions for the examples below *)
Module Cases.

(** the last script of the bootstrap page embeds an id, the first one is
    not served *)
Definition id_in_last_script
    : list request -> request -> ExtractorError + string :=
  fun _ r =>
    if String.eqb (rq_url r) "https://soundcloud.com/" then inr Fixture.homepage
    else if String.eqb (rq_url r) "https://a-v2.sndcdn.com/assets/50-2.js"
    then inr (Fixture.script_with Fixture.fresh_id)
    else inl (Fixture.http_error 404).

Definition last_script_env : Env :=
  Fixture.session None 2 Fixture.api_refusing_stale_id id_in_last_script
    Fixture.no_head.

(** the API is down *)
Definition api_down : list request -> request -> ExtractorError + json :=
  fun _ _ => inl (Fixture.http_error 500).

Definition down_env : Env :=
  Fixture.session None 2 api_down Fixture.bootstrap Fixture.no_head.

(* --- a playlist read with a secret token --- *)

Definition linked_track (n : Z) (slug : string) : json :=
  JObj [("id", JNum n);
        ("permalink_url", JStr ("https://soundcloud.com/artist/" ++ slug))].

(** the payload of the playlist: the second track has no link *)
Definition playlist_payload : json :=
  JObj [("id", JNum 4110309);
        ("title", JStr "Non-Site");
        ("tracks", JArr [linked_track 11 "one"; JObj [("id", JNum 12)]])].

(** the same with every link *)
Definition complete_payload : json :=
  JObj [("id", JNum 4110309);
        ("title", JStr "Non-Site");
        ("tracks", JArr [linked_track 11 "one"; linked_track 12 "two"])].

(** the answer to the request for the tracks: the third one has
    neither a link nor an id *)
Definition tracks_answer : json :=
  JArr [linked_track 11 "one"; JObj [("id", JNum 12)];
        JObj [("title", JStr "gone")]].

Definition playlist_api : list request -> request -> ExtractorError + json :=
  fun _ r =>
    if String.eqb (rq_url r) "https://api-v2.soundcloud.com/playlists/4110309"
    then inr playlist_payload
    else if String.eqb (rq_url r) "https://api-v2.soundcloud.com/tracks"
    then inr tracks_answer
    else inl (Fixture.http_error 404).

Definition playlist_env : Env :=
  Fixture.session None 2 playlist_api Fixture.no_page Fixture.no_head.

(* --- a track station --- *)

Definition station_payload : json :=
  JObj [("id", JStr "soundcloud:track-stations:286017854");
        ("title", JStr "your text")].

Definition station_env : Env :=
  Fixture.session None 2 (fun _ _ => inr station_payload) Fixture.no_page
    Fixture.no_head.

(* --- a search over two pages of two tracks --- *)

Definition found (n : Z) (slug : string) : json :=
  JObj [("id", JNum n); ("title", JStr slug);
        ("uri", JStr ("https://api.soundcloud.com/tracks/" ++ Str.of_Z n))].

Definition search_api : list request -> request -> ExtractorError + json :=
  fun _ r =>
    if prefix "https://api-v2.soundcloud.com/search/tracks?limit=" (rq_url r)
    then inr (JObj [("collection", JArr [found 1 "one"; JNull; found 2 "two"]);
                    ("next_href", JStr "https://api-v2.soundcloud.com/search/tracks?offset=2")])
    else if String.eqb (rq_url r)
              "https://api-v2.soundcloud.com/search/tracks?offset=2"
    then inr (JObj [("collection", JArr [found 3 "three"; found 4 "four"]);
                    ("next_href", JNull)])
    else inl (Fixture.http_error 404).

Definition search_env : Env :=
  Fixture.session None 2 search_api Fixture.no_page Fixture.no_head.

(* --- logging in: the token [good] is valid, no other is --- *)

Definition auth : Auth :=
  {| verify_session := fun _ p =>
       if String.eqb (ap_access_token p) "good" then inr tt
       else inl (Fixture.http_error 401);
     login_hint := "use --cookies" |}.

Definition guest : login_state := mkLoginState Fixture.start [] [] 0.

End Cases.

(** a request for a page of JSON: any URL, and the client id as the
    whole query *)
Definition is_page_request (r : request) : Prop :=
  is_webpage r \/ exists url c, r = json_request url [] c.

(** the probe [_verify_oauth_token] sends for [token] *)
Definition probe_for (l : login_state) (token : string) : auth_probe :=
  mkAuthProbe
    ("https://api-auth.soundcloud.com/connect/session?client_id="
     ++ CLIENT_ID (ls_session l)) token.

(** the query of the pages after the first *)
Definition later_page_query : dict :=
  [("limit", "200"); ("linked_partitioning", "1")].

(** a request for a page of a collection after the first, or one of a
    refresh of the client id *)
Definition is_later_page_request (r : request) : Prop :=
  is_webpage r \/ exists url c, r = json_request url later_page_query c.

(** a request for the first page of the collection at [url] *)
Definition is_first_page_request `{E : Env} (url : string) (r : request)
    : Prop :=
  exists c, r = json_request url first_page_query c.

(* ================================================================= *)
(** * Properties *)

(** ** Full matches *)

Module ReFacts.

Import Re.

Lemma fullmatch_Void (s : string) : fullmatch Void s = false.
Proof. induction s as [|a s IH]; simpl; auto. Qed.

Lemma fullmatch_Alt (r1 r2 : regex) (s : string) :
  fullmatch (Alt r1 r2) s = fullmatch r1 s || fullmatch r2 s.
Proof.
  revert r1 r2; induction s as [|a s IH]; intros r1 r2; simpl; auto.
Qed.

Lemma fullmatch_Cat_Void (r : regex) (s : string) :
  fullmatch (Cat Void r) s = false.
Proof. induction s as [|a s IH]; simpl; auto. Qed.

Lemma fullmatch_Cat_Eps (r : regex) (s : string) :
  fullmatch (Cat Eps r) s = fullmatch r s.
Proof.
  destruct s as [|a s]; simpl; auto.
  rewrite fullmatch_Alt, fullmatch_Cat_Void. reflexivity.
Qed.

(** an escaped pattern accepts itself and nothing else *)
Lemma fullmatch_literal (p s : string) :
  fullmatch (literal p) s = String.eqb p s.
Proof.
  revert s; induction p as [|c p IH]; intros s.
  - destruct s; simpl; auto using fullmatch_Void.
  - destruct s as [|a s]; simpl; auto.
    rewrite (Ascii.eqb_sym c a).
    destruct (Ascii.eqb a c).
    + rewrite fullmatch_Cat_Eps. apply IH.
    + apply fullmatch_Cat_Void.
Qed.

Lemma fullmatch_alternation (r : regex) (rs : list regex) (s : string) :
  fullmatch (alternation (r :: rs)) s = existsb (fun x => fullmatch x s) (r :: rs).
Proof.
  revert r; induction rs as [|r' rs IH]; intros r.
  - simpl. now rewrite orb_false_r.
  - change (alternation (r :: r' :: rs)) with (Alt r (alternation (r' :: rs))).
    rewrite fullmatch_Alt, IH. reflexivity.
Qed.

End ReFacts.

(** ** What a pattern accepts *)

Module ReSem.

Import Re.

Lemma append_empty (s1 s2 : string) :
  (s1 ++ s2 = EmptyString -> s1 = EmptyString /\ s2 = EmptyString)%string.
Proof. destruct s1; simpl; intros H; [auto|discriminate]. Qed.

Lemma append_assoc (s1 s2 s3 : string) :
  ((s1 ++ s2) ++ s3 = s1 ++ (s2 ++ s3))%string.
Proof. induction s1 as [|c s1 IH]; simpl; [reflexivity|now rewrite IH]. Qed.

Lemma matches_Cat_inv (r1 r2 : regex) (s : string) :
  matches (Cat r1 r2) s ->
  exists s1 s2, s = (s1 ++ s2)%string /\ matches r1 s1 /\ matches r2 s2.
Proof. intros H; inversion H; subst; eauto. Qed.

Lemma matches_Alt_inv (r1 r2 : regex) (s : string) :
  matches (Alt r1 r2) s -> matches r1 s \/ matches r2 s.
Proof. intros H; inversion H; subst; auto. Qed.

Lemma nullable_matches (r : regex) :
  nullable r = true <-> matches r EmptyString.
Proof.
  induction r as [| | c | | r1 IH1 r2 IH2 | r1 IH1 r2 IH2 | r IH]; simpl.
  - split; [discriminate|]. intros H; inversion H.
  - split; auto using MEps.
  - split; [discriminate|]. intros H; inversion H.
  - split; [discriminate|]. intros H; inversion H.
  - rewrite andb_true_iff, IH1, IH2. split.
    + intros [H1 H2]. exact (MCat H1 H2).
    + intros H. apply matches_Cat_inv in H as (s1 & s2 & Heq & H1 & H2).
      symmetry in Heq. apply append_empty in Heq as [-> ->]. auto.
  - rewrite orb_true_iff, IH1, IH2. split.
    + intros [H|H]; [apply MAltL|apply MAltR]; exact H.
    + apply matches_Alt_inv.
  - split; auto using MStarNil.
Qed.

Lemma matches_star_cons (r : regex) (a : ascii) (s : string) :
  matches (Star r) (String a s) ->
  exists s1 s2, s = (s1 ++ s2)%string /\ matches r (String a s1)
                /\ matches (Star r) s2.
Proof.
  intros H. remember (Star r) as r' eqn:Hr. remember (String a s) as s' eqn:Hs.
  revert a s Hs.
  induction H as [| | | | | | | r0 s1 s2 H1 _ H2 IH2]; try discriminate.
  intros a s Hs. injection Hr as ->.
  destruct s1 as [|b s1].
  - simpl in Hs. apply IH2; auto.
  - simpl in Hs. injection Hs as Hb Hs'. subst b s.
    exists s1, s2. auto.
Qed.

Lemma deriv_matches (a : ascii) (r : regex) (s : string) :
  matches (deriv a r) s <-> matches r (String a s).
Proof.
  revert s.
  induction r as [| | c | | r1 IH1 r2 IH2 | r1 IH1 r2 IH2 | r IH]; intros s; simpl.
  - split; intros H; inversion H.
  - split; intros H; inversion H.
  - destruct (Ascii.eqb_spec a c) as [->|Hne]; split; intros H; inversion H; subst.
    + apply MLit.
    + apply MEps.
    + congruence.
  - destruct (Ascii.eqb_spec a newline) as [->|Hne]; split; intros H; inversion H; subst.
    + congruence.
    + now apply MDot.
    + apply MEps.
  - assert (Hcat : matches (Cat (deriv a r1) r2) s ->
                   matches (Cat r1 r2) (String a s)).
    { intros H. apply matches_Cat_inv in H as (s1 & s2 & -> & H1 & H2).
      apply IH1 in H1. exact (MCat H1 H2). }
    assert (Hback : matches (Cat r1 r2) (String a s) ->
                    matches (Cat (deriv a r1) r2) s
                    \/ (matches r1 EmptyString /\ matches (deriv a r2) s)).
    { intros H. apply matches_Cat_inv in H as (s1 & s2 & Heq & H1 & H2).
      destruct s1 as [|b s1]; simpl in Heq.
      - subst s2. right. split; [exact H1|]. now apply IH2.
      - injection Heq as -> ->. left. apply MCat; [now apply IH1|exact H2]. }
    destruct (nullable r1) eqn:Hn; split.
    + intros H. apply matches_Alt_inv in H as [H|H]; auto.
      apply nullable_matches in Hn. apply IH2 in H.
      exact (MCat Hn H).
    + intros H. apply Hback in H as [H|[_ H]]; [now apply MAltL|now apply MAltR].
    + exact Hcat.
    + intros H. apply Hback in H as [H|[H _]]; [exact H|].
      apply nullable_matches in H. congruence.
  - split; intros H.
    + apply matches_Alt_inv in H as [H|H];
        [apply MAltL; now apply IH1|apply MAltR; now apply IH2].
    + apply matches_Alt_inv in H as [H|H];
        [apply MAltL; now apply IH1|apply MAltR; now apply IH2].
  - split.
    + intros H. apply matches_Cat_inv in H as (s1 & s2 & -> & H1 & H2).
      apply IH in H1. exact (MStarApp H1 H2).
    + intros H. apply matches_star_cons in H as (s1 & s2 & -> & H1 & H2).
      apply MCat; [now apply IH|exact H2].
Qed.

(** the derivative matcher decides [matches] *)
Lemma fullmatch_matches (r : regex) (s : string) :
  fullmatch r s = true <-> matches r s.
Proof.
  revert r; induction s as [|a s IH]; intros r; simpl.
  - apply nullable_matches.
  - rewrite IH. apply deriv_matches.
Qed.

End ReSem.

(** ** The selector *)

Module GlobFacts.

Import Re ReFacts ReSem.

Lemma matches_Lit_inv (c : ascii) (s : string) :
  matches (Lit c) s -> s = String c EmptyString.
Proof. intros H; inversion H; reflexivity. Qed.

Lemma matches_any_run (w : string) :
  matches (Star Dot) w <-> one_line w = true.
Proof.
  split.
  - intros H. remember (Star Dot) as r eqn:Hr.
    induction H as [| | | | | | | r0 s1 s2 H1 _ H2 IH2]; try discriminate.
    + reflexivity.
    + injection Hr as ->. inversion H1 as [| |c Hc| | | | |]; subst.
      unfold one_line in *. simpl. rewrite IH2 by reflexivity.
      destruct (Ascii.eqb_spec c newline); [contradiction|reflexivity].
  - induction w as [|c w IH]; intros H.
    + apply MStarNil.
    + unfold one_line in H. simpl in H. apply andb_true_iff in H as [Hc Hw].
      change (String c w) with (String c EmptyString ++ w)%string.
      apply MStarApp; [|now apply IH].
      apply MDot. intros ->. now rewrite Ascii.eqb_refl in Hc.
Qed.

(** the pattern built from a configured glob accepts what the glob says *)
Lemma matches_glob (p k : string) : matches (glob p) k <-> glob_accepts p k.
Proof.
  revert k; induction p as [|c p IH]; intros k; simpl.
  - split; intros H; inversion H; constructor.
  - destruct (Ascii.eqb_spec c "*"%char) as [->|Hc]; split; intros H.
    + apply matches_Cat_inv in H as (w & k' & -> & Hw & Hk).
      apply GlobStar; [now apply matches_any_run|now apply IH].
    + inversion H as [|? ? ? Hne|? w k' Hw Hk]; subst; [congruence|].
      apply MCat; [now apply matches_any_run|now apply IH].
    + apply matches_Cat_inv in H as (w & k' & -> & Hw & Hk).
      apply matches_Lit_inv in Hw as ->. simpl.
      apply GlobChar; [exact Hc|now apply IH].
    + inversion H as [|? ? k' Hne Hk|]; subst; [|congruence].
      change (String c k') with (String c EmptyString ++ k')%string.
      apply MCat; [apply MLit|now apply IH].
Qed.

Lemma fullmatch_glob (p k : string) :
  fullmatch (glob p) k = true <-> glob_accepts p k.
Proof. rewrite fullmatch_matches. apply matches_glob. Qed.

Lemma mem_In (x : string) (xs : list string) : Str.mem x xs = true <-> In x xs.
Proof.
  unfold Str.mem. rewrite existsb_exists. split.
  - intros (y & Hy & Heq). apply String.eqb_eq in Heq. now subst.
  - intros H. exists x. split; [exact H|apply String.eqb_refl].
Qed.

Lemma fullmatch_default (k : string) :
  fullmatch (alternation (map literal _DEFAULT_FORMATS)) k = true
  <-> In k _DEFAULT_FORMATS.
Proof.
  unfold _DEFAULT_FORMATS. cbn [map].
  rewrite fullmatch_alternation. cbn [existsb].
  rewrite !fullmatch_literal. rewrite !orb_true_iff, !String.eqb_eq.
  cbn [In]. intuition (auto; discriminate).
Qed.

Lemma fullmatch_pattern (p k : string) :
  fullmatch (pattern_regex p) k = true <-> entry_accepts p k.
Proof.
  unfold pattern_regex, entry_accepts.
  destruct (String.eqb p "default").
  - apply fullmatch_default.
  - apply fullmatch_glob.
Qed.

(** the join of the patterns of a list that is not empty accepts a key
    exactly when one of its entries accepts the whole key *)
Lemma selector_entries (p : string) (pats : list string) (k : string) :
  fullmatch (alternation (map pattern_regex (p :: pats))) k = true
  <-> exists q, In q (p :: pats) /\ entry_accepts q k.
Proof.
  cbn [map]. rewrite fullmatch_alternation.
  change (pattern_regex p :: map pattern_regex pats)
    with (map pattern_regex (p :: pats)).
  rewrite existsb_exists. split.
  - intros (r & Hr & Hm). apply in_map_iff in Hr as (q & <- & Hq).
    exists q. split; [exact Hq|now apply fullmatch_pattern].
  - intros (q & Hq & Hm). exists (pattern_regex q). split.
    + now apply in_map.
    + now apply fullmatch_pattern.
Qed.

(** the join of no pattern is the empty pattern *)
Lemma selector_of_nothing (k : string) :
  fullmatch (alternation []) k = true <-> k = EmptyString.
Proof.
  cbn [alternation]. destruct k as [|c k]; cbn [fullmatch nullable deriv].
  - split; reflexivity.
  - rewrite fullmatch_Void. split; discriminate.
Qed.

End GlobFacts.

(** C3, as the code has it.  The selector of a session is built from
    the extractor argument [formats] and matches whole identity keys.
    Built from a list that is not empty, it accepts a key exactly when
    one entry, read in lower case, accepts the key from its first to
    its last character, where a star stands for any run of characters
    and [default] for the six keys of [_DEFAULT_FORMATS].  Configured
    with [hls_aac] and [http_mp3] it accepts these two keys and no
    other, so not [hls_opus] and not a key that merely contains one of
    them.  Without the argument, as with the single entry [default], it
    accepts exactly the keys of [_DEFAULT_FORMATS].  An argument that
    is given and empty does not bring the default back: the join of no
    pattern accepts the empty key and no other. *)
Theorem is_requested_whole_key `{E : Env} :
  (forall p pats k,
      formats_arg = Some (p :: pats) ->
      _is_requested k = true
      <-> exists q, In q (map Str.lower (p :: pats)) /\ entry_accepts q k)
  /\ (formats_arg = Some ["hls_aac"; "http_mp3"] ->
      (forall k, _is_requested k = true <-> k = "hls_aac" \/ k = "http_mp3")
      /\ _is_requested "hls_opus" = false
      /\ _is_requested "hls_aac_256" = false)
  /\ (formats_arg = None \/ formats_arg = Some ["default"] ->
      forall k, _is_requested k = true <-> In k _DEFAULT_FORMATS)
  /\ (formats_arg = Some [] ->
      forall k, _is_requested k = true <-> k = EmptyString).
Proof.
  assert (Htwo : formats_arg = Some ["hls_aac"; "http_mp3"] ->
                 forall k, _is_requested k = true
                           <-> k = "hls_aac" \/ k = "http_mp3").
  { intros Hf k. unfold _is_requested, is_requested_for. rewrite Hf.
    change (_configuration_arg (Some ["hls_aac"; "http_mp3"]) ["default"])
      with ["hls_aac"; "http_mp3"].
    cbn. rewrite ReFacts.fullmatch_Alt.
    change (Re.Cat (Re.Lit "h") _) with (Re.literal "hls_aac") at 1.
    change (Re.Cat (Re.Lit "h") _) with (Re.literal "http_mp3").
    rewrite !ReFacts.fullmatch_literal, orb_true_iff, !String.eqb_eq.
    intuition. }
  split; [|split; [|split]].
  - intros p pats k Hf. unfold _is_requested, is_requested_for. rewrite Hf.
    cbn [_configuration_arg]. cbn [map]. apply GlobFacts.selector_entries.
  - intros Hf. split; [exact (Htwo Hf)|].
    split; apply not_true_is_false; intros H; apply (Htwo Hf) in H;
      destruct H as [H|H]; discriminate H.
  - intros [Hf|Hf] k; unfold _is_requested, is_requested_for; rewrite Hf;
      apply GlobFacts.fullmatch_default.
  - intros Hf k. unfold _is_requested, is_requested_for. rewrite Hf.
    apply GlobFacts.selector_of_nothing.
Qed.

(** [is_requested_whole_key] in four sessions: configured with the two
    keys, with a pattern in capitals and a star, without the argument,
    and with an empty one *)
Lemma is_requested_whole_key_witness :
  (let E := Fixture.session (Some ["hls_aac"; "http_mp3"]) 2
              Fixture.three_pages Fixture.no_page Fixture.no_head in
   _is_requested "http_mp3" = true /\ _is_requested "hls_opus" = false)
  /\ (let E := Fixture.session (Some ["HLS_*"]) 2
                 Fixture.three_pages Fixture.no_page Fixture.no_head in
      _is_requested "hls_opus" = true /\ _is_requested "http_mp3" = false)
  /\ (let E := Fixture.session None 2
                 Fixture.three_pages Fixture.no_page Fixture.no_head in
      _is_requested "hls_opus" = true)
  /\ (let E := Fixture.session (Some []) 2
                 Fixture.three_pages Fixture.no_page Fixture.no_head in
      _is_requested "" = true).
Proof.
  cbv zeta. split; [|split; [|split]].
  - destruct (@is_requested_whole_key
                (Fixture.session (Some ["hls_aac"; "http_mp3"]) 2
                   Fixture.three_pages Fixture.no_page Fixture.no_head))
      as (_ & Htwo & _).
    destruct (Htwo eq_refl) as (Hk & Hopus & _).
    split; [apply Hk; now right|exact Hopus].
  - destruct (@is_requested_whole_key
                (Fixture.session (Some ["HLS_*"]) 2
                   Fixture.three_pages Fixture.no_page Fixture.no_head))
      as (Hany & _).
    split.
    + apply (Hany "HLS_*" [] "hls_opus" eq_refl). exists "hls_*".
      split; [now left|]. unfold entry_accepts. cbn.
      change "hls_opus" with ("h" ++ "ls_opus")%string.
      repeat (apply GlobChar; [discriminate|]).
      change "opus" with ("opus" ++ "")%string.
      apply GlobStar; [reflexivity|constructor].
    + apply not_true_is_false. intros H.
      apply (Hany "HLS_*" [] "http_mp3" eq_refl) in H
        as (q & [<-|[]] & Hq).
      unfold entry_accepts in Hq. cbn in Hq.
      inversion Hq as [|c p k Hc Hq1|]; subst.
      inversion Hq1 as [|c p k Hc1 Hq2|]; subst.
  - destruct (@is_requested_whole_key
                (Fixture.session None 2
                   Fixture.three_pages Fixture.no_page Fixture.no_head))
      as (_ & _ & Hdefault & _).
    apply (Hdefault (or_introl eq_refl)). cbn. tauto.
  - destruct (@is_requested_whole_key
                (Fixture.session (Some []) 2
                   Fixture.three_pages Fixture.no_page Fixture.no_head))
      as (_ & _ & _ & Hempty).
    now apply (Hempty eq_refl).
Defined.

(** C3 as stated fails for an argument that is given and empty: the
    selector then rejects every key of [_DEFAULT_FORMATS], which the
    selector of a session without the argument accepts. *)
Lemma empty_configuration_selects_no_default :
  (let E := Fixture.session (Some []) 2
              Fixture.three_pages Fixture.no_page Fixture.no_head in
   forallb (fun k => negb (_is_requested k)) _DEFAULT_FORMATS = true)
  /\ (let E := Fixture.session None 2
                 Fixture.three_pages Fixture.no_page Fixture.no_head in
      forallb _is_requested _DEFAULT_FORMATS = true)
  /\ ~ (forall (E : Env) k,
          formats_arg = Some [] ->
          _is_requested k = true <-> In k _DEFAULT_FORMATS).
Proof.
  split; [vm_compute; reflexivity|]. split; [vm_compute; reflexivity|].
  intros H.
  specialize (H (Fixture.session (Some []) 2 Fixture.three_pages
                   Fixture.no_page Fixture.no_head) "hls_mp3" eq_refl).
  assert (Hin : In "hls_mp3" _DEFAULT_FORMATS) by (cbn; tauto).
  apply H in Hin. vm_compute in Hin. discriminate Hin.
Qed.

(** ** Classification *)

Section Classification.

Context {E : Env}.

(** the three rewriting steps of the protocol, as one decision *)
Lemma derive_protocol_cases (t : RawTranscoding) :
  derive_protocol t =
    if Str.contains "/encrypted-hls" (t_url t) then Some "hls-aes"
    else if Str.contains "/hls" (t_url t) then Some "hls"
    else if opt_eqb (t_protocol t) "progressive" then Some "http"
    else if opt_eqb (t_protocol t) "encrypted-hls" then Some "hls-aes"
    else t_protocol t.
Proof.
  unfold derive_protocol.
  destruct (Str.contains "/encrypted-hls" (t_url t)) eqn:Henc;
  destruct (Str.contains "/hls" (t_url t)) eqn:Hhls;
  destruct (t_protocol t) as [p|]; cbn [opt_eqb];
  rewrite ?orb_true_r, ?orb_false_r, ?andb_true_r, ?andb_false_r;
  try reflexivity;
  destruct (String.eqb_spec p "progressive") as [->|Hp]; cbn;
  try reflexivity;
  destruct (String.eqb_spec p "hls") as [->|Hh]; cbn; try reflexivity;
  destruct (String.eqb_spec p "encrypted-hls") as [->|He]; cbn; reflexivity.
Qed.

(** a transcoding whose key the selector rejects costs no request *)
Lemma rejected_transcoding_is_skipped (query : dict) (t : RawTranscoding)
    (acc : list string * list Format) (s : state) :
  _is_requested (join_nonempty "_" [derive_protocol t; derive_ext t]) = false ->
  transcoding_step query t acc s = (inr acc, s).
Proof.
  intros H. unfold transcoding_step, identifier. destruct acc as [urls fs].
  rewrite H. reflexivity.
Qed.

End Classification.

(** C2, as the code has it.  The protocol of the identity is decided
    before the selector is asked: a URL that contains [/encrypted-hls]
    gives [hls-aes]; any other URL that contains [/hls] gives [hls],
    whatever the raw protocol says; only for the remaining URLs does
    the raw protocol count, [progressive] becoming [http] and
    [encrypted-hls] becoming [hls-aes].  The extension is the leading
    token of the preset when that token is a known extension, and
    otherwise what the MIME type gives.  The key handed to the selector
    is built from this protocol and this extension, and a rejected key
    leaves the session untouched. *)
Theorem identity_is_normalized_before_matching `{E : Env}
    (t : RawTranscoding) :
  (Str.contains "/encrypted-hls" (t_url t) = true ->
     derive_protocol t = Some "hls-aes")
  /\ (Str.contains "/encrypted-hls" (t_url t) = false ->
      Str.contains "/hls" (t_url t) = true ->
      derive_protocol t = Some "hls")
  /\ (Str.contains "/encrypted-hls" (t_url t) = false ->
      Str.contains "/hls" (t_url t) = false ->
      (t_protocol t = Some "progressive" -> derive_protocol t = Some "http")
      /\ (t_protocol t = Some "encrypted-hls" ->
          derive_protocol t = Some "hls-aes"))
  /\ (forall preset,
        t_preset t = Some preset -> Str.nonempty preset = true ->
        Str.mem (Str.split_head "_" preset) KNOWN_EXTENSIONS = true ->
        derive_ext t = Some (Str.split_head "_" preset))
  /\ (forall preset,
        t_preset t = Some preset ->
        Str.mem (Str.split_head "_" preset) KNOWN_EXTENSIONS = false ->
        derive_ext t = mimetype2ext (t_mime_type t))
  /\ (t_preset t = None -> derive_ext t = mimetype2ext (t_mime_type t))
  /\ (forall query acc s,
        _is_requested (join_nonempty "_" [derive_protocol t; derive_ext t])
          = false ->
        transcoding_step query t acc s = (inr acc, s)).
Proof.
  repeat split.
  - intros H. now rewrite derive_protocol_cases, H.
  - intros H1 H2. now rewrite derive_protocol_cases, H1, H2.
  - intros Hp. rewrite derive_protocol_cases, H, H0, Hp. reflexivity.
  - intros Hp. rewrite derive_protocol_cases, H, H0, Hp. reflexivity.
  - intros preset Hp Hne Hk. unfold derive_ext. rewrite Hp, Hne.
    cbn [known_extension]. now rewrite Hk.
  - intros preset Hp Hk. unfold derive_ext. rewrite Hp.
    destruct (Str.nonempty preset); cbn [known_extension];
      [now rewrite Hk|reflexivity].
  - intros Hp. unfold derive_ext. now rewrite Hp.
  - intros query acc s. apply rejected_transcoding_is_skipped.
Qed.

(** C2 as stated fails: a raw protocol [progressive] does not become
    [http], and a raw protocol [encrypted-hls] does not become
    [hls-aes], when the URL of the transcoding has [/hls] in it. *)
Lemma raw_protocol_loses_to_hls_path :
  t_protocol Fixture.progressive_on_hls_path = Some "progressive"
  /\ derive_protocol Fixture.progressive_on_hls_path = Some "hls"
  /\ t_protocol Fixture.encrypted_on_hls_path = Some "encrypted-hls"
  /\ derive_protocol Fixture.encrypted_on_hls_path = Some "hls"
  /\ ~ (forall t, t_protocol t = Some "progressive" ->
                  derive_protocol t = Some "http")
  /\ ~ (forall t, t_protocol t = Some "encrypted-hls" ->
                  derive_protocol t = Some "hls-aes").
Proof.
  repeat split; try reflexivity.
  - intros H. specialize (H Fixture.progressive_on_hls_path eq_refl).
    discriminate H.
  - intros H. specialize (H Fixture.encrypted_on_hls_path eq_refl).
    discriminate H.
Qed.

(** the rules of [identity_is_normalized_before_matching] at work *)
Lemma identity_is_normalized_before_matching_witness :
  derive_protocol Fixture.encrypted_aac = Some "hls-aes"
  /\ derive_protocol Fixture.progressive_on_hls_path = Some "hls"
  /\ derive_protocol Fixture.progressive_mp3 = Some "http"
  /\ @derive_ext Fixture.paged_env Fixture.progressive_mp3 = Some "mp3"
  /\ @derive_ext Fixture.paged_env Fixture.abr_opus = Some "ogg"
  /\ @transcoding_step Fixture.paged_env [] Fixture.encrypted_aac ([], [])
       Fixture.start = (inr ([], []), Fixture.start).
Proof.
  destruct (@identity_is_normalized_before_matching Fixture.paged_env
              Fixture.encrypted_aac) as (H1 & _ & _ & _ & _ & _ & H7).
  destruct (@identity_is_normalized_before_matching Fixture.paged_env
              Fixture.progressive_on_hls_path) as (_ & H2 & _).
  destruct (@identity_is_normalized_before_matching Fixture.paged_env
              Fixture.progressive_mp3) as (_ & _ & H3 & H4 & _).
  destruct (@identity_is_normalized_before_matching Fixture.paged_env
              Fixture.abr_opus) as (_ & _ & _ & _ & H5 & _).
  split; [apply H1; reflexivity|].
  split; [apply H2; reflexivity|].
  split; [apply H3; reflexivity|].
  split; [apply (H4 "mp3_0_0"); reflexivity|].
  split; [apply (H5 "abr_sq"); reflexivity|].
  apply H7. reflexivity.
Defined.

(** ** Running the monad *)

Lemma bind_inr {A B : Type} (m : M A) (k : A -> M B) (s s' : state) (b : B) :
  bind m k s = (inr b, s') ->
  exists a s1, m s = (inr a, s1) /\ k a s1 = (inr b, s').
Proof.
  unfold bind. destruct (m s) as [[e|a] s1]; intros H.
  - discriminate.
  - eauto.
Qed.

Lemma ret_inr {A : Type} (a b : A) (s s' : state) :
  ret a s = (inr b, s') -> a = b /\ s = s'.
Proof. unfold ret. intros H. injection H as -> ->. auto. Qed.

(** ** Stream descriptors *)

Section Descriptors.

Context {E : Env}.

Lemma add_format_url (u : string) (f : Format) (p : option string) (v : bool) :
  f_url (add_format u f p v) = f_url f.
Proof.
  unfold add_format, mark_premium, merge_url_tag.
  destruct (Search.abr_ext u) as [[a e]|]; cbn;
    match goal with |- context [opt_eqb ?x ?y] => destruct (opt_eqb x y) end;
    reflexivity.
Qed.

Lemma add_format_ext (u : string) (f : Format) (p : option string) (v : bool) :
  f_ext (add_format u f p v) = f_ext (merge_url_tag u f).
Proof.
  unfold add_format, mark_premium.
  destruct (opt_eqb (f_ext (merge_url_tag u f)) "aac"); reflexivity.
Qed.

Lemma opt_eqb_eq (o : option string) (x : string) :
  opt_eqb o x = true <-> o = Some x.
Proof.
  destruct o as [y|]; simpl.
  - rewrite String.eqb_eq. split; [now intros ->|now intros [= ->]].
  - split; discriminate.
Qed.

(** a descriptor with the extension [aac] leaves [add_format] as a
    premium stream of 256 kbit/s *)
Lemma add_format_aac (u : string) (f : Format) (p : option string) (v : bool) :
  f_ext (add_format u f p v) = Some "aac" ->
  f_abr (add_format u f p v) = Some (AbrInt 256)
  /\ f_quality (add_format u f p v) = Some 5%Z
  /\ f_format_note (add_format u f p v) = Some "Premium".
Proof.
  rewrite add_format_ext. intros Hext.
  unfold add_format, mark_premium.
  apply opt_eqb_eq in Hext. rewrite Hext. cbn. auto.
Qed.

End Descriptors.

(** ** The collection of descriptors *)

Section Collection.

Context {E : Env}.

Lemma NoDup_snoc {A : Type} (l : list A) (x : A) :
  NoDup l -> ~ In x l -> NoDup (l ++ [x]).
Proof.
  induction l as [|y l IH]; intros Hnd Hx; simpl.
  - constructor; [intros []|constructor].
  - inversion Hnd as [|? ? Hy Hl]; subst. constructor.
    + rewrite in_app_iff. intros [H|[H|[]]]; [auto|].
      subst. apply Hx. now left.
    + apply IH; [exact Hl|]. intros H. apply Hx. now right.
Qed.

Lemma invalid_url_false (urls : list string) (u : string) :
  invalid_url urls (Some u) = false ->
  Str.nonempty u = true /\ ~ In u urls.
Proof.
  unfold invalid_url. intros H. apply orb_false_iff in H as [H1 H2].
  apply negb_false_iff in H1. split; [exact H1|].
  intros Hin. apply GlobFacts.mem_In in Hin. congruence.
Qed.

Lemma invariant_empty : collection_invariant ([], []).
Proof. repeat split; constructor. Qed.

Lemma transcoding_step_invariant (query : dict) (t : RawTranscoding)
    (acc acc' : list string * list Format) (s s' : state) :
  collection_invariant acc ->
  transcoding_step query t acc s = (inr acc', s') ->
  collection_invariant acc'.
Proof.
  intros Hinv. unfold transcoding_step. destruct acc as [urls fs].
  destruct (negb (_is_requested (identifier t))).
  - intros H. apply ret_inr in H as [<- _]. exact Hinv.
  - intros H. apply bind_inr in H as (stream & s1 & _ & H).
    destruct (stream_url_of stream) as [u|].
    + destruct (invalid_url urls (Some u)) eqn:Hinvalid.
      * apply ret_inr in H as [<- _]. exact Hinv.
      * apply ret_inr in H as [<- _].
        apply invalid_url_false in Hinvalid as [Hne Hnew].
        destruct Hinv as (Hmap & Hnd & Hall). cbn [fst snd] in *.
        repeat split; cbn [fst snd].
        -- rewrite map_app, Hmap. cbn [map]. now rewrite add_format_url.
        -- now apply NoDup_snoc.
        -- apply Forall_app. split; [exact Hall|].
           constructor; [|constructor]. right.
           exists u, (derive_ext t), (derive_protocol t), (snippet t). auto.
    + apply ret_inr in H as [<- _]. exact Hinv.
Qed.

Lemma transcodings_loop_invariant (query : dict) (ts : list RawTranscoding)
    (acc acc' : list string * list Format) (s s' : state) :
  collection_invariant acc ->
  transcodings_loop query ts acc s = (inr acc', s') ->
  collection_invariant acc'.
Proof.
  revert acc s. induction ts as [|t ts IH]; intros acc s Hinv H; simpl in H.
  - apply ret_inr in H as [<- _]. exact Hinv.
  - apply bind_inr in H as (acc1 & s1 & Hstep & H).
    eapply IH; [|exact H].
    eapply transcoding_step_invariant; eauto.
Qed.

Lemma original_download_invariant (info : list (string * json))
    (track_id : string) (query : dict) (acc : list string * list Format)
    (s s' : state) :
  original_download info track_id query s = (inr acc, s') ->
  collection_invariant acc.
Proof.
  unfold original_download.
  destruct (Py.truthy_opt (Py.get "downloadable" info)
            && Py.truthy_opt (Py.get "has_downloads_left" info)).
  2:{ intros H. apply ret_inr in H as [<- _]. apply invariant_empty. }
  intros H. apply bind_inr in H as (answer & s1 & _ & H).
  apply bind_inr in H as (fields & s2 & _ & H).
  destruct (Py.get "redirectUri" fields) as [[| | |redirect| |]|];
    cbn [Py.truthy] in H;
    try (apply ret_inr in H as [<- _]; apply invariant_empty);
    try discriminate H.
  - destruct b; [discriminate H|].
    apply ret_inr in H as [<- _]; apply invariant_empty.
  - destruct (negb (z =? 0)%Z); [discriminate H|].
    apply ret_inr in H as [<- _]; apply invariant_empty.
  - destruct (Str.nonempty redirect).
    + apply bind_inr in H as (probe & s3 & _ & H).
      destruct probe as [h|]; apply ret_inr in H as [<- _].
      * repeat split; cbn [fst snd map].
        -- constructor; [intros []|constructor].
        -- constructor; [|constructor]. left. repeat split.
      * apply invariant_empty.
    + apply ret_inr in H as [<- _]; apply invariant_empty.
  - destruct items; [|discriminate H].
    apply ret_inr in H as [<- _]; apply invariant_empty.
  - destruct fields0; [|discriminate H].
    apply ret_inr in H as [<- _]; apply invariant_empty.
Qed.

(** every run of [_extract_info_dict] that returns formats returns the
    descriptors of an accumulator that satisfies the invariant *)
Lemma extract_info_dict_formats (info : json) (token : option string)
    (flat : bool) (s s' : state) (d : info_dict) (fs : list Format) :
  _extract_info_dict info token flat s = (inr d, s') ->
  formats d = Some fs ->
  exists acc, collection_invariant acc /\ fs = map set_vcodec_none (snd acc).
Proof.
  unfold _extract_info_dict. intros H Hfs.
  apply bind_inr in H as (idv & s1 & _ & H).
  apply bind_inr in H as (tv & s2 & _ & H).
  apply bind_inr in H as (fields & s3 & _ & H).
  apply bind_inr in H as (cid & s4 & _ & H).
  apply bind_inr in H as (acc0 & s5 & H0 & H).
  apply bind_inr in H as (acc1 & s6 & H1 & H).
  match type of H with (if ?c then _ else _) _ = _ => destruct c end;
    [discriminate H|].
  apply bind_inr in H as (user & s7 & _ & H).
  apply ret_inr in H as [<- _]. cbn [formats] in Hfs.
  destruct flat; [discriminate Hfs|]. injection Hfs as <-.
  exists acc1. split; [|reflexivity].
  eapply transcodings_loop_invariant; [|exact H1].
  eapply original_download_invariant; exact H0.
Qed.

(** the probe for the original file leaves no descriptor but that of
    the original file *)
Lemma original_download_originals (info : list (string * json))
    (track_id : string) (query : dict) (acc : list string * list Format)
    (s s' : state) :
  original_download info track_id query s = (inr acc, s') ->
  Forall is_original (snd acc).
Proof.
  unfold original_download.
  destruct (Py.truthy_opt (Py.get "downloadable" info)
            && Py.truthy_opt (Py.get "has_downloads_left" info)).
  2:{ intros H. apply ret_inr in H as [<- _]. constructor. }
  intros H. apply bind_inr in H as (answer & s1 & _ & H).
  apply bind_inr in H as (fields & s2 & _ & H).
  destruct (Py.get "redirectUri" fields) as [[| | |redirect| |]|];
    cbn [Py.truthy] in H;
    try (apply ret_inr in H as [<- _]; constructor);
    try discriminate H.
  - destruct b; [discriminate H|].
    apply ret_inr in H as [<- _]; constructor.
  - destruct (negb (z =? 0)%Z); [discriminate H|].
    apply ret_inr in H as [<- _]; constructor.
  - destruct (Str.nonempty redirect).
    + apply bind_inr in H as (probe & s3 & _ & H).
      destruct probe as [h|]; apply ret_inr in H as [<- _]; cbn [snd].
      * constructor; [|constructor]. repeat split.
      * constructor.
    + apply ret_inr in H as [<- _]; constructor.
  - destruct items; [|discriminate H].
    apply ret_inr in H as [<- _]; constructor.
  - destruct fields0; [|discriminate H].
    apply ret_inr in H as [<- _]; constructor.
Qed.

(** one round of the loop adds at most the descriptor of its
    transcoding *)
Lemma transcoding_step_from (query : dict) (all : list RawTranscoding)
    (t : RawTranscoding) (acc acc' : list string * list Format)
    (s s' : state) :
  In t all ->
  Forall (fun f => is_original f \/ is_collected_from query all f) (snd acc) ->
  transcoding_step query t acc s = (inr acc', s') ->
  Forall (fun f => is_original f \/ is_collected_from query all f) (snd acc').
Proof.
  intros Hin Hall. unfold transcoding_step. destruct acc as [urls fs].
  destruct (_is_requested (identifier t)) eqn:Hreq; cbn [negb].
  2:{ intros H. apply ret_inr in H as [<- _]. exact Hall. }
  intros H. apply bind_inr in H as (stream & s1 & Hfetch & H).
  destruct (stream_url_of stream) as [u|] eqn:Hurl.
  - destruct (invalid_url urls (Some u)); apply ret_inr in H as [<- _];
      [exact Hall|].
    cbn [snd] in *. apply Forall_app. split; [exact Hall|].
    constructor; [|constructor]. right. exists t, u.
    split; [exact Hin|]. split; [exact Hreq|].
    split; [|reflexivity]. exists s, stream, s1. split; assumption.
  - apply ret_inr in H as [<- _]. exact Hall.
Qed.

Lemma transcodings_loop_from (query : dict) (all ts : list RawTranscoding)
    (acc acc' : list string * list Format) (s s' : state) :
  incl ts all ->
  Forall (fun f => is_original f \/ is_collected_from query all f) (snd acc) ->
  transcodings_loop query ts acc s = (inr acc', s') ->
  Forall (fun f => is_original f \/ is_collected_from query all f) (snd acc').
Proof.
  revert acc s. induction ts as [|t ts IH]; intros acc s Hincl Hall H;
    simpl in H.
  - apply ret_inr in H as [<- _]. exact Hall.
  - apply bind_inr in H as (acc1 & s1 & Hstep & H).
    apply (IH acc1 s1); [|  |exact H].
    + intros x Hx. apply Hincl. now right.
    + eapply transcoding_step_from; [|exact Hall|exact Hstep].
      apply Hincl. now left.
Qed.

(** every descriptor an extraction returns is that of the original file
    or was made from a transcoding of the payload *)
Lemma extract_info_dict_from (info : json) (token : option string)
    (flat : bool) (s s' : state) (d : info_dict) (fs : list Format) :
  _extract_info_dict info token flat s = (inr d, s') ->
  formats d = Some fs ->
  exists fields acc,
    info = JObj fields
    /\ fs = map set_vcodec_none acc
    /\ Forall (fun f => is_original f
                        \/ is_collected_from (auth_query (CLIENT_ID s) token)
                             (transcodings fields) f) acc.
Proof.
  unfold _extract_info_dict. intros H Hfs.
  apply bind_inr in H as (idv & s1 & Hid & H).
  destruct info as [| | | |items|fields]; try discriminate Hid.
  cbn [getitem] in Hid.
  assert (s1 = s) as ->.
  { destruct (Py.assoc "id" fields);
      [now apply ret_inr in Hid as [_ <-]|discriminate Hid]. }
  apply bind_inr in H as (tv & s2 & Htv & H).
  assert (s2 = s) as ->.
  { cbn [getitem] in Htv. destruct (Py.assoc "title" fields);
      [now apply ret_inr in Htv as [_ <-]|discriminate Htv]. }
  apply bind_inr in H as (fields' & s3 & Hf & H).
  apply ret_inr in Hf as [<- <-].
  apply bind_inr in H as (cid & s4 & Hc & H).
  unfold get_client_id in Hc. injection Hc as <- <-.
  apply bind_inr in H as (acc0 & s5 & H0 & H).
  apply bind_inr in H as (acc1 & s6 & H1 & H).
  match type of H with (if ?c then _ else _) _ = _ => destruct c end;
    [discriminate H|].
  apply bind_inr in H as (user & s7 & _ & H).
  apply ret_inr in H as [<- _]. cbn [formats] in Hfs.
  destruct flat; [discriminate Hfs|]. injection Hfs as <-.
  exists fields, (snd acc1). split; [reflexivity|]. split; [reflexivity|].
  eapply transcodings_loop_from; [apply incl_refl| |exact H1].
  apply original_download_originals in H0.
  eapply Forall_impl; [|exact H0]. intros f Hf. now left.
Qed.

End Collection.

Section Collected.

Context {E : Env}.

Lemma transcodings_loop_app (query : dict) (ts1 ts2 : list RawTranscoding)
    (acc : list string * list Format) (s : state) :
  transcodings_loop query (ts1 ++ ts2) acc s
  = bind (transcodings_loop query ts1 acc) (transcodings_loop query ts2) s.
Proof.
  revert acc s; induction ts1 as [|t ts1 IH]; intros acc s; [reflexivity|].
  cbn [app transcodings_loop]. unfold bind.
  destruct (transcoding_step query t acc s) as [[e|acc1] s1]; [reflexivity|].
  rewrite IH. reflexivity.
Qed.

Lemma transcoding_step_keeps (query : dict) (t : RawTranscoding)
    (acc acc' : list string * list Format) (s s' : state) (u : string) :
  transcoding_step query t acc s = (inr acc', s') ->
  In u (fst acc) -> In u (fst acc').
Proof.
  unfold transcoding_step. destruct acc as [urls fs].
  destruct (negb (_is_requested (identifier t))).
  - intros H. apply ret_inr in H as [<- _]. auto.
  - intros H. apply bind_inr in H as (stream & s1 & _ & H).
    destruct (stream_url_of stream) as [u'|].
    + destruct (invalid_url urls (Some u')); apply ret_inr in H as [<- _];
        [auto|]. cbn [fst]. intros Hin. apply in_or_app. now left.
    + apply ret_inr in H as [<- _]. auto.
Qed.

Lemma transcodings_loop_keeps (query : dict) (ts : list RawTranscoding)
    (acc acc' : list string * list Format) (s s' : state) (u : string) :
  transcodings_loop query ts acc s = (inr acc', s') ->
  In u (fst acc) -> In u (fst acc').
Proof.
  revert acc s; induction ts as [|t ts IH]; intros acc s H Hin; simpl in H.
  - apply ret_inr in H as [<- _]. exact Hin.
  - apply bind_inr in H as (acc1 & s1 & Hstep & H).
    eapply IH; [exact H|]. eapply transcoding_step_keeps; eauto.
Qed.

(** a requested transcoding whose stream resolves to a URL leaves that
    URL in [format_urls] *)
Lemma transcoding_step_collects (query : dict) (t : RawTranscoding)
    (acc acc' : list string * list Format) (s s1 s' : state) (stream : json)
    (u : string) :
  transcoding_step query t acc s = (inr acc', s') ->
  _is_requested (identifier t) = true ->
  fetch_stream (t_url t) query s = (inr stream, s1) ->
  stream_url_of stream = Some u ->
  Str.nonempty u = true ->
  In u (fst acc').
Proof.
  unfold transcoding_step. destruct acc as [urls fs].
  intros H Hreq Hfetch Hurl Hne. rewrite Hreq in H. cbn [negb] in H.
  unfold bind in H. rewrite Hfetch, Hurl in H.
  destruct (invalid_url urls (Some u)) eqn:Hinv;
    apply ret_inr in H as [<- _]; cbn [fst].
  - unfold invalid_url in Hinv. rewrite Hne in Hinv. cbn [negb orb] in Hinv.
    now apply GlobFacts.mem_In.
  - apply in_or_app. right. now left.
Qed.

(** the stream a requested transcoding resolves to is described exactly
    once in what the extraction returns *)
Lemma resolved_stream_is_described_once (fields : list (string * json))
    (token : option string) (s s' : state) (d : info_dict)
    (fs : list Format) (idv : json) (ts1 ts2 : list RawTranscoding)
    (t : RawTranscoding) (acc0 acc1 : list string * list Format)
    (s0 s1 s2 : state) (stream : json) (u : string) :
  _extract_info_dict (JObj fields) token false s = (inr d, s') ->
  formats d = Some fs ->
  Py.assoc "id" fields = Some idv ->
  transcodings fields = (ts1 ++ t :: ts2)%list ->
  original_download fields (compat_str idv)
    (auth_query (CLIENT_ID s) token) s = (inr acc0, s0) ->
  transcodings_loop (auth_query (CLIENT_ID s) token) ts1 acc0 s0
  = (inr acc1, s1) ->
  _is_requested (identifier t) = true ->
  fetch_stream (t_url t) (auth_query (CLIENT_ID s) token) s1
  = (inr stream, s2) ->
  stream_url_of stream = Some u ->
  Str.nonempty u = true ->
  count_occ string_dec (map f_url fs) u = 1%nat.
Proof.
  intros Hrun Hfs Hid Hts Hdl Hloop1 Hreq Hfetch Hurl Hne.
  destruct (extract_info_dict_formats _ _ _ _ Hrun Hfs)
    as ([urls fs0] & (Hmap & Hnd & _) & ->).
  cbn [fst snd] in *.
  assert (Hurls : map f_url (map set_vcodec_none fs0) = urls).
  { rewrite map_map. rewrite (map_ext _ f_url) by (intros; reflexivity).
    exact Hmap. }
  rewrite Hurls. apply NoDup_count_occ'; [exact Hnd|].
  unfold _extract_info_dict in Hrun.
  apply bind_inr in Hrun as (idv' & sa & Hid' & Hrun).
  cbn [getitem] in Hid'. rewrite Hid in Hid'. apply ret_inr in Hid' as [<- <-].
  apply bind_inr in Hrun as (tv & sb & Htv & Hrun).
  assert (sb = s) as ->.
  { cbn [getitem] in Htv. destruct (Py.assoc "title" fields);
      [now apply ret_inr in Htv as [_ <-]|discriminate Htv]. }
  apply bind_inr in Hrun as (fields' & sc & Hf & Hrun).
  apply ret_inr in Hf as [<- <-].
  apply bind_inr in Hrun as (cid & sd & Hc & Hrun).
  unfold get_client_id in Hc. injection Hc as <- <-.
  apply bind_inr in Hrun as (acc0' & s0' & Hdl' & Hrun).
  rewrite Hdl in Hdl'. injection Hdl' as <- <-.
  apply bind_inr in Hrun as (acc3 & s4 & Hloop & Hrun).
  rewrite Hts, transcodings_loop_app in Hloop.
  apply bind_inr in Hloop as (acc1' & s1' & Hl1 & Hloop).
  rewrite Hloop1 in Hl1. injection Hl1 as <- <-.
  cbn [transcodings_loop] in Hloop.
  apply bind_inr in Hloop as (acc2 & s3 & Hstep & Hloop2).
  match type of Hrun with (if ?c then _ else _) _ = _ => destruct c end;
    [discriminate Hrun|].
  apply bind_inr in Hrun as (user & s5 & _ & Hrun).
  apply ret_inr in Hrun as [<- _]. cbn [formats] in Hfs.
  injection Hfs as Hacc.
  assert (Hin : In u (fst acc3)).
  { eapply transcodings_loop_keeps; [exact Hloop2|].
    eapply transcoding_step_collects; eauto. }
  assert (Hinv3 : collection_invariant acc3).
  { eapply transcodings_loop_invariant; [|exact Hloop2].
    eapply transcoding_step_invariant; [|exact Hstep].
    eapply transcodings_loop_invariant; [|exact Hloop1].
    eapply original_download_invariant; exact Hdl. }
  destruct Hinv3 as (Hmap3 & _ & _).
  rewrite <- Hurls, <- Hacc, map_map.
  rewrite (map_ext _ f_url) by (intros; reflexivity).
  now rewrite Hmap3.
Qed.

End Collected.

Lemma set_vcodec_none_url (f : Format) : f_url (set_vcodec_none f) = f_url f.
Proof. reflexivity. Qed.

Lemma add_format_id `{E : Env} (u : string) (f : Format) (p : option string)
    (v : bool) :
  f_format_id (add_format u f p v)
  = Some (format_id_of p (f_ext (add_format u f p v)) (abr_text u f)
            (marked_preview (add_format u f p v))).
Proof.
  unfold format_id_of, abr_text, marked_preview.
  rewrite add_format_ext.
  unfold add_format. cbn [f_format_id f_preference].
  replace (f_ext (mark_premium (merge_url_tag u f)))
    with (f_ext (merge_url_tag u f))
    by (unfold mark_premium;
        destruct (opt_eqb (f_ext (merge_url_tag u f)) "aac"); reflexivity).
  destruct (v || Search.preview_path (f_url (mark_premium (merge_url_tag u f))));
    reflexivity.
Qed.

Lemma add_format_preview `{E : Env} (u : string) (ext p : option string)
    (v : bool) :
  marked_preview (add_format u (new_format u ext) p v)
  = v || Search.preview_path u.
Proof.
  unfold marked_preview, add_format. cbn [f_preference].
  replace (f_url (mark_premium (merge_url_tag u (new_format u ext)))) with u.
  - destruct (v || Search.preview_path u); reflexivity.
  - unfold mark_premium, merge_url_tag.
    destruct (Search.abr_ext u) as [[a e]|]; cbn;
      match goal with |- context [opt_eqb ?x ?y] => destruct (opt_eqb x y) end;
      reflexivity.
Qed.

(** C4, as the code has it.  The descriptors an extraction returns
    have pairwise different URLs, so a URL two transcodings resolve to,
    or one the original file already has, is described at most once,
    and no descriptor made from a transcoding has an empty URL.  Every
    such descriptor was made from one transcoding of the payload, whose
    key the selector accepts, and from the URL the stream of this
    transcoding resolved to.  Its [format_id] is the join of the
    protocol derived from this transcoding, of the extension of the
    descriptor (the one derived from the transcoding, or else the one
    in the tag of the stream URL), of its bitrate and of the preview
    marker, which is set when the transcoding is a snippet or the
    stream URL has a preview path; nothing keeps two descriptors from
    having the same one.  And the URL that the stream of a requested
    transcoding resolves to, when the loop reaches it, is described
    exactly once. *)
Theorem resolved_urls_are_described_once `{E : Env}
    (info : json) (token : option string) (flat : bool) (s s' : state)
    (d : info_dict) (fs : list Format) :
  _extract_info_dict info token flat s = (inr d, s') ->
  formats d = Some fs ->
  NoDup (map f_url fs)
  /\ (forall f, In f fs -> f_format_note f <> Some "Original" ->
        Str.nonempty (f_url f) = true)
  /\ (forall f, In f fs -> f_format_note f <> Some "Original" ->
        exists fields t stream_url,
          info = JObj fields
          /\ In t (transcodings fields)
          /\ _is_requested (identifier t) = true
          /\ (exists s1 stream s2,
                fetch_stream (t_url t) (auth_query (CLIENT_ID s) token) s1
                = (inr stream, s2)
                /\ stream_url_of stream = Some stream_url)
          /\ f = set_vcodec_none
                   (add_format stream_url
                      (new_format stream_url (derive_ext t))
                      (derive_protocol t) (snippet t))
          /\ f_format_id f
             = Some (format_id_of (derive_protocol t) (f_ext f)
                       (abr_text stream_url
                          (new_format stream_url (derive_ext t)))
                       (marked_preview f))
          /\ f_ext f
             = (if Py.truthy_str (derive_ext t) then derive_ext t
                else match Search.abr_ext stream_url with
                     | Some (_, ext) => Some ext
                     | None => derive_ext t
                     end)
          /\ marked_preview f
             = snippet t || Search.preview_path stream_url)
  /\ (forall fields idv ts1 t ts2 acc0 acc1 s0 s1 s2 stream u,
        info = JObj fields -> flat = false ->
        Py.assoc "id" fields = Some idv ->
        transcodings fields = (ts1 ++ t :: ts2)%list ->
        original_download fields (compat_str idv)
          (auth_query (CLIENT_ID s) token) s = (inr acc0, s0) ->
        transcodings_loop (auth_query (CLIENT_ID s) token) ts1 acc0 s0
        = (inr acc1, s1) ->
        _is_requested (identifier t) = true ->
        fetch_stream (t_url t) (auth_query (CLIENT_ID s) token) s1
        = (inr stream, s2) ->
        stream_url_of stream = Some u ->
        Str.nonempty u = true ->
        count_occ string_dec (map f_url fs) u = 1%nat).
Proof.
  intros Hrun Hfs.
  assert (Honce : forall fields idv ts1 t ts2 acc0 acc1 s0 s1 s2 stream u,
        info = JObj fields -> flat = false ->
        Py.assoc "id" fields = Some idv ->
        transcodings fields = (ts1 ++ t :: ts2)%list ->
        original_download fields (compat_str idv)
          (auth_query (CLIENT_ID s) token) s = (inr acc0, s0) ->
        transcodings_loop (auth_query (CLIENT_ID s) token) ts1 acc0 s0
        = (inr acc1, s1) ->
        _is_requested (identifier t) = true ->
        fetch_stream (t_url t) (auth_query (CLIENT_ID s) token) s1
        = (inr stream, s2) ->
        stream_url_of stream = Some u ->
        Str.nonempty u = true ->
        count_occ string_dec (map f_url fs) u = 1%nat).
  { intros fields idv ts1 t ts2 acc0 acc1 s0 s1 s2 stream u Hinfo Hflat.
    subst info flat. intros.
    eapply resolved_stream_is_described_once; eauto. }
  destruct (extract_info_dict_formats _ _ _ _ Hrun Hfs)
    as ([urls fs0] & (Hmap & Hnd & Hall) & ->).
  cbn [fst snd] in *.
  assert (Hcollected : forall f, In f (map set_vcodec_none fs0) ->
            f_format_note f <> Some "Original" ->
            exists u ext p v, Str.nonempty u = true /\
              f = set_vcodec_none (add_format u (new_format u ext) p v)).
  { intros f Hin Hnote. apply in_map_iff in Hin as (f0 & <- & Hin).
    rewrite Forall_forall in Hall. destruct (Hall f0 Hin) as [Ho|Hc].
    - destruct Ho as (_ & Ho & _). exfalso. apply Hnote. exact Ho.
    - destruct Hc as (u & ext & p & v & Hne & ->). eauto 8. }
  repeat split.
  - rewrite map_map. rewrite (map_ext _ f_url) by (intros; reflexivity).
    now rewrite Hmap.
  - intros f Hin Hnote.
    destruct (Hcollected f Hin Hnote) as (u & ext & p & v & Hne & ->).
    rewrite set_vcodec_none_url, add_format_url. exact Hne.
  - intros f Hin Hnote.
    destruct (extract_info_dict_from _ _ _ _ Hrun Hfs)
      as (fields & acc & -> & Hacc & Hfrom).
    rewrite Hacc in Hin. apply in_map_iff in Hin as (f0 & <- & Hin).
    rewrite Forall_forall in Hfrom. destruct (Hfrom f0 Hin) as [Ho|Hc].
    { destruct Ho as (_ & Ho & _). exfalso. apply Hnote. exact Ho. }
    destruct Hc as (t & u & Ht & Hreq & Hstream & ->).
    exists fields, t, u.
    split; [reflexivity|]. split; [exact Ht|]. split; [exact Hreq|].
    split; [exact Hstream|]. split; [reflexivity|].
    split; [|split].
    + apply (add_format_id u (new_format u (derive_ext t))
               (derive_protocol t) (snippet t)).
    + change (f_ext (set_vcodec_none ?x)) with (f_ext x).
      rewrite add_format_ext. unfold merge_url_tag.
      destruct (Search.abr_ext u) as [[a e]|]; cbn [f_ext new_format].
      * destruct (Py.truthy_str (derive_ext t)); reflexivity.
      * destruct (Py.truthy_str (derive_ext t)); reflexivity.
    + apply (add_format_preview u (derive_ext t) (derive_protocol t)
               (snippet t)).
  - exact Honce.
Qed.

(** a run for [resolved_urls_are_described_once]: the first and the
    third transcoding of the fixture resolve to one URL *)
Lemma resolved_urls_are_described_once_witness :
  exists d s' fs,
    @_extract_info_dict Fixture.track_env Fixture.track None false
       Fixture.start = (inr d, s')
    /\ formats d = Some fs
    /\ NoDup (map f_url fs)
    /\ count_occ string_dec (map f_url fs) Fixture.aaa_stream = 1%nat.
Proof.
  pose (run := @_extract_info_dict Fixture.track_env Fixture.track None
                 false Fixture.start).
  assert (Heq : exists d fs,
            run = (inr d, snd run) /\ formats d = Some fs
            /\ count_occ string_dec (map f_url fs) Fixture.aaa_stream = 1%nat).
  { do 2 eexists. split; [vm_compute; reflexivity|].
    split; [reflexivity|]. vm_compute. reflexivity. }
  destruct Heq as (d & fs & Hr & Hfs & Hcount).
  exists d, (snd run), fs.
  split; [exact Hr|]. split; [exact Hfs|]. split; [|exact Hcount].
  apply (@resolved_urls_are_described_once Fixture.track_env Fixture.track
           None false Fixture.start (snd run) d fs Hr Hfs).
Defined.

(** C4 as stated fails: two renditions of one track that differ only
    in their URL carry the same [format_id]. *)
Lemma format_id_is_shared :
  (exists d s' fs,
      @_extract_info_dict Fixture.track_env Fixture.track None false
         Fixture.start = (inr d, s')
      /\ formats d = Some fs
      /\ map f_format_id fs
         = [Some "download"; Some "hls_mp3_128"; Some "hls_mp3_128";
            Some "hls_aac_256"])
  /\ ~ (forall (E : Env) info token flat s s' d fs,
          _extract_info_dict info token flat s = (inr d, s') ->
          formats d = Some fs ->
          NoDup (map f_format_id fs)).
Proof.
  split.
  - eexists; eexists; eexists.
    split; [vm_compute; reflexivity|]. split; reflexivity.
  - intros H.
    pose (run := @_extract_info_dict Fixture.track_env Fixture.track None
                   false Fixture.start).
    specialize (H Fixture.track_env Fixture.track None false Fixture.start
                  (snd run)).
    assert (Hrun : exists d fs, run = (inr d, snd run) /\ formats d = Some fs
              /\ map f_format_id fs
                 = [Some "download"; Some "hls_mp3_128"; Some "hls_mp3_128";
                    Some "hls_aac_256"]).
    { eexists; eexists. split; [vm_compute; reflexivity|]. split; reflexivity. }
    destruct Hrun as (d & fs & Hrun & Hfs & Hids).
    specialize (H d fs Hrun Hfs). rewrite Hids in H.
    inversion H as [|? ? _ H1]; subst.
    inversion H1 as [|? ? Hin _]; subst.
    apply Hin. left. reflexivity.
Qed.

(** C10.  A descriptor with the extension [aac] leaves [add_format]
    with the bitrate 256, the quality 5 and the note [Premium],
    whatever bitrate the dictionary or the tag in the stream URL gave
    before; so does every descriptor with that extension that an
    extraction collects from a transcoding. *)
Theorem aac_descriptors_are_premium `{E : Env} :
  (forall stream_url f protocol is_preview,
      f_ext (add_format stream_url f protocol is_preview) = Some "aac" ->
      f_abr (add_format stream_url f protocol is_preview) = Some (AbrInt 256)
      /\ f_quality (add_format stream_url f protocol is_preview) = Some 5%Z
      /\ f_format_note (add_format stream_url f protocol is_preview)
         = Some "Premium")
  /\ (forall info token flat s s' d fs f,
        _extract_info_dict info token flat s = (inr d, s') ->
        formats d = Some fs ->
        In f fs ->
        f_format_note f <> Some "Original" ->
        f_ext f = Some "aac" ->
        f_abr f = Some (AbrInt 256) /\ f_quality f = Some 5%Z
        /\ f_format_note f = Some "Premium").
Proof.
  split.
  - intros u f p v. apply add_format_aac.
  - intros info token flat s s' d fs f Hrun Hfs Hin Hnote Hext.
    destruct (extract_info_dict_formats _ _ _ _ Hrun Hfs)
      as ([urls fs0] & (_ & _ & Hall) & ->).
    cbn [snd] in *. apply in_map_iff in Hin as (f0 & <- & Hin).
    rewrite Forall_forall in Hall. destruct (Hall f0 Hin) as [Ho|Hc].
    + destruct Ho as (_ & Ho & _). exfalso. apply Hnote. exact Ho.
    + destruct Hc as (u & ext & p & v & _ & ->).
      apply (add_format_aac u (new_format u ext) p v). exact Hext.
Qed.

(** [aac_descriptors_are_premium] on a stream whose URL carries the tag
    96 and whose dictionary already has a bitrate, and on the premium
    rendition of the fixture *)
Lemma aac_descriptors_are_premium_witness :
  f_abr (add_format Fixture.ccc_stream
           (mkFormat Fixture.ccc_stream (Some "aac") (Some (AbrInt 64)) None
              None None None None None None)
           (Some "hls") false) = Some (AbrInt 256)
  /\ exists d s' fs f,
       @_extract_info_dict Fixture.track_env Fixture.track None false
          Fixture.start = (inr d, s')
       /\ formats d = Some fs /\ In f fs
       /\ f_url f = Fixture.ccc_stream
       /\ f_abr f = Some (AbrInt 256) /\ f_quality f = Some 5%Z
       /\ f_format_note f = Some "Premium".
Proof.
  destruct (@aac_descriptors_are_premium Fixture.track_env) as [Hadd Hrun].
  split.
  - apply Hadd. reflexivity.
  - pose (run := @_extract_info_dict Fixture.track_env Fixture.track None
                   false Fixture.start).
    assert (Heq : exists d fs f0 f1 f2 f3,
              run = (inr d, snd run) /\ formats d = Some fs
              /\ fs = [f0; f1; f2; f3] /\ f_url f3 = Fixture.ccc_stream
              /\ f_format_note f3 = Some "Premium"
              /\ f_ext f3 = Some "aac").
    { do 6 eexists. split; [vm_compute; reflexivity|].
      split; [reflexivity|]. split; [reflexivity|].
      split; [reflexivity|]. split; reflexivity. }
    destruct Heq as (d & fs & f0 & f1 & f2 & f3 & Hr & Hfs & -> & Hu & Hn & He).
    exists d, (snd run), [f0; f1; f2; f3], f3.
    split; [exact Hr|]. split; [exact Hfs|].
    split; [simpl; auto|]. split; [exact Hu|].
    apply (Hrun Fixture.track None false Fixture.start (snd run) d
             [f0; f1; f2; f3] f3 Hr Hfs).
    + simpl; auto.
    + rewrite Hn. discriminate.
    + exact He.
Defined.

(** ** The client id *)

Module SearchFacts.

Import Str Search.

Lemma take_length (n : nat) (s a b : string) :
  take n s = Some (a, b) -> String.length a = n.
Proof.
  revert s a b; induction n as [|n IH]; intros s a b; simpl.
  - intros [= <- _]. reflexivity.
  - destruct s as [|c s]; [discriminate|].
    destruct (take n s) as [[a' b']|] eqn:Ht; [|discriminate].
    intros [= <- _]. simpl. f_equal. eapply IH; eauto.
Qed.

Lemma client_id_here_shape (s c : string) :
  client_id_here s = Some c ->
  String.length c = 32 /\ all_chars is_alnum c = true.
Proof.
  unfold client_id_here.
  destruct (strip_prefix "client_id" s) as [r1|]; [|discriminate].
  destruct (snd (span is_space r1)) as [|colon r2]; [discriminate|].
  destruct (Ascii.eqb colon ":"); [|discriminate].
  destruct (snd (span is_space r2)) as [|q r3]; [discriminate|].
  destruct (Ascii.eqb q dquote); [|discriminate].
  destruct (take 32 r3) as [[cid [|q' rest]]|] eqn:Ht; try discriminate.
  destruct (Ascii.eqb q' dquote && all_chars is_alnum cid) eqn:Hc;
    [|discriminate].
  intros [= <-]. apply andb_true_iff in Hc as [_ Hc].
  split; [eapply take_length; eauto|exact Hc].
Qed.

(** what the search for a client id finds is 32 letters and digits *)
Lemma client_id_shape (s c : string) :
  client_id s = Some c ->
  String.length c = 32 /\ all_chars is_alnum c = true.
Proof.
  induction s as [|a s IH]; cbn [client_id].
  - destruct (client_id_here EmptyString) eqn:H; [|discriminate].
    intros [= <-]. eapply client_id_here_shape; eauto.
  - destruct (client_id_here (String a s)) eqn:H.
    + intros [= <-]. eapply client_id_here_shape; eauto.
    + exact IH.
Qed.

End SearchFacts.

Section ClientId.

Context {E : Env}.

Lemma json_requests_app (l1 l2 : list request) :
  json_requests (l1 ++ l2) = (json_requests l1 ++ json_requests l2)%list.
Proof. apply filter_app. Qed.

Lemma setitem_setitem (k v1 v2 : string) (d : dict) :
  Py.setitem k v2 (Py.setitem k v1 d) = Py.setitem k v2 d.
Proof.
  induction d as [|[k' v'] d IH]; simpl.
  - now rewrite String.eqb_refl.
  - destruct (String.eqb k k') eqn:Hk; simpl.
    + now rewrite String.eqb_refl.
    + now rewrite Hk, IH.
Qed.

Lemma download_webpage_requests (url : string) (s : state) :
  json_requests (sent (snd (_download_webpage url s))) = json_requests (sent s).
Proof.
  unfold _download_webpage.
  destruct (fetch_webpage (sent s) (mkRequest GetWebpage url [])); cbn;
    rewrite json_requests_app; cbn; apply app_nil_r.
Qed.

Lemma download_webpage_nonfatal_requests (url : string) (s : state) :
  json_requests (sent (snd (_download_webpage_nonfatal url s)))
  = json_requests (sent s).
Proof.
  unfold _download_webpage_nonfatal.
  pose proof (download_webpage_requests url s) as H.
  destruct (_download_webpage url s) as [[[e| | | |]|body] s1]; cbn in *;
    exact H.
Qed.

Lemma scan_scripts_requests (srcs : list string) (s : state) :
  json_requests (sent (snd (scan_scripts srcs s))) = json_requests (sent s).
Proof.
  revert s; induction srcs as [|src rest IH]; intros s; [reflexivity|].
  cbn [scan_scripts]. unfold bind at 1.
  pose proof (download_webpage_nonfatal_requests src s) as H.
  destruct (_download_webpage_nonfatal src s) as [[e|script] s1]; cbn in H |- *;
    [exact H|].
  destruct script as [body|]; [|now rewrite IH].
  destruct (Str.nonempty body); [|now rewrite IH].
  destruct (Search.client_id body); [exact H|now rewrite IH].
Qed.

(** a refresh sends no request for JSON *)
Lemma update_client_id_requests (s : state) :
  json_requests (sent (snd (_update_client_id s))) = json_requests (sent s).
Proof.
  unfold _update_client_id, bind.
  pose proof (download_webpage_requests "https://soundcloud.com/" s) as H.
  destruct (_download_webpage "https://soundcloud.com/" s) as [[e|page] s1];
    cbn in H |- *; [exact H|].
  now rewrite scan_scripts_requests.
Qed.

Lemma scan_scripts_found (srcs : list string) (s s' : state) :
  scan_scripts srcs s = (inr tt, s') ->
  cache s' = Some (CLIENT_ID s')
  /\ exists src hist body,
       In src srcs
       /\ fetch_webpage hist (mkRequest GetWebpage src []) = inr body
       /\ Search.client_id body = Some (CLIENT_ID s').
Proof.
  revert s; induction srcs as [|src rest IH]; intros s; [discriminate|].
  cbn [scan_scripts]. unfold bind at 1.
  assert (Hrest : forall s1, scan_scripts rest s1 = (inr tt, s') ->
            cache s' = Some (CLIENT_ID s')
            /\ exists src0 hist body,
                 In src0 (src :: rest)
                 /\ fetch_webpage hist (mkRequest GetWebpage src0 []) = inr body
                 /\ Search.client_id body = Some (CLIENT_ID s')).
  { intros s1 H. destruct (IH _ H) as (Hc & src0 & hist & body & Hin & Hf & Hs).
    split; [exact Hc|]. exists src0, hist, body. split; [now right|auto]. }
  unfold _download_webpage_nonfatal, _download_webpage.
  destruct (fetch_webpage (sent s) (mkRequest GetWebpage src [])) as [e|body]
    eqn:Hfetch; cbn.
  - apply Hrest.
  - destruct (Str.nonempty body); [|apply Hrest].
    destruct (Search.client_id body) as [cid|] eqn:Hcid; [|apply Hrest].
    cbn. intros [= <-]. cbn. split; [reflexivity|].
    exists src, (sent s), body. split; [now left|auto].
Qed.

Lemma scan_scripts_none (srcs : list string) (s : state) :
  (forall hist src body,
      In src srcs ->
      fetch_webpage hist (mkRequest GetWebpage src []) = inr body ->
      Search.client_id body = None) ->
  exists s', scan_scripts srcs s = (inl no_client_id, s')
             /\ cache s' = cache s /\ CLIENT_ID s' = CLIENT_ID s.
Proof.
  revert s; induction srcs as [|src rest IH]; intros s Hnone.
  - exists s. auto.
  - assert (Hrest : forall hist src0 body,
              In src0 rest ->
              fetch_webpage hist (mkRequest GetWebpage src0 []) = inr body ->
              Search.client_id body = None).
    { intros hist src0 body Hin. apply Hnone. now right. }
    cbn [scan_scripts]. unfold bind at 1.
    unfold _download_webpage_nonfatal, _download_webpage.
    destruct (fetch_webpage (sent s) (mkRequest GetWebpage src [])) as [e|body]
      eqn:Hfetch; cbn.
    + edestruct IH as (s' & H & Hc & Hi); [exact Hrest|].
      exists s'. split; [exact H|]. cbn in Hc, Hi. auto.
    + rewrite (Hnone _ src body (or_introl eq_refl) Hfetch).
      edestruct IH as (s' & H & Hc & Hi); [exact Hrest|].
      exists s'. split; [destruct (Str.nonempty body); exact H|].
      cbn in Hc, Hi. auto.
Qed.

Lemma scan_scripts_failed (srcs : list string) (s s' : state) (err : exn) :
  scan_scripts srcs s = (inl err, s') -> cache s' = cache s.
Proof.
  revert s; induction srcs as [|src rest IH]; intros s.
  - intros [= _ <-]. reflexivity.
  - cbn [scan_scripts]. unfold bind at 1.
    unfold _download_webpage_nonfatal, _download_webpage.
    destruct (fetch_webpage (sent s) (mkRequest GetWebpage src [])) as [e|body];
      cbn.
    + intros H. now rewrite (IH _ H).
    + destruct (Str.nonempty body); [|intros H; now rewrite (IH _ H)].
      destruct (Search.client_id body);
        [discriminate|intros H; now rewrite (IH _ H)].
Qed.

(** a refresh that fails leaves the cache as it was *)
Lemma update_client_id_failed (s s' : state) (err : exn) :
  _update_client_id s = (inl err, s') -> cache s' = cache s.
Proof.
  unfold _update_client_id, bind, _download_webpage.
  destruct (fetch_webpage (sent s) (mkRequest GetWebpage "https://soundcloud.com/" []))
    as [e|webpage].
  - intros [= _ <-]. reflexivity.
  - intros H. now rewrite (scan_scripts_failed _ _ H).
Qed.

(** a refresh that succeeds has found 32 letters and digits in a script
    of the bootstrap page, made them the client id and cached them *)
Lemma update_client_id_found (s s' : state) :
  _update_client_id s = (inr tt, s') ->
  cache s' = Some (CLIENT_ID s')
  /\ String.length (CLIENT_ID s') = 32
  /\ Str.all_chars Str.is_alnum (CLIENT_ID s') = true
  /\ exists webpage src hist body,
       fetch_webpage (sent s) homepage_request = inr webpage
       /\ In src (Search.script_srcs webpage)
       /\ fetch_webpage hist (mkRequest GetWebpage src []) = inr body
       /\ Search.client_id body = Some (CLIENT_ID s').
Proof.
  unfold _update_client_id, bind, _download_webpage. fold homepage_request.
  destruct (fetch_webpage (sent s) homepage_request) as [e|webpage] eqn:Hp;
    [discriminate|].
  intros H. apply scan_scripts_found in H
    as (Hc & src & hist & body & Hin & Hf & Hs).
  split; [exact Hc|].
  destruct (SearchFacts.client_id_shape _ Hs) as [Hlen Hal].
  split; [exact Hlen|]. split; [exact Hal|].
  exists webpage, src, hist, body. rewrite <- in_rev in Hin. auto.
Qed.

End ClientId.

Section DownloadJson.

Context {E : Env}.

(** what a rejected first attempt leaves to do *)
Lemma download_json_rejected (url : string) (query : dict) (non_fatal : bool)
    (s : state) (e : ExtractorError) :
  fetch_json (sent s) (json_request url query (CLIENT_ID s)) = inl e ->
  http_status_in [401; 403]%Z e = true ->
  _download_json url query non_fatal s
  = bind _update_client_id
      (fun _ => download_json_loop 1 url
                  (Py.setitem "client_id" (CLIENT_ID s) query) non_fatal)
      (invalidated (after_request s (json_request url query (CLIENT_ID s)))).
Proof.
  intros Hfetch Hstatus.
  unfold _download_json. cbn [download_json_loop].
  unfold super_download_json. unfold json_request in Hfetch.
  rewrite Hfetch, Hstatus. reflexivity.
Qed.

(** the last round sends one request for JSON, whatever comes of it *)
Lemma last_round_requests (url : string) (query : dict) (non_fatal : bool)
    (s : state) :
  json_requests (sent (snd (download_json_loop 1 url query non_fatal s)))
  = (json_requests (sent s) ++ [json_request url query (CLIENT_ID s)])%list.
Proof.
  cbn [download_json_loop]. unfold super_download_json. fold (json_request url query (CLIENT_ID s)).
  destruct (fetch_json (sent s) (json_request url query (CLIENT_ID s)))
    as [e|j]; cbn.
  - destruct (http_status_in [401; 403]%Z e).
    + unfold bind. cbn.
      match goal with |- context [_update_client_id ?s1] =>
        pose proof (update_client_id_requests s1) as H;
        destruct (_update_client_id s1) as [[err|[]] s2] end;
        cbn in H |- *; rewrite H, json_requests_app; reflexivity.
    + destruct non_fatal; cbn; rewrite json_requests_app; reflexivity.
  - rewrite json_requests_app. reflexivity.
Qed.

Lemma last_round_success (url : string) (query : dict) (non_fatal : bool)
    (s : state) (j : json) :
  fetch_json (sent s) (json_request url query (CLIENT_ID s)) = inr j ->
  download_json_loop 1 url query non_fatal s
  = (inr j, after_request s (json_request url query (CLIENT_ID s))).
Proof.
  intros H. cbn [download_json_loop]. unfold super_download_json.
  unfold json_request in H. rewrite H. reflexivity.
Qed.

Lemma last_round_rejected (url : string) (query : dict) (non_fatal : bool)
    (s s' : state) (e : ExtractorError) :
  fetch_json (sent s) (json_request url query (CLIENT_ID s)) = inl e ->
  http_status_in [401; 403]%Z e = true ->
  _update_client_id
    (invalidated (after_request s (json_request url query (CLIENT_ID s))))
  = (inr tt, s') ->
  download_json_loop 1 url query non_fatal s = (inr JNull, s').
Proof.
  intros Hfetch Hstatus Hupdate. cbn [download_json_loop].
  unfold super_download_json. unfold json_request in Hfetch.
  rewrite Hfetch, Hstatus. unfold bind at 1. cbn.
  unfold bind at 1.
  unfold invalidated, after_request, json_request in Hupdate. cbn in Hupdate.
  rewrite Hupdate. reflexivity.
Qed.

End DownloadJson.

(** C1.  When the first attempt of a JSON request is rejected with 401
    or 403, the cached client id is dropped and a refresh is run.  If
    the refresh fails, its error is the outcome of the call, also for a
    call made with [fatal=False], the cache stays empty and nothing is
    sent again; and when the bootstrap page is served but no script it
    names embeds an id, that error is [Unable to extract client id].  If the
    refresh succeeds, it has found 32 letters and digits in a script
    the bootstrap page names, made them the client id and written them
    to the cache; the same request, now with that id, is sent once
    more and never again, and an answer to it is the outcome of the
    call. *)
Theorem rejected_request_is_retried_once_with_fresh_id `{E : Env}
    (url : string) (query : dict) (non_fatal : bool) (s : state)
    (e : ExtractorError) :
  fetch_json (sent s) (json_request url query (CLIENT_ID s)) = inl e ->
  http_status_in [401; 403]%Z e = true ->
  let s1 :=
    invalidated (after_request s (json_request url query (CLIENT_ID s))) in
  (forall err s2,
      _update_client_id s1 = (inl err, s2) ->
      _download_json url query non_fatal s = (inl err, s2)
      /\ cache s2 = None
      /\ json_requests (sent s2)
         = (json_requests (sent s)
            ++ [json_request url query (CLIENT_ID s)])%list)
  /\ (forall webpage,
        fetch_webpage (sent s1) homepage_request = inr webpage ->
        (forall hist src body,
            In src (Search.script_srcs webpage) ->
            fetch_webpage hist (mkRequest GetWebpage src []) = inr body ->
            Search.client_id body = None) ->
        exists s2,
          _download_json url query non_fatal s = (inl no_client_id, s2)
          /\ cache s2 = None)
  /\ (forall s2,
        _update_client_id s1 = (inr tt, s2) ->
        cache s2 = Some (CLIENT_ID s2)
        /\ String.length (CLIENT_ID s2) = 32
        /\ Str.all_chars Str.is_alnum (CLIENT_ID s2) = true
        /\ (exists webpage src hist body,
              fetch_webpage (sent s1) homepage_request = inr webpage
              /\ In src (Search.script_srcs webpage)
              /\ fetch_webpage hist (mkRequest GetWebpage src []) = inr body
              /\ Search.client_id body = Some (CLIENT_ID s2))
        /\ json_requests (sent (snd (_download_json url query non_fatal s)))
           = (json_requests (sent s)
              ++ [json_request url query (CLIENT_ID s);
                  json_request url query (CLIENT_ID s2)])%list
        /\ (forall j,
              fetch_json (sent s2) (json_request url query (CLIENT_ID s2))
                = inr j ->
              _download_json url query non_fatal s
              = (inr j,
                 after_request s2 (json_request url query (CLIENT_ID s2))))).
Proof.
  intros Hfetch Hstatus s1.
  pose proof (download_json_rejected url query non_fatal s Hfetch Hstatus)
    as Hrun. fold s1 in Hrun.
  assert (Hsent1 : json_requests (sent s1)
            = (json_requests (sent s)
               ++ [json_request url query (CLIENT_ID s)])%list).
  { unfold s1. cbn. now rewrite json_requests_app. }
  split; [|split].
  - intros err s2 Hupdate. rewrite Hrun. unfold bind. rewrite Hupdate.
    split; [reflexivity|].
    split; [now rewrite (update_client_id_failed _ Hupdate)|].
    pose proof (update_client_id_requests s1) as H. rewrite Hupdate in H.
    cbn [snd] in H. now rewrite H.
  - intros webpage Hpage Hnone. rewrite Hrun. unfold bind.
    unfold _update_client_id, bind, _download_webpage.
    fold homepage_request. rewrite Hpage.
    assert (Hrev : forall hist src body,
              In src (rev (Search.script_srcs webpage)) ->
              fetch_webpage hist (mkRequest GetWebpage src []) = inr body ->
              Search.client_id body = None).
    { intros hist src body Hin. apply Hnone. now apply in_rev. }
    destruct (scan_scripts_none (rev (Search.script_srcs webpage))
                (after_request s1 homepage_request) Hrev)
      as (s2 & Hscan & Hcache & _).
    unfold after_request in Hscan. rewrite Hscan.
    exists s2. split; [reflexivity|]. rewrite Hcache. reflexivity.
  - intros s2 Hupdate.
    destruct (update_client_id_found _ Hupdate) as (Hc & Hlen & Hal & Hsrc).
    split; [exact Hc|]. split; [exact Hlen|]. split; [exact Hal|].
    split; [exact Hsrc|].
    assert (Hq : forall c, json_request url
                   (Py.setitem "client_id" (CLIENT_ID s) query) c
                 = json_request url query c).
    { intros c. unfold json_request. now rewrite setitem_setitem. }
    split.
    + rewrite Hrun. unfold bind. rewrite Hupdate.
      rewrite last_round_requests, Hq.
      pose proof (update_client_id_requests s1) as H. rewrite Hupdate in H.
      cbn [snd] in H. rewrite H, Hsent1, <- app_assoc. reflexivity.
    + intros j Hj. rewrite Hrun. unfold bind. rewrite Hupdate.
      rewrite <- Hq in Hj. rewrite (last_round_success _ _ _ _ Hj).
      now rewrite Hq.
Qed.

(** C9.  When the first attempt and the one retry are both rejected
    with 401 or 403 and both refreshes find an id, the call returns
    [None]: nothing is raised, nothing is sent a third time, and the
    session is left as the second refresh left it. *)
Theorem twice_rejected_request_returns_none `{E : Env}
    (url : string) (query : dict) (non_fatal : bool) (s s2 s4 : state)
    (e1 e2 : ExtractorError) :
  fetch_json (sent s) (json_request url query (CLIENT_ID s)) = inl e1 ->
  http_status_in [401; 403]%Z e1 = true ->
  _update_client_id
    (invalidated (after_request s (json_request url query (CLIENT_ID s))))
  = (inr tt, s2) ->
  fetch_json (sent s2) (json_request url query (CLIENT_ID s2)) = inl e2 ->
  http_status_in [401; 403]%Z e2 = true ->
  _update_client_id
    (invalidated (after_request s2 (json_request url query (CLIENT_ID s2))))
  = (inr tt, s4) ->
  _download_json url query non_fatal s = (inr JNull, s4)
  /\ json_requests (sent s4)
     = (json_requests (sent s)
        ++ [json_request url query (CLIENT_ID s);
            json_request url query (CLIENT_ID s2)])%list.
Proof.
  intros Hf1 Hs1 Hu1 Hf2 Hs2 Hu2.
  pose proof (download_json_rejected url query non_fatal s Hf1 Hs1) as Hrun.
  assert (Hq : forall c, json_request url
                 (Py.setitem "client_id" (CLIENT_ID s) query) c
               = json_request url query c).
  { intros c. unfold json_request. now rewrite setitem_setitem. }
  assert (Hlast : download_json_loop 1 url
                    (Py.setitem "client_id" (CLIENT_ID s) query) non_fatal s2
                  = (inr JNull, s4)).
  { apply last_round_rejected with (e := e2); rewrite ?Hq; assumption. }
  split.
  - rewrite Hrun. unfold bind. rewrite Hu1. exact Hlast.
  - pose proof (update_client_id_requests
                  (invalidated (after_request s2
                     (json_request url query (CLIENT_ID s2))))) as H4.
    rewrite Hu2 in H4. cbn [snd] in H4.
    pose proof (update_client_id_requests
                  (invalidated (after_request s
                     (json_request url query (CLIENT_ID s))))) as H2.
    rewrite Hu1 in H2. cbn [snd] in H2.
    rewrite H4. cbn [invalidated after_request sent].
    rewrite json_requests_app, H2. cbn [invalidated after_request sent].
    rewrite json_requests_app, <- app_assoc. reflexivity.
Qed.

(** [rejected_request_is_retried_once_with_fresh_id] in a session whose
    stale id is refused: once with a bootstrap script that embeds a
    fresh id, once with scripts that embed none *)
Lemma rejected_request_is_retried_once_with_fresh_id_witness :
  (exists s2,
      CLIENT_ID s2 = Fixture.fresh_id
      /\ cache s2 = Some Fixture.fresh_id
      /\ @_download_json Fixture.refresh_env Fixture.track_url [] false
           Fixture.start
         = (inr Fixture.track_payload,
            after_request s2
              (json_request Fixture.track_url [] Fixture.fresh_id)))
  /\ (exists s2,
        @_download_json Fixture.refresh_without_id_env Fixture.track_url []
          true Fixture.start = (inl no_client_id, s2)
        /\ cache s2 = None).
Proof.
  split.
  - pose (s1 := invalidated
                  (after_request Fixture.start
                     (json_request Fixture.track_url []
                        (CLIENT_ID Fixture.start)))).
    pose (s2 := snd (@_update_client_id Fixture.refresh_env s1)).
    assert (Hupdate : @_update_client_id Fixture.refresh_env s1 = (inr tt, s2))
      by (vm_compute; reflexivity).
    destruct (@rejected_request_is_retried_once_with_fresh_id
                Fixture.refresh_env Fixture.track_url [] false Fixture.start
                (Fixture.http_error 401) eq_refl eq_refl)
      as (_ & _ & Hfound).
    destruct (Hfound s2 Hupdate) as (Hcache & _ & _ & _ & _ & Hanswer).
    exists s2. split; [reflexivity|]. split; [exact Hcache|].
    apply (Hanswer Fixture.track_payload). reflexivity.
  - destruct (@rejected_request_is_retried_once_with_fresh_id
                Fixture.refresh_without_id_env Fixture.track_url [] true
                Fixture.start (Fixture.http_error 401) eq_refl eq_refl)
      as (_ & Hnone & _).
    apply (Hnone Fixture.homepage); [reflexivity|].
    intros hist src body _.
    change (fetch_webpage hist (mkRequest GetWebpage src []))
      with (Fixture.bootstrap_without_id hist (mkRequest GetWebpage src [])).
    unfold Fixture.bootstrap_without_id. cbn [rq_url].
    destruct (String.eqb src "https://soundcloud.com/");
      intros Hbody; injection Hbody as Hbody; subst body; vm_compute;
      reflexivity.
Defined.

(** [twice_rejected_request_returns_none] in a session whose every id
    is refused while the bootstrap scripts keep embedding ids *)
Lemma twice_rejected_request_returns_none_witness :
  exists s4,
    @_download_json Fixture.refused_env Fixture.track_url [] false
      Fixture.start = (inr JNull, s4)
    /\ CLIENT_ID s4 = Fixture.second_id
    /\ json_requests (sent s4)
       = [json_request Fixture.track_url [] (CLIENT_ID Fixture.start);
          json_request Fixture.track_url [] Fixture.fresh_id].
Proof.
  pose (s1 := invalidated
                (after_request Fixture.start
                   (json_request Fixture.track_url []
                      (CLIENT_ID Fixture.start)))).
  pose (s2 := snd (@_update_client_id Fixture.refused_env s1)).
  pose (s3 := invalidated
                (after_request s2
                   (json_request Fixture.track_url [] (CLIENT_ID s2)))).
  pose (s4 := snd (@_update_client_id Fixture.refused_env s3)).
  assert (H2 : @_update_client_id Fixture.refused_env s1 = (inr tt, s2))
    by (vm_compute; reflexivity).
  assert (H4 : @_update_client_id Fixture.refused_env s3 = (inr tt, s4))
    by (vm_compute; reflexivity).
  destruct (@twice_rejected_request_returns_none Fixture.refused_env
              Fixture.track_url [] false Fixture.start s2 s4
              (Fixture.http_error 403) (Fixture.http_error 403)
              eq_refl eq_refl H2 eq_refl eq_refl H4) as [Hrun Hsent].
  exists s4. split; [exact Hrun|]. split; [reflexivity|exact Hsent].
Defined.

(** ** Which requests are sent *)

Section Requests.

Context {E : Env}.

Lemma extends_refl (Q : request -> Prop) (s : state) : extends Q s s.
Proof. exists []. split; [now rewrite app_nil_r|constructor]. Qed.

Lemma extends_same_sent (Q : request -> Prop) (s s' : state) :
  sent s' = sent s -> extends Q s s'.
Proof. intros H. exists []. split; [now rewrite app_nil_r|constructor]. Qed.

Lemma extends_trans (Q : request -> Prop) (s1 s2 s3 : state) :
  extends Q s1 s2 -> extends Q s2 s3 -> extends Q s1 s3.
Proof.
  intros (n1 & H1 & F1) (n2 & H2 & F2). exists (n1 ++ n2)%list. split.
  - now rewrite H2, H1, app_assoc.
  - apply Forall_app. auto.
Qed.

Lemma extends_weaken (Q Q' : request -> Prop) (s s' : state) :
  (forall r, Q r -> Q' r) -> extends Q s s' -> extends Q' s s'.
Proof.
  intros HQ (n & H & F). exists n. split; [exact H|].
  eapply Forall_impl; eauto.
Qed.

Lemma extends_one (Q : request -> Prop) (s s' : state) (r : request) :
  sent s' = (sent s ++ [r])%list -> Q r -> extends Q s s'.
Proof. intros H HQ. exists [r]. split; [exact H|repeat constructor; exact HQ]. Qed.

Lemma sends_weaken {A : Type} (Q Q' : request -> Prop) (m : M A) :
  (forall r, Q r -> Q' r) -> sends Q m -> sends Q' m.
Proof. intros HQ Hm s. eapply extends_weaken; eauto. Qed.

Lemma sends_ret {A : Type} (Q : request -> Prop) (a : A) : sends Q (ret a).
Proof. intros s. apply extends_refl. Qed.

Lemma sends_raise {A : Type} (Q : request -> Prop) (e : exn) :
  sends Q (@raise A e).
Proof. intros s. apply extends_refl. Qed.

Lemma sends_bind {A B : Type} (Q : request -> Prop) (m : M A) (k : A -> M B) :
  sends Q m -> (forall a, sends Q (k a)) -> sends Q (bind m k).
Proof.
  intros Hm Hk s. unfold bind. specialize (Hm s).
  destruct (m s) as [[e|a] s1]; cbn [snd] in *; [exact Hm|].
  eapply extends_trans; [exact Hm|apply Hk].
Qed.

Lemma sends_report_warning (Q : request -> Prop) (w : string) :
  sends Q (report_warning w).
Proof. intros s. now apply extends_same_sent. Qed.

Lemma sends_report_warning_once (Q : request -> Prop) (w : string) :
  sends Q (report_warning_once w).
Proof.
  intros s. unfold report_warning_once.
  destruct (Str.mem w (warnings s)); now apply extends_same_sent.
Qed.

Lemma sends_store_client_id (Q : request -> Prop) (c : option string) :
  sends Q (_store_client_id c).
Proof. intros s. now apply extends_same_sent. Qed.

Lemma sends_set_client_id (Q : request -> Prop) (c : string) :
  sends Q (set_client_id c).
Proof. intros s. now apply extends_same_sent. Qed.

Lemma sends_get_client_id (Q : request -> Prop) : sends Q get_client_id.
Proof. intros s. apply extends_refl. Qed.

Lemma sends_of_option {A : Type} (Q : request -> Prop) (e : exn)
    (o : option A) : sends Q (of_option e o).
Proof. destruct o; [apply sends_ret|apply sends_raise]. Qed.

Lemma sends_getitem (Q : request -> Prop) (k : string) (j : json) :
  sends Q (getitem k j).
Proof.
  destruct j; cbn [getitem]; try apply sends_raise. apply sends_of_option.
Qed.

Lemma sends_as_dict (Q : request -> Prop) (j : json) : sends Q (as_dict j).
Proof. destruct j; cbn [as_dict]; try apply sends_raise. apply sends_ret. Qed.

Lemma sends_download_webpage (url : string) :
  sends is_webpage (_download_webpage url).
Proof.
  intros s. unfold _download_webpage.
  destruct (fetch_webpage (sent s) (mkRequest GetWebpage url []));
    (eapply extends_one; [reflexivity|reflexivity]).
Qed.

Lemma sends_download_webpage_nonfatal (url : string) :
  sends is_webpage (_download_webpage_nonfatal url).
Proof.
  intros s. unfold _download_webpage_nonfatal.
  pose proof (sends_download_webpage url s) as H.
  destruct (_download_webpage url s) as [[[e| | | |]|body] s1];
    cbn [snd] in *; exact H.
Qed.

Lemma sends_scan_scripts (srcs : list string) :
  sends is_webpage (scan_scripts srcs).
Proof.
  induction srcs as [|src rest IH]; cbn [scan_scripts].
  - apply sends_raise.
  - apply sends_bind; [apply sends_download_webpage_nonfatal|].
    intros [body|]; [|exact IH].
    destruct (Str.nonempty body); [|exact IH].
    destruct (Search.client_id body); [|exact IH].
    apply sends_bind; [apply sends_set_client_id|].
    intros _. apply sends_store_client_id.
Qed.

Lemma sends_update_client_id : sends is_webpage _update_client_id.
Proof.
  apply sends_bind; [apply sends_download_webpage|].
  intros webpage. apply sends_scan_scripts.
Qed.

Lemma json_or_refresh_setitem (url : string) (query : dict) (c0 : string)
    (r : request) :
  json_or_refresh url (Py.setitem "client_id" c0 query) r ->
  json_or_refresh url query r.
Proof.
  intros [H|[c ->]]; [now left|right]. exists c.
  unfold json_request. now rewrite setitem_setitem.
Qed.

Lemma sends_download_json_loop (n : nat) (url : string) (non_fatal : bool)
    (query : dict) :
  sends (json_or_refresh url query)
    (download_json_loop n url query non_fatal).
Proof.
  revert query; induction n as [|n IH]; intros query; cbn [download_json_loop].
  - apply sends_ret.
  - intros s. unfold super_download_json.
    fold (json_request url query (CLIENT_ID s)).
    set (r := json_request url query (CLIENT_ID s)).
    assert (Hr : json_or_refresh url query r) by (right; now exists (CLIENT_ID s)).
    destruct (fetch_json (sent s) r) as [e|j].
    + destruct (http_status_in [401; 403]%Z e).
      * apply extends_trans with (s2 := after_request s r);
          [eapply extends_one; [reflexivity|exact Hr]|].
        apply sends_bind; [apply sends_store_client_id|]. intros _.
        apply sends_bind.
        -- eapply sends_weaken; [|apply sends_update_client_id].
           intros r0 H0. now left.
        -- intros _. eapply sends_weaken; [|apply IH].
           apply json_or_refresh_setitem.
      * destruct non_fatal.
        -- apply extends_trans with (s2 := after_request s r);
             [eapply extends_one; [reflexivity|exact Hr]|].
           apply sends_bind; [apply sends_report_warning|].
           intros _. apply sends_ret.
        -- eapply extends_one; [reflexivity|exact Hr].
    + eapply extends_one; [reflexivity|exact Hr].
Qed.

(** [_download_json] sends the request under the client ids it has, and
    the requests of the refresh *)
Lemma sends_download_json (url : string) (query : dict) (non_fatal : bool) :
  sends (json_or_refresh url query) (_download_json url query non_fatal).
Proof. apply sends_download_json_loop. Qed.

Lemma starts_with_extends (Q : request -> Prop) (r : request)
    (s s1 s2 : state) :
  starts_with r s s1 -> extends Q s1 s2 -> starts_with r s s2.
Proof.
  intros (rest & H1) (new & H2 & _). exists (rest ++ new)%list.
  rewrite H2, H1, <- app_assoc. reflexivity.
Qed.

Lemma starts_with_after (Q : request -> Prop) (r : request) (s s' : state) :
  extends Q (after_request s r) s' -> starts_with r s s'.
Proof.
  intros (new & H & _). exists new. rewrite H. cbn [after_request sent].
  rewrite <- app_assoc. reflexivity.
Qed.

Lemma download_json_loop_starts (n : nat) (url : string) (query : dict)
    (non_fatal : bool) (s : state) :
  starts_with (json_request url query (CLIENT_ID s)) s
    (snd (download_json_loop (S n) url query non_fatal s)).
Proof.
  cbn [download_json_loop].
  unfold super_download_json. fold (json_request url query (CLIENT_ID s)).
  set (r := json_request url query (CLIENT_ID s)).
  destruct (fetch_json (sent s) r) as [e|j].
  - destruct (http_status_in [401; 403]%Z e).
    + apply starts_with_after with (Q := fun _ => True).
      apply sends_bind; [apply sends_store_client_id|]. intros _.
      apply sends_bind.
      * eapply sends_weaken; [|apply sends_update_client_id]. auto.
      * intros _. eapply sends_weaken; [|apply sends_download_json_loop]. auto.
    + destruct non_fatal.
      * apply starts_with_after with (Q := fun _ => True).
        apply sends_bind; [apply sends_report_warning|].
        intros _. apply sends_ret.
      * exists []. reflexivity.
  - exists []. reflexivity.
Qed.

(** the first thing [_download_json] does is to send the request under
    the current client id *)
Lemma download_json_starts (url : string) (query : dict) (non_fatal : bool)
    (s : state) :
  starts_with (json_request url query (CLIENT_ID s)) s
    (snd (_download_json url query non_fatal s)).
Proof. apply download_json_loop_starts. Qed.

Lemma sends_with_retry {A : Type} (Q : request -> Prop) (n : nat)
    (retryable : exn -> bool) (op : M A) :
  sends Q op -> sends Q (with_retry n retryable op).
Proof.
  intros Hop. induction n as [|n IH]; intros s; cbn [with_retry];
    specialize (Hop s); destruct (op s) as [[e|a] s1]; cbn [snd] in *;
    try exact Hop; destruct (retryable e); cbn [snd]; try exact Hop.
  eapply extends_trans; [exact Hop|apply IH].
Qed.

Lemma with_retry_starts {A : Type} (Q : request -> Prop) (n : nat)
    (retryable : exn -> bool) (op : M A) (r : request) (s : state) :
  sends Q op -> starts_with r s (snd (op s)) ->
  starts_with r s (snd (with_retry n retryable op s)).
Proof.
  intros Hop Hstart. destruct n as [|n]; cbn [with_retry];
    destruct (op s) as [[e|a] s1]; cbn [snd] in *;
    try exact Hstart; destruct (retryable e); cbn [snd]; try exact Hstart.
  eapply starts_with_extends; [exact Hstart|].
  apply (sends_with_retry n retryable Hop).
Qed.

End Requests.

(** ** Paged collections *)

Section Pages.

Context {E : Env}.

Lemma sends_fetch_page (url : string) (query : dict) :
  sends (json_or_refresh url query) (fetch_page url query).
Proof. apply sends_with_retry. apply sends_download_json. Qed.

Lemma fetch_page_starts (url : string) (query : dict) (s : state) :
  starts_with (json_request url query (CLIENT_ID s)) s
    (snd (fetch_page url query s)).
Proof.
  apply with_retry_starts with (Q := json_or_refresh url query).
  - apply sends_download_json.
  - apply download_json_starts.
Qed.

(** a round changes the session as its page fetch does *)
Lemma entries_page_state (url : string) (query : dict) (s : state) :
  snd (entries_page url query s) = snd (fetch_page url query s).
Proof.
  unfold entries_page.
  destruct (fetch_page url query s) as [[e|response] s1]; [reflexivity|].
  destruct response as [| | | | |fields]; try reflexivity.
  destruct (Py.assoc "collection" fields) as [collection|]; [|reflexivity].
  destruct (collection_items collection) as [e|items]; [reflexivity|].
  destruct (yield_entries items) as [ys [e|]]; [reflexivity|].
  destruct (Py.get "next_href" fields) as [[| | |next| |]|]; try reflexivity;
    match goal with |- context [if ?c then _ else _] => destruct c end;
    reflexivity.
Qed.

Lemma entries_from_extends (n : nat) (url : string) (query : dict) (s : state) :
  extends (fun _ => True) s (snd (entries_from n url query s)).
Proof.
  revert url query s; induction n as [|n IH]; intros url query s;
    cbn [entries_from]; [apply extends_refl|].
  pose proof (entries_page_state url query s) as Hst.
  assert (Hpage : extends (fun _ => True) s (snd (entries_page url query s))).
  { rewrite Hst. eapply extends_weaken; [|apply sends_fetch_page]. auto. }
  destruct (entries_page url query s) as [[ys [url' query'| |e]] s1];
    cbn [snd] in *; try exact Hpage.
  specialize (IH url' query' s1).
  destruct (entries_from n url' query' s1) as [[ys' fin] s2]; cbn [snd] in *.
  eapply extends_trans; eauto.
Qed.

(** a generator that runs at all starts with the request for its URL
    under its query *)
Lemma entries_from_starts (n : nat) (url : string) (query : dict) (s : state) :
  starts_with (json_request url query (CLIENT_ID s)) s
    (snd (entries_from (S n) url query s)).
Proof.
  cbn [entries_from].
  pose proof (entries_page_state url query s) as Hst.
  pose proof (fetch_page_starts url query s) as Hstart. rewrite <- Hst in Hstart.
  destruct (entries_page url query s) as [[ys [url' query'| |e]] s1];
    cbn [snd] in *; try exact Hstart.
  pose proof (entries_from_extends n url' query' s1) as Hrest.
  destruct (entries_from n url' query' s1) as [[ys' fin] s2]; cbn [snd] in *.
  eapply starts_with_extends; eauto.
Qed.

(** how a round that goes on reads its page *)
Lemma entries_page_next (url : string) (query : dict) (s s1 : state)
    (ys : list (option url_result)) (url' : string) (query' : dict) :
  entries_page url query s = ((ys, NextPage url' query'), s1) ->
  query' = Py.pop "offset" query
  /\ Str.nonempty url' = true
  /\ exists fields,
       fetch_page url query s = (inr (JObj fields), s1)
       /\ Py.get "next_href" fields = Some (JStr url').
Proof.
  unfold entries_page.
  destruct (fetch_page url query s) as [[e|response] s0]; [discriminate|].
  destruct response as [| | | | |fields]; try discriminate.
  destruct (Py.assoc "collection" fields) as [collection|]; [|discriminate].
  destruct (collection_items collection) as [e|items]; [discriminate|].
  destruct (yield_entries items) as [ys0 [e|]]; [discriminate|].
  destruct (Py.get "next_href" fields) as [[| | |next| |]|] eqn:Hhref;
    try discriminate;
    try (match goal with |- context [if Py.truthy ?j then _ else _] =>
           destruct (Py.truthy j) end; discriminate).
  destruct (Str.nonempty next) eqn:Hne; [|discriminate].
  intros [= <- <- <- <-]. split; [reflexivity|]. split; [exact Hne|].
  exists fields. auto.
Qed.

(** how a round ends on a page that was fetched and read *)
Lemma entries_page_read (url : string) (query : dict) (s s1 : state)
    (fields : list (string * json)) (collection : json) (items : list json)
    (ys : list (option url_result)) :
  fetch_page url query s = (inr (JObj fields), s1) ->
  Py.assoc "collection" fields = Some collection ->
  collection_items collection = inr items ->
  yield_entries items = (ys, None) ->
  (Py.get "next_href" fields = None ->
     entries_page url query s = ((ys, LastPage), s1))
  /\ (forall next,
        Py.get "next_href" fields = Some (JStr next) ->
        Str.nonempty next = true ->
        entries_page url query s
        = ((ys, NextPage next (Py.pop "offset" query)), s1)).
Proof.
  intros Hfetch Hcoll Hitems Hys. unfold entries_page.
  rewrite Hfetch, Hcoll, Hitems, Hys. split.
  - intros ->. reflexivity.
  - intros next -> ->. reflexivity.
Qed.

End Pages.

(** C5.  The first request of the generator is for the given URL with
    the query [limit=200], [linked_partitioning=1], [offset=0] (and the
    client id every JSON request gets).  A round that goes on has read
    a non-empty [next_href] from its page; the next round asks for
    exactly that URL, with the same query but for [offset].  A round
    whose page has no [next_href] is the last one: the generator stops
    there, and with a [next_href] it does not.  Over the three pages of
    the fixture, with 2, 2 and 1 items and no [next_href] on the third,
    the generator yields the five records in the order of the pages and
    stops, however many rounds it is allowed. *)
Theorem entries_follow_next_href `{E : Env} :
  (forall url s n,
      starts_with
        (mkRequest GetJson url
           [("limit", "200"); ("linked_partitioning", "1"); ("offset", "0");
            ("client_id", CLIENT_ID s)])
        s (snd (_entries (S n) url s)))
  /\ (forall url query s ys url' query' s1,
        entries_page url query s = ((ys, NextPage url' query'), s1) ->
        query' = Py.pop "offset" query
        /\ (exists fields,
              fetch_page url query s = (inr (JObj fields), s1)
              /\ Py.get "next_href" fields = Some (JStr url'))
        /\ forall n,
             starts_with (json_request url' (Py.pop "offset" query)
                            (CLIENT_ID s1))
               s1 (snd (entries_from (S n) url' query' s1)))
  /\ Py.pop "offset" first_page_query
     = [("limit", "200"); ("linked_partitioning", "1")]
  /\ (forall url query s s1 fields collection items ys,
        fetch_page url query s = (inr (JObj fields), s1) ->
        Py.assoc "collection" fields = Some collection ->
        collection_items collection = inr items ->
        yield_entries items = (ys, None) ->
        (Py.get "next_href" fields = None ->
           forall n,
             entries_from (S n) url query s = ((ys, StopIteration), s1))
        /\ (forall next,
              Py.get "next_href" fields = Some (JStr next) ->
              Str.nonempty next = true ->
              entries_page url query s
              = ((ys, NextPage next (Py.pop "offset" query)), s1)
              /\ entries_from 1 url query s
                 = ((ys, Suspended next (Py.pop "offset" query)), s1)))
  /\ (forall n,
        fst (@_entries Fixture.paged_env (3 + n) Fixture.collection_url
               Fixture.start)
        = (Fixture.five_records, StopIteration)).
Proof.
  split; [|split; [|split; [|split]]].
  - intros url s n. apply (entries_from_starts n url first_page_query s).
  - intros url query s ys url' query' s1 Hpage.
    destruct (entries_page_next _ _ _ Hpage) as (-> & _ & Hfields).
    split; [reflexivity|]. split; [exact Hfields|].
    intros n. apply entries_from_starts.
  - reflexivity.
  - intros url query s s1 fields collection items ys Hfetch Hcoll Hitems Hys.
    destruct (entries_page_read _ _ _ Hfetch Hcoll Hitems Hys) as [Hlast Hnext].
    split.
    + intros Hnone n. cbn [entries_from]. now rewrite (Hlast Hnone).
    + intros next Hhref Hne. split; [now apply Hnext|].
      cbn [entries_from]. rewrite (Hnext next Hhref Hne).
      now rewrite app_nil_r.
  - intros n. vm_compute. reflexivity.
Qed.

(** [entries_follow_next_href] on the first and the last page of the
    fixture *)
Lemma entries_follow_next_href_witness :
  (exists s1 ys,
      @entries_page Fixture.paged_env Fixture.collection_url first_page_query
        Fixture.start
      = ((ys, NextPage "https://api-v2.soundcloud.com/users/7/tracks?offset=2"
                [("limit", "200"); ("linked_partitioning", "1")]), s1))
  /\ (exists s1 ys,
        @entries_from Fixture.paged_env 1
          "https://api-v2.soundcloud.com/users/7/tracks?offset=4"
          [("limit", "200"); ("linked_partitioning", "1")] Fixture.start
        = ((ys, StopIteration), s1)).
Proof.
  destruct (@entries_follow_next_href Fixture.paged_env)
    as (_ & _ & _ & Hread & _).
  split.
  - pose (s1 := snd (@fetch_page Fixture.paged_env Fixture.collection_url
                       first_page_query Fixture.start)).
    destruct (Hread Fixture.collection_url first_page_query Fixture.start s1
                [("collection", JArr [Fixture.item 1 "one"; Fixture.item 2 "two"]);
                 ("next_href",
                  JStr "https://api-v2.soundcloud.com/users/7/tracks?offset=2")]
                (JArr [Fixture.item 1 "one"; Fixture.item 2 "two"])
                [Fixture.item 1 "one"; Fixture.item 2 "two"]
                [Fixture.record_of "1" "one"; Fixture.record_of "2" "two"]
                eq_refl eq_refl eq_refl eq_refl) as [_ Hnext].
    destruct (Hnext "https://api-v2.soundcloud.com/users/7/tracks?offset=2"
                eq_refl eq_refl) as [Hpage _].
    exists s1. eexists. exact Hpage.
  - pose (s1 := snd (@fetch_page Fixture.paged_env
                       "https://api-v2.soundcloud.com/users/7/tracks?offset=4"
                       [("limit", "200"); ("linked_partitioning", "1")]
                       Fixture.start)).
    destruct (Hread "https://api-v2.soundcloud.com/users/7/tracks?offset=4"
                [("limit", "200"); ("linked_partitioning", "1")]
                Fixture.start s1
                [("collection", JArr [Fixture.item 5 "five"]);
                 ("next_href", JNull)]
                (JArr [Fixture.item 5 "five"]) [Fixture.item 5 "five"]
                [Fixture.record_of "5" "five"]
                eq_refl eq_refl eq_refl eq_refl) as [Hlast _].
    exists s1. eexists. apply (Hlast eq_refl 0%nat).
Defined.

(** ** Retrying a page *)

Lemma bad_gateway_iff (e : exn) : bad_gateway e = true <-> is_bad_gateway e.
Proof.
  unfold is_bad_gateway. destruct e as [[m [st|]]| | | |]; cbn;
    try (split; [discriminate|intros [m' H]; discriminate H]).
  unfold http_status_in. cbn. rewrite orb_false_r, Z.eqb_eq. split.
  - intros ->. now exists m.
  - intros [m' [= _ ->]]. reflexivity.
Qed.

(** the loop of the retry manager, attempt by attempt: when the first
    [j] attempts fail with errors that are retried, and attempt [j] is
    the last one allowed or ends in another way, the loop gives what
    attempt [j] gives *)
Lemma with_retry_runs {A : Type} (retryable : exn -> bool) (op : M A) :
  forall (retries j : nat) (s : state),
    (j <= retries)%nat ->
    (forall i, (i < j)%nat ->
       exists e, fst (op (after_runs op i s)) = inl e /\ retryable e = true) ->
    (j = retries
     \/ forall e, fst (op (after_runs op j s)) = inl e -> retryable e = false) ->
    with_retry retries retryable op s = op (after_runs op j s).
Proof.
  induction retries as [|n IH]; intros j s Hj Hbefore Hlast.
  - assert (j = 0%nat) as -> by lia. cbn [with_retry after_runs].
    destruct (op s) as [[e|a] s1]; [|reflexivity].
    destruct (retryable e); reflexivity.
  - destruct j as [|j].
    + cbn [with_retry after_runs]. cbn [after_runs] in Hlast.
      destruct Hlast as [Hlast|Hlast]; [discriminate Hlast|].
      destruct (op s) as [[e|a] s1]; [|reflexivity].
      rewrite (Hlast e eq_refl). reflexivity.
    + cbn [with_retry after_runs].
      destruct (Hbefore 0%nat ltac:(lia)) as (e & He & Hr).
      cbn [after_runs] in He.
      destruct (op s) as [[e'|a] s1] eqn:Hop; cbn [fst] in He;
        [|discriminate He].
      injection He as ->. rewrite Hr. cbn [snd].
      apply IH.
      * lia.
      * intros i Hi. specialize (Hbefore (S i) ltac:(lia)).
        cbn [after_runs] in Hbefore. rewrite Hop in Hbefore. exact Hbefore.
      * destruct Hlast as [Hlast|Hlast].
        -- left. lia.
        -- right. cbn [after_runs] in Hlast. rewrite Hop in Hlast.
           exact Hlast.
Qed.

(** C6.  A page fetch is attempted again only after an
    [ExtractorError] whose cause is an HTTP error with status 502, and
    only while attempts remain.  For every number of retries that is
    configured and every course of the attempts: when the attempts
    before attempt [j] all fail with 502, and attempt [j] is the last
    one allowed or does not fail with 502, then the fetch gives what
    attempt [j] gives, its page or its error, unchanged, in the state
    attempt [j] leaves, so without an attempt after it.  A fetch that
    fails ends the generator with this error and without a record of
    the page.  In particular a failure of the first attempt that is no
    502 is at once the failure of the fetch; and with three attempts
    allowed (two retries), two attempts that fail with 502 are followed
    by a third, and whatever the third gives is what the fetch gives:
    its page if it succeeds, its error, unchanged and without a fourth
    attempt, if it fails. *)
Theorem page_fetch_retries_only_bad_gateway `{E : Env}
    (url : string) (query : dict) (s : state) :
  (forall e, bad_gateway e = true <-> is_bad_gateway e)
  /\ (forall j,
        (j <= extractor_retries)%nat ->
        (forall i, (i < j)%nat ->
           fails_with_bad_gateway (_download_json url query false) i s) ->
        (j = extractor_retries
         \/ ~ fails_with_bad_gateway (_download_json url query false) j s) ->
        fetch_page url query s
        = _download_json url query false
            (after_runs (_download_json url query false) j s))
  /\ (forall e s1,
        fetch_page url query s = (inl e, s1) ->
        forall n, entries_from (S n) url query s = (([], Raised e), s1))
  /\ (forall e s1,
        _download_json url query false s = (inl e, s1) ->
        bad_gateway e = false ->
        fetch_page url query s = (inl e, s1)
        /\ forall n, entries_from (S n) url query s = (([], Raised e), s1))
  /\ (extractor_retries = 2%nat ->
      forall e1 s1 e2 s2 outcome s3,
        _download_json url query false s = (inl e1, s1) ->
        bad_gateway e1 = true ->
        _download_json url query false s1 = (inl e2, s2) ->
        bad_gateway e2 = true ->
        _download_json url query false s2 = (outcome, s3) ->
        fetch_page url query s = (outcome, s3)).
Proof.
  assert (Hends : forall e s1,
            fetch_page url query s = (inl e, s1) ->
            forall n, entries_from (S n) url query s = (([], Raised e), s1)).
  { intros e s1 Hfetch n. cbn [entries_from].
    unfold entries_page. rewrite Hfetch. reflexivity. }
  split; [exact bad_gateway_iff|]. split; [|split; [exact Hends|split]].
  - intros j Hj Hbefore Hlast. unfold fetch_page.
    apply with_retry_runs; [exact Hj| |].
    + intros i Hi. destruct (Hbefore i Hi) as (e & He & Hbad).
      exists e. split; [exact He|now apply bad_gateway_iff].
    + destruct Hlast as [Hlast|Hlast]; [now left|right].
      intros e He. apply not_true_is_false. intros Hbad.
      apply Hlast. exists e. split; [exact He|now apply bad_gateway_iff].
  - intros e s1 Hrun Hno.
    assert (Hfetch : fetch_page url query s = (inl e, s1)).
    { unfold fetch_page. destruct extractor_retries; cbn [with_retry];
        rewrite Hrun, Hno; reflexivity. }
    split; [exact Hfetch|]. exact (Hends e s1 Hfetch).
  - intros Hretries e1 s1 e2 s2 outcome s3 H1 Hb1 H2 Hb2 H3.
    unfold fetch_page. rewrite Hretries. cbn [with_retry].
    rewrite H1, Hb1, H2, Hb2, H3.
    destruct outcome as [e3|j]; [|reflexivity].
    destruct (bad_gateway e3); reflexivity.
Qed.

(** [page_fetch_retries_only_bad_gateway] with three attempts allowed:
    a page that comes at the third attempt, a page that would come at
    the fourth, and a failure that is no 502; with six attempts
    allowed: a 502 and then a failure that is no 502, which ends the
    fetch and the generator after two attempts; with five attempts
    allowed: a page that comes at the fourth attempt *)
Lemma page_fetch_retries_only_bad_gateway_witness :
  fst (@fetch_page (Fixture.flaky_env 2) Fixture.collection_url
         first_page_query Fixture.start) = inr Fixture.page3
  /\ fst (@fetch_page (Fixture.flaky_env 3) Fixture.collection_url
            first_page_query Fixture.start)
     = inl (Extractor (Fixture.http_error 502))
  /\ List.length
       (sent (snd (@fetch_page (Fixture.flaky_env 3) Fixture.collection_url
                     first_page_query Fixture.start))) = 3%nat
  /\ fst (@fetch_page Fixture.broken_env Fixture.collection_url
            first_page_query Fixture.start)
     = inl (Extractor (Fixture.http_error 500))
  /\ (fst (@fetch_page Fixture.unsteady_env Fixture.collection_url
             first_page_query Fixture.start)
      = inl (Extractor (Fixture.http_error 500))
      /\ List.length
           (sent (snd (@fetch_page Fixture.unsteady_env Fixture.collection_url
                         first_page_query Fixture.start))) = 2%nat
      /\ fst (@entries_from Fixture.unsteady_env 3 Fixture.collection_url
                first_page_query Fixture.start)
         = ([], Raised (Extractor (Fixture.http_error 500))))
  /\ (fst (@fetch_page (Fixture.patient_env 3) Fixture.collection_url
             first_page_query Fixture.start) = inr Fixture.page3
      /\ List.length
           (sent (snd (@fetch_page (Fixture.patient_env 3)
                         Fixture.collection_url first_page_query
                         Fixture.start))) = 4%nat).
Proof.
  pose (attempt := fun (E : Env) (s : state) =>
          @_download_json E Fixture.collection_url first_page_query false s).
  pose (bad := Extractor (Fixture.http_error 502)).
  assert (Hthird : forall k,
            let E := Fixture.flaky_env k in
            let s1 := snd (attempt E Fixture.start) in
            let s2 := snd (attempt E s1) in
            attempt E Fixture.start = (inl bad, s1) ->
            attempt E s1 = (inl bad, s2) ->
            @fetch_page E Fixture.collection_url first_page_query Fixture.start
            = attempt E s2).
  { intros k E s1 s2 H1 H2.
    destruct (@page_fetch_retries_only_bad_gateway E Fixture.collection_url
                first_page_query Fixture.start) as (_ & _ & _ & _ & Hretry).
    rewrite (surjective_pairing (attempt E s2)).
    exact (Hretry eq_refl bad s1 bad s2 (fst (attempt E s2))
             (snd (attempt E s2)) H1 eq_refl H2 eq_refl
             (surjective_pairing (attempt E s2))). }
  assert (Hbad : is_bad_gateway bad) by (now exists "HTTP Error").
  split; [|split; [|split; [|split; [|split]]]].
  - rewrite (Hthird 2%nat); [reflexivity| |]; vm_compute; reflexivity.
  - rewrite (Hthird 3%nat); [reflexivity| |]; vm_compute; reflexivity.
  - rewrite (Hthird 3%nat); [reflexivity| |]; vm_compute; reflexivity.
  - destruct (@page_fetch_retries_only_bad_gateway Fixture.broken_env
                Fixture.collection_url first_page_query Fixture.start)
      as (_ & _ & _ & Hother & _).
    destruct (Hother (Extractor (Fixture.http_error 500))
                (snd (attempt Fixture.broken_env Fixture.start))
                eq_refl eq_refl) as [Hfetch _].
    now rewrite Hfetch.
  - destruct (@page_fetch_retries_only_bad_gateway Fixture.unsteady_env
                Fixture.collection_url first_page_query Fixture.start)
      as (_ & Hany & Hends & _).
    assert (Hfetch :
              @fetch_page Fixture.unsteady_env Fixture.collection_url
                first_page_query Fixture.start
              = attempt Fixture.unsteady_env
                  (after_runs (attempt Fixture.unsteady_env) 1 Fixture.start)).
    { apply (Hany 1%nat).
      - cbn. lia.
      - intros i Hi. assert (i = 0%nat) as -> by lia.
        exists bad. split; [vm_compute; reflexivity|exact Hbad].
      - right. intros (e & He & m & ->). vm_compute in He. discriminate He. }
    split; [rewrite Hfetch; vm_compute; reflexivity|].
    split; [rewrite Hfetch; vm_compute; reflexivity|].
    rewrite (Hends (Extractor (Fixture.http_error 500))
               (snd (attempt Fixture.unsteady_env
                       (after_runs (attempt Fixture.unsteady_env) 1
                          Fixture.start)))).
    + reflexivity.
    + rewrite Hfetch. vm_compute. reflexivity.
  - destruct (@page_fetch_retries_only_bad_gateway (Fixture.patient_env 3)
                Fixture.collection_url first_page_query Fixture.start)
      as (_ & Hany & _).
    assert (Hfetch :
              @fetch_page (Fixture.patient_env 3) Fixture.collection_url
                first_page_query Fixture.start
              = attempt (Fixture.patient_env 3)
                  (after_runs (attempt (Fixture.patient_env 3)) 3
                     Fixture.start)).
    { apply (Hany 3%nat).
      - cbn. lia.
      - intros i Hi. exists bad. split; [|exact Hbad].
        destruct i as [|[|[|i]]]; [vm_compute; reflexivity..|lia].
      - right. intros (e & He & _). vm_compute in He. discriminate He. }
    split; rewrite Hfetch; vm_compute; reflexivity.
Defined.

(** ** The secret token *)

Section SecretToken.

Context {E : Env}.

Lemma assoc_setitem_other (k k' v : string) (d : dict) :
  String.eqb k k' = false ->
  Py.assoc k (Py.setitem k' v d) = Py.assoc k d.
Proof.
  intros Hk. induction d as [|[k0 v0] d IH]; cbn.
  - now rewrite Hk.
  - destruct (String.eqb k' k0) eqn:H0; cbn.
    + apply String.eqb_eq in H0. subst k0. now rewrite Hk.
    + now rewrite IH.
Qed.

Lemma query_carries_token (token url : string) (query : dict) (r : request) :
  Py.assoc "secret_token" query = Some token ->
  json_or_refresh url query r -> json_carries_token token r.
Proof.
  intros Hq [Hw|[c ->]] Hkind.
  - unfold is_webpage in Hw. congruence.
  - left. cbn [json_request rq_query].
    rewrite assoc_setitem_other by reflexivity. exact Hq.
Qed.

Lemma url_carries_token (token track_id client_id : string) (query : dict)
    (r : request) :
  json_or_refresh
    (update_url_query (_API_V2_BASE ++ "tracks/" ++ track_id ++ "/download")
       [("client_id", client_id); ("secret_token", token)]) query r ->
  json_carries_token token r.
Proof.
  intros [Hw|[c ->]] Hkind.
  - unfold is_webpage in Hw. congruence.
  - right. exists track_id, client_id. reflexivity.
Qed.

Lemma auth_query_token (client_id token : string) :
  Str.nonempty token = true ->
  Py.assoc "secret_token" (auth_query client_id (Some token)) = Some token.
Proof. intros H. unfold auth_query. rewrite H. reflexivity. Qed.

Lemma sends_request_head (Q : request -> Prop) (url : string) :
  (forall r, rq_kind r = Head -> Q r) ->
  sends Q (_request_head_nonfatal url).
Proof.
  intros HQ s. unfold _request_head_nonfatal.
  destruct (fetch_head (sent s) (mkRequest Head url []));
    (eapply extends_one; [reflexivity|apply HQ; reflexivity]).
Qed.

Lemma sends_stream_attempt (url : string) (query : dict) :
  sends (json_or_refresh url query) (stream_attempt url query).
Proof.
  intros s. unfold stream_attempt.
  pose proof (sends_download_json url query false s) as H.
  destruct (_download_json url query false s) as [[[e| | | |]|j] s1];
    cbn [snd] in *; try exact H.
  destruct (http_status_in [429%Z] e).
  - eapply extends_trans; [exact H|].
    apply sends_bind; [apply sends_report_warning_once|].
    intros _. apply sends_raise.
  - eapply extends_trans; [exact H|].
    apply sends_bind; [apply sends_report_warning|].
    intros _. apply sends_ret.
Qed.

Lemma sends_fetch_stream (url : string) (query : dict) :
  sends (json_or_refresh url query) (fetch_stream url query).
Proof.
  intros s. unfold fetch_stream.
  pose proof (sends_with_retry extractor_retries rate_limited
                (sends_stream_attempt url query) s) as H.
  destruct (with_retry extractor_retries rate_limited
              (stream_attempt url query) s) as [[[e| | | |]|j] s1];
    cbn [snd] in *; exact H.
Qed.

Lemma sends_transcoding_step (token : string) (query : dict)
    (t : RawTranscoding) (acc : list string * list Format) :
  Py.assoc "secret_token" query = Some token ->
  sends (json_carries_token token) (transcoding_step query t acc).
Proof.
  intros Hq. unfold transcoding_step. destruct acc as [urls fs].
  destruct (negb (_is_requested (identifier t))); [apply sends_ret|].
  apply sends_bind.
  - eapply sends_weaken; [|apply sends_fetch_stream].
    intros r. now apply query_carries_token.
  - intros stream. destruct (stream_url_of stream) as [u|]; [|apply sends_ret].
    destruct (invalid_url urls (Some u)); apply sends_ret.
Qed.

Lemma sends_transcodings_loop (token : string) (query : dict)
    (ts : list RawTranscoding) (acc : list string * list Format) :
  Py.assoc "secret_token" query = Some token ->
  sends (json_carries_token token) (transcodings_loop query ts acc).
Proof.
  intros Hq. revert acc; induction ts as [|t ts IH]; intros acc;
    cbn [transcodings_loop]; [apply sends_ret|].
  apply sends_bind; [now apply sends_transcoding_step|]. exact IH.
Qed.

Lemma sends_original_download (token : string) (info : list (string * json))
    (track_id client_id : string) :
  Str.nonempty token = true ->
  sends (json_carries_token token)
    (original_download info track_id (auth_query client_id (Some token))).
Proof.
  intros Hne. unfold original_download.
  destruct (Py.truthy_opt (Py.get "downloadable" info)
            && Py.truthy_opt (Py.get "has_downloads_left" info));
    [|apply sends_ret].
  apply sends_bind.
  - eapply sends_weaken; [|apply sends_download_json].
    intros r. unfold auth_query. rewrite Hne. apply url_carries_token.
  - intros answer. apply sends_bind.
    + destruct (Py.truthy answer); [apply sends_as_dict|apply sends_ret].
    + intros fields.
      destruct (Py.get "redirectUri" fields) as [[| | |redirect| |]|];
        try apply sends_ret;
        try (match goal with |- context [if Py.truthy ?j then _ else _] =>
               destruct (Py.truthy j) end;
             [apply sends_raise|apply sends_ret]).
      destruct (Str.nonempty redirect); [|apply sends_ret].
      apply sends_bind.
      * apply sends_request_head. intros r Hr Hj. congruence.
      * intros [h|]; apply sends_ret.
Qed.

(** every request for JSON that [_extract_info_dict] sends for a
    resource with a secret token carries that token *)
Lemma sends_extract_info_dict (token : string) (info : json) (flat : bool) :
  Str.nonempty token = true ->
  sends (json_carries_token token) (_extract_info_dict info (Some token) flat).
Proof.
  intros Hne. unfold _extract_info_dict.
  apply sends_bind; [apply sends_getitem|]. intros idv.
  apply sends_bind; [apply sends_getitem|]. intros tv.
  apply sends_bind; [apply sends_as_dict|]. intros fields.
  apply sends_bind; [apply sends_get_client_id|]. intros cid.
  pose proof (auth_query_token cid token Hne) as Hq.
  apply sends_bind.
  { destruct flat; [apply sends_ret|now apply sends_original_download]. }
  intros acc. apply sends_bind.
  { destruct flat; [apply sends_ret|now apply sends_transcodings_loop]. }
  intros acc'.
  match goal with |- context [if ?c then _ else _] => destruct c end;
    [apply sends_raise|].
  apply sends_bind; [|intros user; apply sends_ret].
  destruct (Py.get "user" fields) as [user|]; [|apply sends_ret].
  destruct (Py.truthy user); [apply sends_as_dict|apply sends_ret].
Qed.

End SecretToken.

(** C8.  For a locator with a secret token, the call that fetches the
    payload carries the token unchanged: the info call of an API
    locator has it as the query parameter [secret_token], the resolve
    call of a permalink has it as the last segment of the resolved
    URL.  Every request for JSON that the extraction sends afterwards,
    the request for the original download and the fetch behind every
    transcoding with their retries, carries the same token: as the
    query parameter [secret_token], or, for the original download, in
    the query that [update_url_query] writes into the URL. *)
Theorem secret_token_is_forwarded `{E : Env} (token : string) (s : state) :
  Str.nonempty token = true ->
  (forall track_id,
      starts_with
        (mkRequest GetJson (_API_V2_BASE ++ "tracks/" ++ track_id)
           [("secret_token", token); ("client_id", CLIENT_ID s)])
        s (snd (SoundcloudIE_real_extract (ApiTrack track_id (Some token)) s))
      /\ extends (json_carries_token token) s
           (snd (SoundcloudIE_real_extract (ApiTrack track_id (Some token)) s)))
  /\ (forall uploader title_slug,
        let resolve :=
          _resolv_url (_BASE_URL ++ uploader ++ "/" ++ title_slug ++ "/" ++ token) in
        starts_with (mkRequest GetJson resolve [("client_id", CLIENT_ID s)]) s
          (snd (SoundcloudIE_real_extract
                  (Permalink uploader title_slug (Some token)) s))
        /\ extends
             (fun r => rq_kind r = GetJson ->
                       rq_url r = resolve \/ carries_token token r)
             s (snd (SoundcloudIE_real_extract
                       (Permalink uploader title_slug (Some token)) s)))
  /\ (forall info flat,
        extends (json_carries_token token) s
          (snd (_extract_info_dict info (Some token) flat s))).
Proof.
  intros Hne. split; [|split].
  - intros track_id. cbn [SoundcloudIE_real_extract Py.truthy_str].
    rewrite Hne. split.
    + unfold bind.
      pose proof (download_json_starts (_API_V2_BASE ++ "tracks/" ++ track_id)
                    [("secret_token", token)] false s) as Hstart.
      destruct (_download_json _ _ false s) as [[e|info] s1]; cbn [snd] in *;
        [exact Hstart|].
      eapply starts_with_extends; [exact Hstart|].
      apply (sends_extract_info_dict token info false Hne).
    + apply sends_bind.
      * eapply sends_weaken; [|apply sends_download_json].
        intros r. apply query_carries_token. reflexivity.
      * intros info. now apply sends_extract_info_dict.
  - intros uploader title_slug resolve.
    cbn [SoundcloudIE_real_extract Py.truthy_str]. rewrite Hne.
    replace (_resolv_url
               (_BASE_URL ++ (uploader ++ "/" ++ title_slug) ++ "/" ++ token))
      with resolve
      by (unfold resolve; now rewrite ReSem.append_assoc).
    split.
    + unfold bind.
      pose proof (download_json_starts resolve [] false s) as Hstart.
      destruct (_download_json resolve [] false s) as [[e|info] s1];
        cbn [snd] in *; [exact Hstart|].
      eapply starts_with_extends; [exact Hstart|].
      apply (sends_extract_info_dict token info false Hne).
    + apply sends_bind.
      * eapply sends_weaken; [|apply sends_download_json].
        intros r [Hw|[c ->]] Hkind.
        -- unfold is_webpage in Hw. congruence.
        -- left. reflexivity.
      * intros info. eapply sends_weaken;
          [|apply (sends_extract_info_dict token info false Hne)].
        intros r Hr Hkind. right. now apply Hr.
  - intros info flat. now apply sends_extract_info_dict.
Qed.

(** [secret_token_is_forwarded] on the track of the fixture: the info
    call, the request for the original download and four fetches
    behind transcodings *)
Lemma secret_token_is_forwarded_witness :
  extends (@json_carries_token Fixture.track_env Fixture.secret) Fixture.start
    (snd (@SoundcloudIE_real_extract Fixture.track_env
            (ApiTrack "1" (Some Fixture.secret)) Fixture.start))
  /\ List.length
       (json_requests
          (sent (snd (@SoundcloudIE_real_extract Fixture.track_env
                        (ApiTrack "1" (Some Fixture.secret)) Fixture.start))))
     = 6%nat.
Proof.
  destruct (@secret_token_is_forwarded Fixture.track_env Fixture.secret
              Fixture.start eq_refl) as (Hapi & _ & _).
  destruct (Hapi "1") as [_ Hall].
  split; [exact Hall|]. vm_compute. reflexivity.
Defined.

(** ** Error lists *)

Module StrFacts.

Import Str.

Lemma prefix_app_r (m s b : string) :
  prefix m s = true -> prefix m (s ++ b) = true.
Proof.
  revert s; induction m as [|c m IH]; intros s; cbn.
  - intros _. now destruct (s ++ b)%string.
  - destruct s as [|a s]; [discriminate|]. cbn.
    destruct (ascii_dec c a); [apply IH|discriminate].
Qed.

Lemma contains_prefix (m s : string) : prefix m s = true -> contains m s = true.
Proof. intros H. destruct s; cbn [contains]; rewrite H; reflexivity. Qed.

Lemma contains_app_l (m a s : string) :
  contains m s = true -> contains m (a ++ s) = true.
Proof.
  intros H. induction a as [|c a IH]; [exact H|].
  change (String c a ++ s)%string with (String c (a ++ s)).
  cbn [contains]. rewrite IH. apply orb_true_r.
Qed.

Lemma contains_app_r (m s b : string) :
  contains m s = true -> contains m (s ++ b) = true.
Proof.
  induction s as [|c s IH].
  - cbn [contains]. rewrite orb_false_r. intros H. apply contains_prefix.
    now apply (prefix_app_r _ EmptyString b).
  - change (String c s ++ b)%string with (String c (s ++ b)).
    cbn [contains]. intros H. apply orb_true_iff in H as [H|H].
    + apply (prefix_app_r _ (String c s) b) in H.
      change (String c s ++ b)%string with (String c (s ++ b)) in H.
      rewrite H. reflexivity.
    + rewrite (IH H). apply orb_true_r.
Qed.

Lemma contains_self (m : string) : contains m m = true.
Proof.
  apply contains_prefix. induction m as [|c m IH]; cbn; [reflexivity|].
  destruct (ascii_dec c c); [exact IH|congruence].
Qed.

(** every part of a join is in the join *)
Lemma contains_join (sep m : string) (parts : list string) :
  In m parts -> contains m (join sep parts) = true.
Proof.
  unfold join. induction parts as [|x xs IH]; [intros []|].
  intros [->|Hin]; cbn [concat].
  - destruct xs; [apply contains_self|].
    apply contains_app_r, contains_self.
  - destruct xs as [|y ys]; [destruct Hin|].
    apply contains_app_l, contains_app_l. now apply IH.
Qed.

End StrFacts.

Section ErrorLists.

Context {E : Env}.

Lemma error_messages_strings (ms : list string) (s : state) :
  error_messages
    (JArr (map (fun m => JObj [("error_message", JStr m)]) ms)) s
  = (inr ms, s).
Proof.
  cbn [error_messages]. induction ms as [|m ms IH]; [reflexivity|].
  cbn [map map_M]. unfold bind at 1. cbn. unfold bind at 1.
  rewrite IH. reflexivity.
Qed.

(** the set resolver turns an error list into one error that contains
    every message *)
Lemma set_resolver_reports_errors (uploader slug_title : string)
    (token : option string) (s s1 : state) (fields : list (string * json))
    (ms : list string) :
  (forall url, _download_json url [] false s = (inr (JObj fields), s1)) ->
  Py.assoc "errors" fields
  = Some (JArr (map (fun m => JObj [("error_message", JStr m)]) ms)) ->
  exists text,
    SoundcloudSetIE_resolve uploader slug_title token s
    = (inl (Extractor (mkExtractorError text None)), s1)
    /\ forall m, In m ms -> Str.contains m text = true.
Proof.
  intros Hrun Herr.
  exists ("unable to download video webpage: " ++ Str.join "," ms)%string.
  split.
  - unfold SoundcloudSetIE_resolve. unfold bind at 1. rewrite Hrun.
    unfold bind at 1. cbn [py_contains ret]. rewrite Herr.
    unfold bind at 1. cbn [getitem]. rewrite Herr.
    unfold of_option, ret. cbn beta iota.
    unfold bind at 1. rewrite error_messages_strings. reflexivity.
  - intros m Hin. apply StrFacts.contains_app_l.
    now apply StrFacts.contains_join.
Qed.

(** so does the resolver of related items, for a list that is not
    empty *)
Lemma related_resolver_reports_errors (slug : string) (r : relation)
    (s s1 : state) (fields : list (string * json)) (m0 : string)
    (ms : list string) :
  (forall url, _download_json url [] false s = (inr (JObj fields), s1)) ->
  Py.assoc "errors" fields
  = Some (JArr (map (fun m => JObj [("error_message", JStr m)]) (m0 :: ms))) ->
  exists text,
    SoundcloudRelatedIE_real_extract slug r s
    = (inl (Extractor (mkExtractorError text None)), s1)
    /\ forall m, In m (m0 :: ms) -> Str.contains m text = true.
Proof.
  intros Hrun Herr.
  exists ("soundcloud:related said: " ++ Str.join "," (m0 :: ms))%string.
  split.
  - unfold SoundcloudRelatedIE_real_extract. unfold bind at 1. rewrite Hrun.
    unfold bind at 1. cbn [as_dict ret]. unfold Py.get. rewrite Herr.
    cbn [Py.truthy_opt Py.truthy map].
    unfold bind at 1. cbn [getitem]. rewrite Herr.
    unfold of_option, ret. cbn beta iota.
    unfold bind at 1.
    rewrite (error_messages_strings (m0 :: ms)). reflexivity.
  - intros m Hin. apply StrFacts.contains_app_l.
    now apply StrFacts.contains_join.
Qed.

(** the track resolver hands a payload without [id] to
    [_extract_info_dict], which fails on its first line, whatever else
    the payload holds *)
Lemma track_resolver_needs_id (loc : locator) (s s1 : state)
    (fields : list (string * json)) :
  (forall url query, _download_json url query false s = (inr (JObj fields), s1)) ->
  Py.assoc "id" fields = None ->
  SoundcloudIE_real_extract loc s = (inl (KeyError "id"), s1).
Proof.
  intros Hrun Hid.
  destruct loc as [track_id token|uploader title_slug token];
    cbn [SoundcloudIE_real_extract]; unfold bind at 1; rewrite Hrun;
    unfold _extract_info_dict; unfold bind at 1; cbn [getitem];
    rewrite Hid; reflexivity.
Qed.

End ErrorLists.

(** C7.  Answered with the error list [not found], the resolve call of
    the set extractor and that of the extractor of related items fail
    with an [ExtractorError] that contains the message; the resolve
    call of the track extractor does not look at the list and fails
    with the [KeyError] of the missing [id]. *)
Theorem track_resolver_ignores_error_list :
  fst (@SoundcloudSetIE_resolve Fixture.not_found_env "artist" "album" None
         Fixture.start)
  = inl (Extractor (mkExtractorError
                      "unable to download video webpage: not found" None))
  /\ fst (@SoundcloudRelatedIE_real_extract Fixture.not_found_env
            "artist/song" Recommended Fixture.start)
     = inl (Extractor (mkExtractorError
                         "soundcloud:related said: not found" None))
  /\ fst (@SoundcloudIE_real_extract Fixture.not_found_env
            (Permalink "artist" "song" None) Fixture.start)
     = inl (KeyError "id")
  /\ sent (snd (@SoundcloudIE_real_extract Fixture.not_found_env
                  (Permalink "artist" "song" None) Fixture.start))
     = [mkRequest GetJson
          "https://api-v2.soundcloud.com/resolve?url=https://soundcloud.com/artist/song"
          [("client_id", "a3e059563d7fd3372b49b37f00a00bcf")]].
Proof. repeat split; vm_compute; reflexivity. Qed.

(* ================================================================= *)
(** * Further properties *)

(** ** What a JSON request can do to the session *)

Section JsonRequests.

Context {E : Env}.

Lemma update_client_id_raises (s s' : state) (e : exn) :
  _update_client_id s = (inl e, s') -> exists x, e = Extractor x.
Proof.
  unfold _update_client_id, bind, _download_webpage.
  destruct (fetch_webpage (sent s) (mkRequest GetWebpage "https://soundcloud.com/" []))
    as [x|webpage].
  - intros [= <- _]. eauto.
  - generalize (rev (Search.script_srcs webpage)) as srcs.
    generalize (mkState (CLIENT_ID s) (cache s)
                  (sent s ++ [mkRequest GetWebpage "https://soundcloud.com/" []])
                  (warnings s)) as s0.
    intros s0 srcs. revert s0.
    induction srcs as [|src rest IH]; intros s0.
    + intros [= <- _]. eauto.
    + cbn [scan_scripts]. unfold bind at 1.
      unfold _download_webpage_nonfatal, _download_webpage.
      destruct (fetch_webpage (sent s0) (mkRequest GetWebpage src [])) as [x|body];
        cbn; [apply IH|].
      destruct (Str.nonempty body); [|apply IH].
      destruct (Search.client_id body); [discriminate|apply IH].
Qed.

Lemma download_json_loop_raises (n : nat) (url : string) (query : dict)
    (non_fatal : bool) (s s' : state) (e : exn) :
  download_json_loop n url query non_fatal s = (inl e, s') ->
  exists x, e = Extractor x.
Proof.
  revert query s; induction n as [|n IH]; intros query s; [discriminate|].
  cbn [download_json_loop]. unfold super_download_json.
  destruct (fetch_json (sent s) _) as [x|j]; [|discriminate].
  destruct (http_status_in [401; 403]%Z x).
  - unfold bind at 1. cbn [_store_client_id]. unfold bind at 1.
    match goal with |- context [_update_client_id ?s1] =>
      destruct (_update_client_id s1) as [[err|[]] s2] eqn:Hup end.
    + intros [= <- _]. eapply update_client_id_raises; eauto.
    + apply IH.
  - destruct non_fatal; [discriminate|]. intros [= <- _]. eauto.
Qed.

(** whatever goes wrong in [_download_json] is an [ExtractorError] *)
Lemma download_json_raises (url : string) (query : dict) (non_fatal : bool)
    (s s' : state) (e : exn) :
  _download_json url query non_fatal s = (inl e, s') ->
  exists x, e = Extractor x.
Proof. apply download_json_loop_raises. Qed.

Lemma download_json_first_answer (url : string) (query : dict)
    (non_fatal : bool) (s : state) :
  (forall e, fetch_json (sent s) (json_request url query (CLIENT_ID s)) = inl e ->
             http_status_in [401; 403]%Z e = false) ->
  _download_json url query non_fatal s
  = match fetch_json (sent s) (json_request url query (CLIENT_ID s)) with
    | inr j => (inr j, after_request s (json_request url query (CLIENT_ID s)))
    | inl e =>
        if non_fatal
        then (inr (JBool false),
              after_warning
                (after_request s (json_request url query (CLIENT_ID s))) (msg e))
        else (inl (Extractor e),
              after_request s (json_request url query (CLIENT_ID s)))
    end.
Proof.
  intros Hother. unfold _download_json. cbn [download_json_loop].
  unfold super_download_json. fold (json_request url query (CLIENT_ID s)).
  destruct (fetch_json (sent s) (json_request url query (CLIENT_ID s)))
    as [e|j]; [|reflexivity].
  rewrite (Hother e eq_refl). destruct non_fatal; reflexivity.
Qed.

Lemma scan_scripts_agrees (srcs : list string) (s : state) :
  cache_agrees s -> cache_agrees (snd (scan_scripts srcs s)).
Proof.
  revert s; induction srcs as [|src rest IH]; intros s Hs; [exact Hs|].
  cbn [scan_scripts]. unfold bind at 1.
  unfold _download_webpage_nonfatal, _download_webpage.
  destruct (fetch_webpage (sent s) (mkRequest GetWebpage src [])) as [x|body];
    cbn; [apply IH; exact Hs|].
  destruct (Str.nonempty body); [|apply IH; exact Hs].
  destruct (Search.client_id body) as [c|]; [|apply IH; exact Hs].
  cbn. intros c' [= <-]. reflexivity.
Qed.

Lemma update_client_id_agrees (s : state) :
  cache_agrees s -> cache_agrees (snd (_update_client_id s)).
Proof.
  intros Hs. unfold _update_client_id, bind, _download_webpage.
  destruct (fetch_webpage (sent s) (mkRequest GetWebpage "https://soundcloud.com/" []));
    [exact Hs|].
  apply scan_scripts_agrees. exact Hs.
Qed.

Lemma download_json_loop_agrees (n : nat) (url : string) (query : dict)
    (non_fatal : bool) (s : state) :
  cache_agrees s ->
  cache_agrees (snd (download_json_loop n url query non_fatal s)).
Proof.
  revert query s; induction n as [|n IH]; intros query s Hs; [exact Hs|].
  cbn [download_json_loop]. unfold super_download_json.
  destruct (fetch_json (sent s) _) as [x|j]; [|exact Hs].
  destruct (http_status_in [401; 403]%Z x).
  - unfold bind at 1. cbn [_store_client_id]. unfold bind at 1.
    match goal with |- context [_update_client_id ?s1] =>
      assert (H1 : cache_agrees s1) by (intros c; discriminate);
      pose proof (update_client_id_agrees H1) as H2;
      destruct (_update_client_id s1) as [[err|[]] s2] end;
      cbn [snd] in H2; [exact H2|].
    apply IH. exact H2.
  - destruct non_fatal; exact Hs.
Qed.

End JsonRequests.

(** X1.  Whatever the transport answers, a call of [_download_json]
    fails only with an [ExtractorError], and it sends one request for
    JSON or two, always for the same URL and the same query.  The first
    goes out under the client id in use at the call.  A second one is
    sent exactly when the first is refused with 401 or 403 and the
    refresh that follows succeeds, and it goes out under the client id
    the session has after this refresh: the id the refresh has just
    found in a script of the bootstrap page and stored in the cache. *)
Theorem download_json_is_bounded `{E : Env} (url : string) (query : dict)
    (non_fatal : bool) (s : state) :
  (forall e s', _download_json url query non_fatal s = (inl e, s') ->
                exists x, e = Extractor x)
  /\ json_requests (sent (snd (_download_json url query non_fatal s)))
     = (json_requests (sent s)
        ++ json_request url query (CLIENT_ID s)
           :: match fetch_json (sent s)
                      (json_request url query (CLIENT_ID s)) with
              | inl e =>
                  if http_status_in [401; 403]%Z e then
                    match _update_client_id
                            (invalidated
                               (after_request s
                                  (json_request url query (CLIENT_ID s)))) with
                    | (inr _, s2) => [json_request url query (CLIENT_ID s2)]
                    | (inl _, _) => []
                    end
                  else []
              | inr _ => []
              end)%list
  /\ (forall s2,
        _update_client_id
          (invalidated
             (after_request s (json_request url query (CLIENT_ID s))))
        = (inr tt, s2) ->
        cache s2 = Some (CLIENT_ID s2)
        /\ exists webpage src hist body,
             fetch_webpage
               (sent s ++ [json_request url query (CLIENT_ID s)])%list
               homepage_request = inr webpage
             /\ In src (Search.script_srcs webpage)
             /\ fetch_webpage hist (mkRequest GetWebpage src []) = inr body
             /\ Search.client_id body = Some (CLIENT_ID s2)).
Proof.
  split; [intros e s'; apply download_json_raises|]. split.
  - destruct (fetch_json (sent s) (json_request url query (CLIENT_ID s)))
      as [e|j] eqn:Hfetch.
    + destruct (http_status_in [401; 403]%Z e) eqn:Hstatus.
      * rewrite (download_json_rejected url query non_fatal s Hfetch Hstatus).
        unfold bind at 1.
        pose proof (update_client_id_requests
                      (invalidated (after_request s
                         (json_request url query (CLIENT_ID s))))) as Hup.
        destruct (_update_client_id _) as [[err|[]] s2]; cbn [snd] in Hup |- *.
        -- rewrite Hup. cbn [invalidated after_request sent].
           rewrite json_requests_app. reflexivity.
        -- rewrite last_round_requests, Hup.
           cbn [invalidated after_request sent]. rewrite json_requests_app.
           unfold json_request. rewrite setitem_setitem.
           rewrite <- app_assoc. reflexivity.
      * rewrite download_json_first_answer, Hfetch.
        -- destruct non_fatal; cbn [snd after_warning after_request sent];
             rewrite json_requests_app; reflexivity.
        -- intros e' He'. rewrite Hfetch in He'. now injection He' as <-.
    + rewrite download_json_first_answer, Hfetch.
      * cbn [snd after_request sent]. rewrite json_requests_app. reflexivity.
      * intros e' He'. rewrite Hfetch in He'. discriminate.
  - intros s2 Hs2. apply update_client_id_found in Hs2
      as (Hcache & _ & _ & webpage & src & hist & body & H1 & H2 & H3 & H4).
    split; [exact Hcache|]. exists webpage, src, hist, body.
    cbn [invalidated after_request sent] in H1. auto.
Qed.

(** X2.  An answer other than 401 or 403 ends the call at once: one
    request has been sent, the client id and the cache are what they
    were, and nothing is refreshed.  A decoded document is returned as
    it is; an error is raised unchanged by a fatal call, and a call made
    with [fatal=False] returns [False] with the message of the error as
    its one new warning. *)
Theorem download_json_without_rejection `{E : Env} (url : string)
    (query : dict) (non_fatal : bool) (s : state) :
  (forall e, fetch_json (sent s) (json_request url query (CLIENT_ID s)) = inl e ->
             http_status_in [401; 403]%Z e = false) ->
  let r := json_request url query (CLIENT_ID s) in
  let out := _download_json url query non_fatal s in
  CLIENT_ID (snd out) = CLIENT_ID s
  /\ cache (snd out) = cache s
  /\ sent (snd out) = (sent s ++ [r])%list
  /\ match fetch_json (sent s) r with
     | inr j => fst out = inr j /\ warnings (snd out) = warnings s
     | inl e =>
         if non_fatal
         then fst out = inr (JBool false)
              /\ warnings (snd out) = (warnings s ++ [msg e])%list
         else fst out = inl (Extractor e) /\ warnings (snd out) = warnings s
     end.
Proof.
  intros Hother r out. subst r out.
  rewrite (download_json_first_answer url query non_fatal s Hother).
  destruct (fetch_json (sent s) (json_request url query (CLIENT_ID s)))
    as [e|j]; [destruct non_fatal|]; cbn; auto.
Qed.

Lemma download_json_without_rejection_witness :
  let E := Cases.down_env in
  let out := _download_json Fixture.track_url [] true Fixture.start in
  fst out = inr (JBool false)
  /\ sent (snd out)
     = [json_request Fixture.track_url [] "a3e059563d7fd3372b49b37f00a00bcf"]
  /\ warnings (snd out) = ["HTTP Error"]
  /\ cache (snd out) = Some "a3e059563d7fd3372b49b37f00a00bcf".
Proof.
  pose proof (@download_json_without_rejection Cases.down_env
                Fixture.track_url [] true Fixture.start) as H.
  cbv zeta in H |- *.
  assert (Hother : forall e,
             @fetch_json Cases.down_env (sent Fixture.start)
               (json_request Fixture.track_url [] (CLIENT_ID Fixture.start))
             = inl e ->
             http_status_in [401; 403]%Z e = false).
  { intros e [= <-]. reflexivity. }
  destruct (H Hother) as (_ & Hcache & Hsent & Hout).
  change (@fetch_json Cases.down_env (sent Fixture.start)
            (json_request Fixture.track_url [] (CLIENT_ID Fixture.start)))
    with (@inl ExtractorError json (Fixture.http_error 500)) in Hout.
  cbv iota in Hout. destruct Hout as [Hfst Hwarn].
  split; [exact Hfst|]. split; [exact Hsent|]. split; [exact Hwarn|exact Hcache].
Defined.

(** X3.  The cache never holds an id other than the one in use: if
    that is so before a call of [_download_json], it is so after it,
    however the call ends.  (A refresh that finds an id stores the id
    it has just put to use; one that fails leaves the cache empty.) *)
Theorem cache_never_holds_a_stale_id `{E : Env} (url : string) (query : dict)
    (non_fatal : bool) (s : state) :
  cache_agrees s ->
  cache_agrees (snd (_download_json url query non_fatal s)).
Proof. apply download_json_loop_agrees. Qed.

Lemma cache_never_holds_a_stale_id_witness :
  let E := Fixture.refresh_env in
  let s' := snd (_download_json Fixture.track_url [] false Fixture.start) in
  cache_agrees Fixture.start
  /\ cache s' = Some Fixture.fresh_id
  /\ CLIENT_ID s' = Fixture.fresh_id.
Proof.
  cbv zeta.
  assert (H0 : cache_agrees Fixture.start) by (intros c [= <-]; reflexivity).
  pose proof (@cache_never_holds_a_stale_id Fixture.refresh_env
                Fixture.track_url [] false Fixture.start H0) as H.
  assert (Hc : cache (snd (@_download_json Fixture.refresh_env
                             Fixture.track_url [] false Fixture.start))
               = Some Fixture.fresh_id) by (vm_compute; reflexivity).
  split; [exact H0|]. split; [exact Hc|]. exact (H _ Hc).
Defined.

(** ** The cached client id *)

Section CachedId.

Context {E : Env}.

Lemma client_id_nonempty (body c : string) :
  Search.client_id body = Some c -> Str.nonempty body = true.
Proof. destruct body; [discriminate|reflexivity]. Qed.

Lemma length_nonempty (c : string) (n : nat) :
  String.length c = S n -> Str.nonempty c = true.
Proof. destruct c; [discriminate|reflexivity]. Qed.

End CachedId.

(** X4.  What a refresh stores is what the next session starts with:
    after [_update_client_id] has succeeded, [_initialize_pre_login]
    run on any session that sees the same cache makes the refreshed id
    the client id, touches nothing else, and the id is not empty. *)
Theorem refreshed_id_is_loaded_again `{E : Env} (s0 s s1 : state) :
  _update_client_id s0 = (inr tt, s) ->
  cache s1 = cache s ->
  _initialize_pre_login s1
  = (inr tt, mkState (CLIENT_ID s) (cache s) (sent s1) (warnings s1))
  /\ Str.nonempty (CLIENT_ID s) = true.
Proof.
  intros Hup Hcache.
  destruct (update_client_id_found _ Hup) as (Hc & Hlen & _).
  pose proof (length_nonempty _ Hlen) as Hne.
  split; [|exact Hne].
  unfold _initialize_pre_login. rewrite Hcache, Hc, Hne. reflexivity.
Qed.

Lemma refreshed_id_is_loaded_again_witness :
  let E := Fixture.refresh_env in
  let s := snd (_update_client_id Fixture.start) in
  let s1 := mkState "" (cache s) [] [] in
  CLIENT_ID s = Fixture.fresh_id
  /\ _initialize_pre_login s1
     = (inr tt, mkState Fixture.fresh_id (Some Fixture.fresh_id) [] []).
Proof.
  cbv zeta.
  pose (s := snd (@_update_client_id Fixture.refresh_env Fixture.start)).
  assert (Hup : @_update_client_id Fixture.refresh_env Fixture.start = (inr tt, s))
    by (vm_compute; reflexivity).
  assert (Hid : CLIENT_ID s = Fixture.fresh_id) by (vm_compute; reflexivity).
  assert (Hc : cache s = Some Fixture.fresh_id) by (vm_compute; reflexivity).
  destruct (@refreshed_id_is_loaded_again Fixture.refresh_env Fixture.start s
              (mkState "" (cache s) [] []) Hup eq_refl) as [H _].
  fold s. split; [exact Hid|]. rewrite H, Hid, Hc. reflexivity.
Defined.

(** X5.  A refresh reads the scripts of the bootstrap page from the
    last one back and stops at the first id: when the last script is
    served and embeds an id, that id is put to use and cached, and the
    bootstrap page and that one script are all that was requested. *)
Theorem refresh_stops_at_the_last_script `{E : Env} (s : state)
    (webpage last body c : string) (srcs : list string) :
  fetch_webpage (sent s) homepage_request = inr webpage ->
  Search.script_srcs webpage = (srcs ++ [last])%list ->
  fetch_webpage (sent s ++ [homepage_request]) (mkRequest GetWebpage last [])
  = inr body ->
  Search.client_id body = Some c ->
  _update_client_id s
  = (inr tt,
     mkState c (Some c)
       (sent s ++ [homepage_request; mkRequest GetWebpage last []])
       (warnings s)).
Proof.
  intros Hpage Hsrcs Hscript Hid.
  unfold _update_client_id, bind, _download_webpage.
  fold homepage_request. rewrite Hpage, Hsrcs, rev_app_distr.
  cbn [rev app scan_scripts]. unfold bind at 1.
  unfold _download_webpage_nonfatal, _download_webpage. cbn [sent].
  rewrite Hscript, (client_id_nonempty _ Hid), Hid. cbn.
  rewrite <- app_assoc. reflexivity.
Qed.

Lemma refresh_stops_at_the_last_script_witness :
  let E := Cases.last_script_env in
  _update_client_id Fixture.start
  = (inr tt,
     mkState Fixture.fresh_id (Some Fixture.fresh_id)
       [homepage_request;
        mkRequest GetWebpage "https://a-v2.sndcdn.com/assets/50-2.js" []]
       []).
Proof.
  cbv zeta.
  apply (@refresh_stops_at_the_last_script Cases.last_script_env Fixture.start
           Fixture.homepage "https://a-v2.sndcdn.com/assets/50-2.js"
           (Fixture.script_with Fixture.fresh_id) Fixture.fresh_id
           ["https://a-v2.sndcdn.com/assets/0-1.js"]);
    vm_compute; reflexivity.
Defined.

(** ** Resolving the streams *)

Section Streams.

Context {E : Env}.

Lemma with_retry_raises {A : Type} (P : exn -> Prop) (n : nat)
    (retryable : exn -> bool) (op : M A) :
  (forall s e s', op s = (inl e, s') -> P e) ->
  forall s e s', with_retry n retryable op s = (inl e, s') -> P e.
Proof.
  intros Hop. induction n as [|n IH]; intros s e s'; cbn [with_retry];
    destruct (op s) as [[x|a] s1] eqn:Hs; try discriminate;
    destruct (retryable x); try (intros [= <- _]; eapply Hop; eassumption).
  apply IH.
Qed.

Lemma stream_attempt_raises (format_url : string) (query : dict)
    (s s' : state) (e : exn) :
  stream_attempt format_url query s = (inl e, s') -> exists x, e = Extractor x.
Proof.
  unfold stream_attempt.
  destruct (_download_json format_url query false s) as [[x|j] s1] eqn:Hd;
    [|discriminate].
  destruct (download_json_raises _ _ _ _ Hd) as [x' ->].
  destruct (http_status_in [429%Z] x').
  - unfold bind, report_warning_once, report_warning, raise.
    destruct (Str.mem _ (warnings s1)); intros [= <- _]; eauto.
  - discriminate.
Qed.

(** the stream of a transcoding is a document or [None], never an error *)
Lemma fetch_stream_returns (format_url : string) (query : dict) (s : state) :
  exists stream s', fetch_stream format_url query s = (inr stream, s').
Proof.
  unfold fetch_stream.
  destruct (with_retry extractor_retries rate_limited
              (stream_attempt format_url query) s) as [[e|j] s1] eqn:Hr.
  - assert (Hx : exists x, e = Extractor x).
    { apply (@with_retry_raises json (fun e => exists x, e = Extractor x)
               extractor_retries rate_limited
               (stream_attempt format_url query)
               (fun s0 e0 s0' => @stream_attempt_raises format_url query s0 s0' e0)
               s e s1 Hr). }
    destruct Hx as [x ->]. eexists _, _. reflexivity.
  - eauto.
Qed.

Lemma transcoding_step_returns (query : dict) (t : RawTranscoding)
    (acc : list string * list Format) (s : state) :
  exists acc' s',
    transcoding_step query t acc s = (inr acc', s')
    /\ exists more, snd acc' = (snd acc ++ more)%list /\ (length more <= 1)%nat.
Proof.
  unfold transcoding_step. destruct acc as [urls fs].
  destruct (negb (_is_requested (identifier t))).
  - exists (urls, fs), s. split; [reflexivity|]. exists []. cbn.
    rewrite app_nil_r. auto.
  - unfold bind.
    destruct (fetch_stream_returns (t_url t) query s) as (stream & s1 & ->).
    destruct (stream_url_of stream) as [u|].
    + destruct (invalid_url urls (Some u)).
      * exists (urls, fs), s1. split; [reflexivity|]. exists []. cbn.
        rewrite app_nil_r. auto.
      * eexists _, s1. split; [reflexivity|]. cbn [snd]. eexists [_].
        split; [reflexivity|]. cbn. lia.
    + exists (urls, fs), s1. split; [reflexivity|]. exists []. cbn.
      rewrite app_nil_r. auto.
Qed.

End Streams.

(** X6.  No answer of the transport makes the loop over the
    transcodings fail: rejected credentials, a refresh that finds no id,
    rate limits and any other error of a stream request end as warnings.
    The loop returns, keeps every descriptor it was given, in place, and
    adds at most one for each transcoding. *)
Theorem stream_resolution_never_raises `{E : Env} (query : dict)
    (ts : list RawTranscoding) (acc : list string * list Format) (s : state) :
  exists acc' s',
    transcodings_loop query ts acc s = (inr acc', s')
    /\ exists more,
         snd acc' = (snd acc ++ more)%list /\ (length more <= length ts)%nat.
Proof.
  revert acc s; induction ts as [|t ts IH]; intros acc s.
  - exists acc, s. split; [reflexivity|]. exists []. cbn.
    rewrite app_nil_r. auto.
  - cbn [transcodings_loop]. unfold bind.
    destruct (transcoding_step_returns query t acc s)
      as (acc1 & s1 & -> & more1 & Hm1 & Hl1).
    destruct (IH acc1 s1) as (acc2 & s2 & -> & more2 & Hm2 & Hl2).
    exists acc2, s2. split; [reflexivity|].
    exists (more1 ++ more2)%list. split.
    + rewrite Hm2, Hm1, app_assoc. reflexivity.
    + rewrite length_app. cbn [length]. lia.
Qed.

Section Flat.

Context {E : Env}.

Lemma flat_extraction (info : json) (secret_token : option string)
    (s : state) :
  snd (_extract_info_dict info secret_token true s) = s
  /\ forall d, fst (_extract_info_dict info secret_token true s) = inr d ->
               formats d = None.
Proof.
  unfold _extract_info_dict.
  destruct info as [| | | | |fields]; cbn; try (split; [reflexivity|discriminate]).
  destruct (Py.assoc "id" fields) as [idv|]; cbn;
    [|split; [reflexivity|discriminate]].
  destruct (Py.assoc "title" fields) as [tv|]; cbn;
    [|split; [reflexivity|discriminate]].
  destruct (match Py.get "policy" fields with
            | Some (JStr p) => String.eqb p "BLOCK"
            | _ => false
            end); cbn; [split; [reflexivity|discriminate]|].
  destruct (Py.get "user" fields) as [user|]; cbn.
  - destruct (Py.truthy user); cbn.
    + destruct user; cbn; split; try reflexivity; try discriminate.
      intros d [= <-]. reflexivity.
    + split; [reflexivity|]. intros d [= <-]. reflexivity.
  - split; [reflexivity|]. intros d [= <-]. reflexivity.
Qed.

End Flat.

(** X7.  A flat extraction stays off the network: with
    [extract_flat] nothing is requested, the client id and the cache
    are what they were, and what is returned has no formats. *)
Theorem flat_extraction_sends_nothing `{E : Env} (info : json)
    (secret_token : option string) (s : state) :
  let out := _extract_info_dict info secret_token true s in
  sent (snd out) = sent s
  /\ CLIENT_ID (snd out) = CLIENT_ID s
  /\ cache (snd out) = cache s
  /\ forall d, fst out = inr d -> formats d = None.
Proof.
  cbv zeta. destruct (flat_extraction info secret_token s) as [-> Hf]. auto.
Qed.

(** ** The bitrate tag of a stream URL *)

Module TagFacts.

Import Str.

Lemma span_all (p : ascii -> bool) (s a b : string) :
  span p s = (a, b) -> all_chars p a = true /\ s = a ++ b.
Proof.
  revert a b; induction s as [|c s IH]; intros a b; cbn [span].
  - intros [= <- <-]. auto.
  - destruct (p c) eqn:Hc.
    + destruct (span p s) as [a' b'] eqn:Hs. intros [= <- <-].
      destruct (IH a' b' eq_refl) as [Ha ->]. cbn. rewrite Hc. auto.
    + intros [= <- <-]. auto.
Qed.

Lemma take_app (n : nat) (s a b : string) :
  take n s = Some (a, b) -> s = a ++ b /\ String.length a = n.
Proof.
  revert s a b; induction n as [|n IH]; intros s a b; cbn [take].
  - intros [= <- <-]. auto.
  - destruct s as [|c s]; [discriminate|].
    destruct (take n s) as [[a' b']|] eqn:Ht; [|discriminate].
    intros [= <- <-]. destruct (IH _ _ _ Ht) as [-> <-]. auto.
Qed.

Lemma ext_here_shape (s e : string) :
  Search.ext_here s = Some e ->
  (3 <= String.length e <= 4)%nat
  /\ all_chars Search.is_ext_char e = true
  /\ exists after, s = e ++ after /\ Search.slash_or_question after = true.
Proof.
  unfold Search.ext_here.
  assert (H3 : match take 3 s with
               | Some (e3, after3) =>
                   if all_chars Search.is_ext_char e3
                      && Search.slash_or_question after3
                   then Some e3 else None
               | None => None
               end = Some e ->
               (3 <= String.length e <= 4)%nat
               /\ all_chars Search.is_ext_char e = true
               /\ exists after,
                    s = e ++ after /\ Search.slash_or_question after = true).
  { destruct (take 3 s) as [[e3 after3]|] eqn:Ht; [|discriminate].
    destruct (all_chars Search.is_ext_char e3
              && Search.slash_or_question after3) eqn:Hc; [|discriminate].
    intros [= <-]. apply andb_prop in Hc as [Ha Hq].
    destruct (take_app _ _ Ht) as [-> Hl]. rewrite Hl.
    split; [lia|]. split; [exact Ha|]. eauto. }
  destruct (take 4 s) as [[e4 after4]|] eqn:Ht; [|exact H3].
  destruct (all_chars Search.is_ext_char e4
            && Search.slash_or_question after4) eqn:Hc; [|exact H3].
  intros [= <-]. apply andb_prop in Hc as [Ha Hq].
  destruct (take_app _ _ Ht) as [-> Hl]. rewrite Hl.
  split; [lia|]. split; [exact Ha|]. eauto.
Qed.

Lemma abr_ext_here_shape (s abr ext : string) :
  Search.abr_ext_here s = Some (abr, ext) ->
  nonempty abr = true
  /\ all_chars is_digit abr = true
  /\ (3 <= String.length ext <= 4)%nat
  /\ all_chars Search.is_ext_char ext = true
  /\ exists after,
       s = "." ++ abr ++ "." ++ ext ++ after
       /\ Search.slash_or_question after = true.
Proof.
  unfold Search.abr_ext_here.
  destruct s as [|dot r1]; [discriminate|].
  destruct (Ascii.eqb dot ".") eqn:Hdot; [|discriminate].
  apply Ascii.eqb_eq in Hdot as ->.
  destruct (span is_digit r1) as [ds rest] eqn:Hspan.
  destruct ds as [|d ds]; [discriminate|].
  destruct rest as [|dot2 r2]; [discriminate|].
  destruct (Ascii.eqb dot2 ".") eqn:Hdot2; [|discriminate].
  apply Ascii.eqb_eq in Hdot2 as ->.
  destruct (Search.ext_here r2) as [e|] eqn:He; [|discriminate].
  intros [= <- <-].
  destruct (span_all _ _ Hspan) as [Hd ->].
  destruct (ext_here_shape _ He) as (Hl & Ha & after & -> & Hq).
  split; [reflexivity|]. split; [exact Hd|]. split; [exact Hl|].
  split; [exact Ha|]. exists after. split; [|exact Hq].
  reflexivity.
Qed.

Lemma int_of_digits_nonneg (s : string) :
  all_chars is_digit s = true -> (0 <= int_of_digits s)%Z.
Proof.
  unfold int_of_digits.
  assert (H : forall acc, (0 <= acc)%Z -> all_chars is_digit s = true ->
                (0 <= fold_left
                        (fun acc c => 10 * acc + (Z.of_nat (nat_of_ascii c) - 48))
                        (list_ascii_of_string s) acc)%Z).
  { induction s as [|c s IH]; intros acc Hacc;
      cbn [list_ascii_of_string fold_left all_chars]; [auto|].
    intros Hall. apply andb_prop in Hall as [Hc Hall].
    apply IH; [|exact Hall].
    unfold is_digit in Hc. apply andb_prop in Hc as [Hlo _].
    apply Nat.leb_le in Hlo. lia. }
  apply H. lia.
Qed.

Lemma abr_ext_shape (u abr ext : string) :
  Search.abr_ext u = Some (abr, ext) ->
  exists before after,
    u = before ++ "." ++ abr ++ "." ++ ext ++ after
    /\ Search.abr_ext_here ("." ++ abr ++ "." ++ ext ++ after) = Some (abr, ext).
Proof.
  induction u as [|c u IH]; cbn [Search.abr_ext].
  - destruct (Search.abr_ext_here "") eqn:H; [discriminate H|discriminate].
  - destruct (Search.abr_ext_here (String c u)) as [m|] eqn:Hhere.
    + intros [= ->].
      destruct (abr_ext_here_shape _ Hhere) as (_ & _ & _ & _ & after & Hu & _).
      exists "", after. split; [exact Hu|]. rewrite <- Hu. exact Hhere.
    + intros H. destruct (IH H) as (before & after & -> & Hh).
      exists (String c before), after. split; [reflexivity|exact Hh].
Qed.

End TagFacts.

(** X8.  The tag [re.search] finds in a stream URL: the bitrate is a
    non-empty run of decimal digits, the extension three or four
    characters out of the digits and the small letters; in the URL they
    stand as [.abr.ext], followed at once by a slash or a question
    mark. *)
Theorem url_tag_shape (u abr ext : string) :
  Search.abr_ext u = Some (abr, ext) ->
  Str.nonempty abr = true
  /\ Str.all_chars Str.is_digit abr = true
  /\ (3 <= String.length ext <= 4)%nat
  /\ Str.all_chars Search.is_ext_char ext = true
  /\ exists before after,
       u = before ++ "." ++ abr ++ "." ++ ext ++ after
       /\ Search.slash_or_question after = true.
Proof.
  intros H.
  destruct (TagFacts.abr_ext_shape _ H) as (before & after & Hu & Hhere).
  destruct (TagFacts.abr_ext_here_shape _ Hhere)
    as (Hne & Hd & Hl & Ha & after' & Heq & Hq).
  split; [exact Hne|]. split; [exact Hd|]. split; [exact Hl|].
  split; [exact Ha|]. exists before, after'. split; [|exact Hq].
  rewrite Hu. f_equal. exact Heq.
Qed.

Lemma url_tag_shape_witness :
  Search.abr_ext "https://cf-media.sndcdn.com/AbC.128.mp3?Policy=x"
  = Some ("128", "mp3")
  /\ Str.all_chars Str.is_digit "128" = true
  /\ (3 <= String.length "mp3" <= 4)%nat.
Proof.
  assert (H : Search.abr_ext "https://cf-media.sndcdn.com/AbC.128.mp3?Policy=x"
              = Some ("128", "mp3")) by (vm_compute; reflexivity).
  destruct (url_tag_shape _ H) as (_ & Hd & Hl & _).
  split; [exact H|]. split; [exact Hd|exact Hl].
Defined.

(** X9.  The bitrate of a descriptor made from a resolved stream is a
    number or absent, never the text of the tag: 256 for [aac], else
    the non-negative number the tag of the URL spells, and absent only
    when the URL carries no tag. *)
Theorem collected_bitrate_is_a_number (stream_url : string)
    (ext protocol : option string) (is_preview : bool) :
  let f := add_format stream_url (new_format stream_url ext) protocol
             is_preview in
  match f_abr f with
  | Some (AbrInt z) =>
      (0 <= z)%Z
      /\ (if opt_eqb (f_ext f) "aac" then z = 256%Z
          else exists abr e,
                 Search.abr_ext stream_url = Some (abr, e)
                 /\ z = Str.int_of_digits abr)
  | Some (AbrTag _) => False
  | None =>
      Search.abr_ext stream_url = None /\ opt_eqb (f_ext f) "aac" = false
  end.
Proof.
  cbv zeta. unfold add_format, mark_premium, merge_url_tag, new_format.
  destruct (Search.abr_ext stream_url) as [[abr e]|] eqn:Htag.
  - destruct (TagFacts.abr_ext_shape _ Htag) as (before & after & _ & Hhere).
    destruct (TagFacts.abr_ext_here_shape _ Hhere) as (Hne & Hd & _).
    cbn [f_abr f_ext abr_truthy].
    destruct (opt_eqb (if Py.truthy_str ext then ext else Some e) "aac")
      eqn:Haac; cbn [f_abr f_ext abr_truthy abr_int Z.eqb negb].
    + rewrite Haac. split; [lia|reflexivity].
    + rewrite Hne. cbn [abr_int]. rewrite Haac.
      split; [now apply TagFacts.int_of_digits_nonneg|eauto].
  - cbn [f_abr f_ext abr_truthy].
    destruct (opt_eqb ext "aac") eqn:Haac;
      cbn [f_abr f_ext abr_truthy abr_int Z.eqb negb].
    + rewrite Haac. split; [lia|reflexivity].
    + auto.
Qed.

(** ** The records of a page *)

Section Records.

Context {E : Env}.

Lemma resolve_entry_skip (cand : option json) (rest : list (option json)) :
  usable_link cand = None ->
  resolve_entry (cand :: rest) = resolve_entry rest.
Proof.
  unfold usable_link. destruct cand as [[| | | | |c]|]; try reflexivity.
  cbn [resolve_entry].
  destruct (Py.get "permalink_url" c) as [[| | |u| |]|]; try reflexivity.
  destruct (url_or_none u) as [p|]; [|reflexivity].
  destruct (Str.nonempty p); [discriminate|reflexivity].
Qed.

Lemma resolve_entry_take (c : list (string * json)) (p : string)
    (rest : list (option json)) :
  usable_link (Some (JObj c)) = Some p ->
  resolve_entry (Some (JObj c) :: rest)
  = Some (mkUrlResult p (if suitable p then Some "Soundcloud" else None)
            (str_or_none (Py.get "id" c)) (Py.get "title" c)).
Proof.
  unfold usable_link. cbn [resolve_entry].
  destruct (Py.get "permalink_url" c) as [[| | |u| |]|]; try discriminate.
  destruct (url_or_none u) as [p'|]; [|discriminate].
  destruct (Str.nonempty p'); [|discriminate].
  intros [= ->]. reflexivity.
Qed.

Lemma usable_link_dict (cand : option json) (p : string) :
  usable_link cand = Some p ->
  Str.nonempty p = true /\ exists c, cand = Some (JObj c).
Proof.
  unfold usable_link. destruct cand as [[| | | | |c]|]; try discriminate.
  destruct (Py.get "permalink_url" c) as [[| | |u| |]|]; try discriminate.
  destruct (url_or_none u) as [p'|]; [|discriminate].
  destruct (Str.nonempty p') eqn:Hne; [|discriminate].
  intros [= <-]. eauto.
Qed.

End Records.

(** X10.  [resolve_entry] describes the first candidate that offers a
    link: a dictionary whose [permalink_url] is a string that
    [url_or_none] accepts and that is not empty.  The record carries
    that link and the id and the title of the same candidate, whatever
    the later candidates hold; and there is no record exactly when no
    candidate offers a link. *)
Theorem resolve_entry_takes_first_link `{E : Env}
    (candidates : list (option json)) :
  match resolve_entry candidates with
  | Some r =>
      exists before c after,
        candidates = (before ++ Some (JObj c) :: after)%list
        /\ Forall (fun cand => usable_link cand = None) before
        /\ usable_link (Some (JObj c)) = Some (ur_url r)
        /\ Str.nonempty (ur_url r) = true
        /\ ur_id r = str_or_none (Py.get "id" c)
        /\ ur_title r = Py.get "title" c
        /\ ur_ie_key r = (if suitable (ur_url r) then Some "Soundcloud" else None)
  | None => Forall (fun cand => usable_link cand = None) candidates
  end.
Proof.
  induction candidates as [|cand rest IH]; [constructor|].
  destruct (usable_link cand) as [p|] eqn:Hlink.
  - destruct (usable_link_dict _ Hlink) as [Hne [c ->]].
    rewrite (resolve_entry_take c rest Hlink).
    exists [], c, rest. cbn [ur_url ur_id ur_title ur_ie_key app].
    repeat split; auto.
  - rewrite (resolve_entry_skip cand rest Hlink).
    destruct (resolve_entry rest) as [r|].
    + destruct IH as (before & c & after & -> & Hb & Hrest).
      exists (cand :: before), c, after. split; [reflexivity|].
      split; [constructor; assumption|exact Hrest].
    + constructor; assumption.
Qed.

(** X11.  A page yields one record for each item of its collection,
    in order, also for an item without any link, which is yielded as
    [None]; an item that is no dictionary ends the page with an
    [AttributeError] after the records of the items before it. *)
Theorem page_yields_one_record_per_item `{E : Env} (items : list json) :
  match yield_entries items with
  | (ys, None) =>
      Forall is_dict items
      /\ length ys = length items
  | (ys, Some e) =>
      e = AttributeError
      /\ exists good bad rest,
           items = (good ++ bad :: rest)%list
           /\ Forall is_dict good /\ ~ is_dict bad
           /\ length ys = length good
  end.
Proof.
  induction items as [|item items IH]; [split; [constructor|reflexivity]|].
  destruct item as [| | | | |e];
    try (cbn [yield_entries]; split; [reflexivity|];
         eexists [], _, items; repeat split;
         [constructor|intros [fields Hf]; discriminate]).
  cbn [yield_entries]. destruct (yield_entries items) as [ys [err|]].
  - destruct IH as (-> & good & bad & rest & -> & Hg & Hb & Hl).
    split; [reflexivity|].
    exists (JObj e :: good), bad, rest. repeat split; auto.
    + constructor; [now exists e|exact Hg].
    + cbn [length]. now rewrite Hl.
  - destruct IH as [Hall Hl]. split.
    + constructor; [now exists e|exact Hall].
    + cbn [length]. now rewrite Hl.
Qed.

(** ** The signature *)

Module SignFacts.

Lemma sign_round_range (m : Z) (ch : ascii) :
  (0 <= sign_round m ch < 2 ^ 24)%Z.
Proof.
  unfold sign_round. change 16777215%Z with (Z.ones 24).
  rewrite Z.land_ones by lia. apply Z.mod_pos_bound. lia.
Qed.

Lemma fold_sign_round_range (l : list ascii) (m : Z) :
  (0 <= m < 2 ^ 24)%Z -> (0 <= fold_left sign_round l m < 2 ^ 24)%Z.
Proof.
  revert m; induction l as [|c l IH]; intros m Hm; cbn [fold_left]; [exact Hm|].
  apply IH. apply sign_round_range.
Qed.

Lemma sign_state_range (h : string) : (0 <= sign_state h < 2 ^ 24)%Z.
Proof. apply fold_sign_round_range. lia. Qed.

(** a round turns the 24 bits one place to the right and adds the
    character *)
Lemma sign_round_rotates (m : Z) (ch : ascii) :
  (0 <= m < 2 ^ 24)%Z ->
  sign_round m ch
  = ((m / 2 + (m mod 2) * 2 ^ 23 + Z.of_nat (nat_of_ascii ch)) mod 2 ^ 24)%Z.
Proof.
  intros Hm. unfold sign_round. change 16777215%Z with (Z.ones 24).
  rewrite Z.land_ones by lia.
  rewrite Z.shiftr_div_pow2, Z.shiftl_mul_pow2 by lia.
  rewrite Z.land_comm. change 1%Z with (Z.ones 1) at 2.
  rewrite Z.land_ones by lia. reflexivity.
Qed.

Lemma hex_digit_is_hex (d : Z) :
  (0 <= d < 16)%Z ->
  is_hex_char (hex_digit d) = true /\ hex_digit_value (hex_digit d) = d.
Proof.
  intros Hd.
  assert (Hcases : (d = 0 \/ d = 1 \/ d = 2 \/ d = 3 \/ d = 4 \/ d = 5
                    \/ d = 6 \/ d = 7 \/ d = 8 \/ d = 9 \/ d = 10 \/ d = 11
                    \/ d = 12 \/ d = 13 \/ d = 14 \/ d = 15)%Z) by lia.
  repeat (destruct Hcases as [->|Hcases]; [split; reflexivity|]).
  subst d. split; reflexivity.
Qed.

Lemma hex_from_length (fuel : nat) (m : Z) (acc : string) (k : nat) :
  (0 <= m < 16 ^ Z.of_nat k)%Z -> (1 <= k)%nat ->
  (String.length (hex_from fuel m acc) <= String.length acc + k)%nat.
Proof.
  revert m acc k; induction fuel as [|fuel IH]; intros m acc k Hm Hk;
    cbn [hex_from]; [lia|].
  destruct (m <? 16)%Z eqn:Hlt; [cbn [String.length]; lia|].
  apply Z.ltb_ge in Hlt.
  destruct k as [|[|k]]; [lia| |].
  - change (16 ^ Z.of_nat 1)%Z with 16%Z in Hm. lia.
  - assert (Hdiv : (0 <= m / 16 < 16 ^ Z.of_nat (S k))%Z).
    { replace (Z.of_nat (S (S k))) with (Z.of_nat (S k) + 1)%Z in Hm by lia.
      rewrite Z.pow_add_r in Hm by lia. change (16 ^ 1)%Z with 16%Z in Hm.
      split; [apply Z.div_pos; lia|].
      apply Z.div_lt_upper_bound; lia. }
    specialize (IH (m / 16)%Z (String (hex_digit (m mod 16)) acc) (S k) Hdiv).
    cbn [String.length] in IH. lia.
Qed.

Lemma hex_from_keeps (fuel : nat) (m : Z) (acc : string) :
  (String.length acc <= String.length (hex_from fuel m acc))%nat.
Proof.
  revert m acc; induction fuel as [|fuel IH]; intros m acc; cbn [hex_from];
    [lia|].
  destruct (m <? 16)%Z; [cbn; lia|].
  specialize (IH (m / 16)%Z (String (hex_digit (m mod 16)) acc)).
  cbn [String.length] in IH. lia.
Qed.

Lemma hex_length (m : Z) (k : nat) :
  (0 <= m < 16 ^ Z.of_nat k)%Z -> (1 <= k)%nat ->
  (1 <= String.length (hex m) <= k)%nat.
Proof.
  intros Hm Hk. split.
  - unfold hex. cbn [hex_from].
    destruct (m <? 16)%Z; [cbn; lia|].
    pose proof (hex_from_keeps (Z.to_nat (Z.log2 m)) (m / 16)
                  (String (hex_digit (m mod 16)) "")) as H.
    cbn [String.length] in H. lia.
  - pose proof (@hex_from_length (S (Z.to_nat (Z.log2 m))) m "" k Hm Hk) as H.
    cbn [String.length] in H. exact H.
Qed.

Lemma hex_from_chars (fuel : nat) (m : Z) (acc : string) :
  (0 <= m)%Z -> Str.all_chars is_hex_char acc = true ->
  Str.all_chars is_hex_char (hex_from fuel m acc) = true.
Proof.
  revert m acc; induction fuel as [|fuel IH]; intros m acc Hm Hacc;
    cbn [hex_from]; [exact Hacc|].
  assert (Hd : Str.all_chars is_hex_char (String (hex_digit (m mod 16)) acc)
               = true).
  { cbn [Str.all_chars]. rewrite Hacc.
    destruct (@hex_digit_is_hex (m mod 16)) as [-> _]; [|reflexivity].
    apply Z.mod_pos_bound. lia. }
  destruct (m <? 16)%Z; [exact Hd|].
  apply IH; [apply Z.div_pos; lia|exact Hd].
Qed.

Lemma hex_value_cons (c : ascii) (s : string) :
  hex_value (String c s)
  = (hex_digit_value c * 16 ^ Z.of_nat (String.length s) + hex_value s)%Z.
Proof.
  unfold hex_value. cbn [list_ascii_of_string fold_left].
  change (16 * 0 + hex_digit_value c)%Z with (hex_digit_value c).
  generalize (hex_digit_value c) as a.
  assert (H : forall a b,
             fold_left (fun acc c0 => (16 * acc + hex_digit_value c0)%Z)
               (list_ascii_of_string s) (a + b)%Z
             = (a * 16 ^ Z.of_nat (String.length s)
                + fold_left (fun acc c0 => (16 * acc + hex_digit_value c0)%Z)
                    (list_ascii_of_string s) b)%Z).
  { induction s as [|c' s IH]; intros a b;
      cbn [list_ascii_of_string fold_left String.length].
    - change (16 ^ Z.of_nat 0)%Z with 1%Z. lia.
    - replace (16 * (a + b) + hex_digit_value c')%Z
        with (16 * a + (16 * b + hex_digit_value c'))%Z by lia.
      rewrite IH. rewrite Nat2Z.inj_succ, Z.pow_succ_r by lia. lia. }
  intros a. specialize (H a 0%Z). rewrite Z.add_0_r in H. exact H.
Qed.

Lemma hex_from_value (fuel : nat) (m : Z) (acc : string) :
  (0 <= m < 16 ^ Z.of_nat fuel)%Z ->
  hex_value (hex_from fuel m acc)
  = (m * 16 ^ Z.of_nat (String.length acc) + hex_value acc)%Z.
Proof.
  revert m acc; induction fuel as [|fuel IH]; intros m acc Hm.
  - change (16 ^ Z.of_nat 0)%Z with 1%Z in Hm.
    assert (m = 0%Z) as -> by lia. cbn [hex_from]. lia.
  - cbn [hex_from].
    assert (Hmod : (0 <= m mod 16 < 16)%Z) by (apply Z.mod_pos_bound; lia).
    destruct (hex_digit_is_hex Hmod) as [_ Hval].
    destruct (m <? 16)%Z eqn:Hlt.
    + apply Z.ltb_lt in Hlt. rewrite hex_value_cons, Hval.
      rewrite Z.mod_small by lia. reflexivity.
    + apply Z.ltb_ge in Hlt.
      rewrite Nat2Z.inj_succ, Z.pow_succ_r in Hm by lia.
      rewrite IH.
      * rewrite hex_value_cons, Hval. cbn [String.length].
        rewrite Nat2Z.inj_succ, Z.pow_succ_r by lia.
        pose proof (Z.div_mod m 16). nia.
      * split; [apply Z.div_pos; lia|].
        apply Z.div_lt_upper_bound; lia.
Qed.

Lemma hex_spells (m : Z) : (0 <= m)%Z -> hex_value (hex m) = m.
Proof.
  intros Hm. unfold hex. rewrite hex_from_value.
  - cbn [String.length]. change (hex_value "") with 0%Z.
    change (16 ^ Z.of_nat 0)%Z with 1%Z. lia.
  - split; [exact Hm|].
    destruct (Z.eq_dec m 0) as [->|Hne]; [reflexivity|].
    assert (Hlog : (m < 2 ^ (Z.log2 m + 1))%Z).
    { pose proof (Z.log2_spec m) as Hs. rewrite Z.add_1_r. lia. }
    pose proof (Z.log2_nonneg m) as Hl.
    rewrite Nat2Z.inj_succ, Z2Nat.id by lia.
    eapply Z.lt_le_trans; [exact Hlog|].
    change 16%Z with (2 ^ 4)%Z. rewrite <- Z.pow_mul_r by lia.
    apply Z.pow_le_mono_r; lia.
Qed.

End SignFacts.

(** X12.  A signature has three fixed fields and one that is computed:
    it is [8:33-1-440123-117-1800000-1042-37-37:], one to six digits to
    the base 16 in small letters, and [:5].  The digits spell the state
    of the loop, which stays within 24 bits whatever is signed; and the
    password is no part of what is signed. *)
Theorem signature_shape (user pw clid : string) :
  exists digits,
    sign user pw clid
    = "8:33-1-440123-117-1800000-1042-37-37:" ++ digits ++ ":5"
    /\ (1 <= String.length digits <= 6)%nat
    /\ Str.all_chars is_hex_char digits = true
    /\ (0 <= hex_value digits < 2 ^ 24)%Z
    /\ hex_value digits
       = sign_state
           ("0763ed7314c69015fd4a0dc16bbf4b908"
            ++ "33-1-440123-117-1800000-1042-37-37" ++ _USER_AGENT
            ++ user ++ clid
            ++ "33-1-440123-117-1800000-1042-37-37"
            ++ "0763ed7314c69015fd4a0dc16bbf4b90")
    /\ sign user pw clid = sign user "" clid.
Proof.
  set (h := "0763ed7314c69015fd4a0dc16bbf4b908"
            ++ "33-1-440123-117-1800000-1042-37-37" ++ _USER_AGENT
            ++ user ++ clid
            ++ "33-1-440123-117-1800000-1042-37-37"
            ++ "0763ed7314c69015fd4a0dc16bbf4b90").
  pose proof (SignFacts.sign_state_range h) as Hrange.
  exists (hex (sign_state h)).
  split; [reflexivity|]. split; [|split; [|split; [|split]]].
  - apply SignFacts.hex_length; [|lia].
    change (16 ^ Z.of_nat 6)%Z with (2 ^ 24)%Z. exact Hrange.
  - apply SignFacts.hex_from_chars; [lia|reflexivity].
  - rewrite SignFacts.hex_spells by lia. exact Hrange.
  - apply SignFacts.hex_spells. lia.
  - reflexivity.
Qed.

(** ** The sizes of an artwork *)

Module ImageFacts.

Import Str.

Lemma strip_prefix_app (p s r : string) :
  strip_prefix p s = Some r -> s = p ++ r.
Proof.
  revert s; induction p as [|a p IH]; intros s; cbn [strip_prefix].
  - intros [= ->]. reflexivity.
  - destruct s as [|b s]; [discriminate|].
    destruct (Ascii.eqb a b) eqn:Hab; [|discriminate].
    apply Ascii.eqb_eq in Hab as ->. intros H. rewrite (IH _ H). reflexivity.
Qed.

(** a match at the head of [s]: the hyphen, the run and [.jpg] *)
Lemma here_shape (s after : string) :
  Image.here s = Some after ->
  exists run,
    s = "-" ++ run ++ ".jpg" ++ after
    /\ nonempty run = true
    /\ all_chars Search.is_ext_char run = true.
Proof.
  unfold Image.here. destruct s as [|c r]; [discriminate|].
  destruct (Ascii.eqb c "-") eqn:Hc; [|discriminate].
  apply Ascii.eqb_eq in Hc as ->.
  destruct (span Search.is_ext_char r) as [run rest] eqn:Hspan.
  destruct run as [|d run]; [discriminate|].
  intros Hstrip. apply strip_prefix_app in Hstrip as ->.
  destruct (TagFacts.span_all _ _ Hspan) as [Hall ->].
  exists (String d run). auto.
Qed.

Lemma sub_from_skip (repl a b : string) :
  Image.sub_from (String.length a) repl (a ++ b) = Image.sub_from 0 repl b.
Proof.
  induction a as [|c a IH]; [reflexivity|].
  cbn [String.length append Image.sub_from]. exact IH.
Qed.

Lemma length_app (a b : string) :
  String.length (a ++ b) = String.length a + String.length b.
Proof. induction a as [|c a IH]; cbn; [reflexivity|now rewrite IH]. Qed.

(** the three equations of [re.sub] *)
Lemma sub_empty (repl : string) : Image.sub repl "" = "".
Proof. reflexivity. Qed.

Lemma sub_match (repl s after : string) :
  Image.here s = Some after ->
  Image.sub repl s = repl ++ Image.sub repl after.
Proof.
  intros Hhere. destruct (here_shape _ Hhere) as (run & Hs & _).
  unfold Image.sub. destruct s as [|c rest]; [discriminate|].
  cbn [Image.sub_from]. rewrite Hhere. f_equal.
  injection Hs as -> ->.
  assert (Hlen : String.length (String "-" (run ++ ".jpg" ++ after))
                 - String.length after - 1
                 = String.length (run ++ ".jpg")).
  { cbn [String.length]. rewrite !length_app. cbn [String.length]. lia. }
  change (Image.sub_from
            (String.length (String "-" (run ++ ".jpg" ++ after))
             - String.length after - 1) repl (run ++ ".jpg" ++ after)
          = Image.sub_from 0 repl after).
  rewrite Hlen, <- ReSem.append_assoc. apply sub_from_skip.
Qed.

Lemma sub_no_match (repl : string) (c : ascii) (rest : string) :
  Image.here (String c rest) = None ->
  Image.sub repl (String c rest) = String c (Image.sub repl rest).
Proof.
  intros Hhere. unfold Image.sub. cbn [Image.sub_from]. rewrite Hhere.
  reflexivity.
Qed.

Lemma sub_other (repl : string) (c : ascii) (rest : string) :
  c <> "-"%char ->
  Image.sub repl (String c rest) = String c (Image.sub repl rest).
Proof.
  intros Hc. apply sub_no_match. unfold Image.here.
  destruct (Ascii.eqb c "-") eqn:H; [|reflexivity].
  apply Ascii.eqb_eq in H. contradiction.
Qed.

Lemma span_app (p : ascii -> bool) (a b : string) :
  all_chars p a = true ->
  match b with String c _ => p c = false | EmptyString => True end ->
  span p (a ++ b) = (a, b).
Proof.
  intros Ha Hb. induction a as [|c a IH]; cbn [append].
  - destruct b as [|c b]; cbn [span]; [reflexivity|]. now rewrite Hb.
  - cbn [all_chars] in Ha. apply andb_prop in Ha as [Hc Ha].
    cbn [span]. rewrite Hc, (IH Ha). reflexivity.
Qed.

(** the replacement for a size [id] is itself a match *)
Lemma here_size (id x : string) :
  nonempty id = true -> all_chars Search.is_ext_char id = true ->
  Image.here (size_name id ++ x) = Some x.
Proof.
  intros Hne Hall. unfold size_name. rewrite !ReSem.append_assoc.
  change ("-" ++ id ++ ".jpg" ++ x) with (String "-" (id ++ ".jpg" ++ x)).
  cbn [Image.here]. cbn [Ascii.eqb Bool.eqb].
  rewrite (span_app Search.is_ext_char id (".jpg" ++ x) Hall);
    [|reflexivity].
  destruct id as [|c id]; [discriminate|].
  cbn [strip_prefix append]. cbn [Ascii.eqb Bool.eqb]. reflexivity.
Qed.

Section Sizes.

Variable id : string.
Hypothesis id_nonempty : nonempty id = true.
Hypothesis id_chars : all_chars Search.is_ext_char id = true.

Lemma here_size_name (x : string) : Image.here (size_name id ++ x) = Some x.
Proof. apply here_size; assumption. Qed.

(** a replacement leaves the first character as it is *)
Lemma sub_head (c : ascii) (rest : string) :
  exists rest', Image.sub (size_name id) (String c rest) = String c rest'.
Proof.
  destruct (Image.here (String c rest)) as [after|] eqn:Hhere.
  - rewrite (sub_match (size_name id) _ Hhere).
    destruct (here_shape _ Hhere) as (run & Hs & _). injection Hs as -> _.
    eexists. reflexivity.
  - rewrite (sub_no_match (size_name id) _ _ Hhere). eexists. reflexivity.
Qed.

Lemma ext_char_no_hyphen (c : ascii) :
  Search.is_ext_char c = true -> c <> "-"%char.
Proof. intros H ->. discriminate H. Qed.

Lemma span_sub (s : string) :
  span Search.is_ext_char (Image.sub (size_name id) s)
  = (fst (span Search.is_ext_char s),
     Image.sub (size_name id) (snd (span Search.is_ext_char s))).
Proof.
  induction s as [|c s IH]; [reflexivity|].
  cbn [span]. destruct (Search.is_ext_char c) eqn:Hc.
  - rewrite (sub_other (size_name id) s (@ext_char_no_hyphen c Hc)).
    cbn [span].
    rewrite Hc, IH. destruct (span Search.is_ext_char s). reflexivity.
  - cbn [fst snd]. destruct (sub_head c s) as [rest' ->]. cbn [span].
    now rewrite Hc.
Qed.

Lemma strip_prefix_sub (p s : string) :
  all_chars (fun c => negb (Ascii.eqb c "-")) p = true ->
  strip_prefix p (Image.sub (size_name id) s)
  = option_map (Image.sub (size_name id)) (strip_prefix p s).
Proof.
  revert s; induction p as [|a p IH]; intros s Hp; [reflexivity|].
  cbn [all_chars] in Hp. apply andb_prop in Hp as [Ha Hp].
  destruct s as [|c s]; [reflexivity|].
  destruct (Ascii.eqb a c) eqn:Hac.
  - apply Ascii.eqb_eq in Hac as <-.
    assert (Hne : a <> "-"%char).
    { intros ->. discriminate Ha. }
    rewrite (sub_other (size_name id) s Hne). cbn [strip_prefix].
    rewrite Ascii.eqb_refl. apply IH, Hp.
  - destruct (sub_head c s) as [rest' ->]. cbn [strip_prefix].
    now rewrite Hac.
Qed.

(** a replacement keeps the matches where they are *)
Lemma here_sub (s : string) :
  Image.here (Image.sub (size_name id) s)
  = option_map (Image.sub (size_name id)) (Image.here s).
Proof.
  destruct (Image.here s) as [after|] eqn:Hhere.
  - rewrite (sub_match (size_name id) _ Hhere). cbn [option_map].
    apply here_size_name.
  - destruct s as [|c rest]; [reflexivity|].
    rewrite (sub_no_match (size_name id) _ _ Hhere). cbn [option_map].
    unfold Image.here in Hhere |- *.
    destruct (Ascii.eqb c "-"); [|reflexivity].
    rewrite span_sub.
    destruct (span Search.is_ext_char rest) as [run after]. cbn [fst snd].
    destruct run as [|d run]; [reflexivity|].
    rewrite strip_prefix_sub by reflexivity. now rewrite Hhere.
Qed.

Lemma search_sub (s : string) :
  Image.search (Image.sub (size_name id) s) = Image.search s.
Proof.
  induction s as [|c s IH]; [reflexivity|].
  destruct (Image.here (String c s)) as [after|] eqn:Hhere.
  - pose proof (here_sub (String c s)) as H. rewrite Hhere in H.
    cbn [option_map] in H.
    destruct (Image.sub (size_name id) (String c s)) as [|c' s'] eqn:Hsub;
      [discriminate H|].
    cbn [Image.search]. now rewrite H, Hhere.
  - pose proof (here_sub (String c s)) as H. rewrite Hhere in H.
    cbn [option_map] in H.
    rewrite (sub_no_match (size_name id) _ _ Hhere) in H |- *.
    cbn [Image.search]. now rewrite H, Hhere.
Qed.

(** what a second replacement makes of a first one is what it makes of
    the string itself *)
Lemma sub_sub (repl s : string) :
  Image.sub repl (Image.sub (size_name id) s) = Image.sub repl s.
Proof.
  remember (String.length s) as n eqn:Hn. revert s Hn.
  induction n as [n IH] using lt_wf_ind. intros s Hn.
  destruct s as [|c rest]; [reflexivity|].
  destruct (Image.here (String c rest)) as [after|] eqn:Hhere.
  - rewrite (sub_match (size_name id) _ Hhere), (sub_match repl _ Hhere).
    rewrite (sub_match repl _ (here_size_name (Image.sub (size_name id) after))).
    f_equal. apply (IH (String.length after)); [|reflexivity].
    destruct (here_shape _ Hhere) as (run & Hs & _).
    rewrite Hn, Hs. cbn [append String.length]. rewrite !length_app.
    cbn [String.length]. lia.
  - pose proof (here_sub (String c rest)) as H. rewrite Hhere in H.
    cbn [option_map] in H.
    rewrite (sub_no_match (size_name id) _ _ Hhere) in H |- *.
    rewrite (sub_no_match repl _ _ H), (sub_no_match repl _ _ Hhere).
    f_equal. apply (IH (String.length rest)); [|reflexivity].
    rewrite Hn. cbn [String.length]. lia.
Qed.

End Sizes.

(** where there is a match, the replacement is in the result *)
Lemma sub_contains (repl s : string) :
  Image.search s = true -> contains repl (Image.sub repl s) = true.
Proof.
  induction s as [|c s IH]; [discriminate|].
  cbn [Image.search].
  destruct (Image.here (String c s)) as [after|] eqn:Hhere.
  - intros _. rewrite (sub_match repl _ Hhere).
    apply StrFacts.contains_app_r, StrFacts.contains_self.
  - intros H. rewrite (sub_no_match repl _ _ Hhere).
    apply (StrFacts.contains_app_l repl (String c "") (Image.sub repl s)).
    apply IH, H.
Qed.

(** where there is no match, nothing is replaced *)
Lemma sub_without_match (repl s : string) :
  Image.search s = false -> Image.sub repl s = s.
Proof.
  induction s as [|c s IH]; [reflexivity|].
  cbn [Image.search].
  destruct (Image.here (String c s)) as [after|] eqn:Hhere; [discriminate|].
  intros H. rewrite (sub_no_match repl _ _ Hhere), (IH H). reflexivity.
Qed.

End ImageFacts.

(** the search finds a match exactly in the strings that name a size *)
Lemma search_names_a_size (t : string) :
  Image.search t = true <-> names_a_size t.
Proof.
  split.
  - induction t as [|c t IH].
    + cbn. discriminate.
    + intros H. destruct (Image.here (String c t)) as [after|] eqn:Hhere.
      * apply ImageFacts.here_shape in Hhere as (run & Ht & Hne & Hall).
        exists EmptyString, run, after. split; [|auto].
        rewrite Ht. unfold size_name. cbn [append].
        rewrite !ReSem.append_assoc. reflexivity.
      * assert (Hrest : Image.search t = true).
        { revert H. cbn [Image.search]. rewrite Hhere. exact (fun H => H). }
        destruct (IH Hrest) as (before & id & after & -> & Hne & Hall).
        exists (String c before), id, after. auto.
  - intros (before & id & after & -> & Hne & Hall).
    induction before as [|c before IH].
    + cbn [append].
      pose proof (@ImageFacts.here_size id after Hne Hall) as Hhere.
      destruct (size_name id ++ after)%string as [|c r];
        [discriminate Hhere|].
      cbn [Image.search]. rewrite Hhere. reflexivity.
    + cbn [append Image.search].
      destruct (Image.here _); [reflexivity|exact IH].
Qed.

Lemma artwork_ids_are_sizes (id : string) (size : Z) :
  In (id, size) _ARTWORK_MAP ->
  Str.nonempty id = true /\ Str.all_chars Search.is_ext_char id = true.
Proof.
  intros Hin. unfold _ARTWORK_MAP in Hin. cbn [In] in Hin.
  repeat (destruct Hin as [[= <- <-]|Hin]; [split; reflexivity|]).
  destruct Hin.
Qed.

Lemma artwork_thumbnail_sized (artwork_url : option json) (t id : string)
    (size : Z) :
  In (id, size) _ARTWORK_MAP ->
  Image.search t = true ->
  let th := artwork_thumbnail artwork_url t (id, size) in
  th_id th = Some id
  /\ th_url th = Image.sub (size_name id) t
  /\ th_height th = th_width th
  /\ th_preference th = (if String.eqb id "original" then Some 10%Z else None)
  /\ th_width th
     = (if String.eqb id "original" then None
        else if String.eqb id "tiny" && negb (Py.truthy_opt artwork_url)
             then Some 18%Z else Some size).
Proof.
  intros Hin Hsearch. unfold _ARTWORK_MAP in Hin. cbn [In] in Hin.
  unfold artwork_thumbnail.
  repeat (destruct Hin as [[= <- <-]|Hin];
          [cbn -[Image.sub append];
           try (destruct (Py.truthy_opt artwork_url); cbn -[Image.sub append]);
           repeat split; reflexivity|]).
  destruct Hin.
Qed.

(** X13.  The thumbnails of a track are made from its picture: the
    artwork of the payload or, where that is missing or empty, the
    avatar of the user.  A picture that is a string naming a size (a
    hyphen, digits and small letters, [.jpg]) yields one thumbnail for
    each of the ten sizes, in the order of [_ARTWORK_MAP], each at the
    URL of the picture with the name of that size put in for the names
    it has; a string that names none yields itself, alone and without
    id, size or preference; anything but a string yields no thumbnail.
    A thumbnail with an id has the name of its size in its URL, which a
    further replacement by that size leaves as it is; it is square;
    [original] alone is preferred (10) and alone has no size; the size
    is the one of the map, but for [tiny], which is 18 when the picture
    is the avatar of the user and not the artwork. *)
Theorem thumbnails_name_their_size (info user : list (string * json)) :
  let ts := thumbnails info user in
  let picture :=
    if Py.truthy_opt (Py.get "artwork_url" info)
    then Py.get "artwork_url" info
    else Py.get "avatar_url" user in
  match picture with
  | Some (JStr t) =>
      (names_a_size t ->
       map th_id ts = map (fun e => Some (fst e)) _ARTWORK_MAP
       /\ map th_url ts
          = map (fun e => Image.sub (size_name (fst e)) t) _ARTWORK_MAP)
      /\ (~ names_a_size t -> ts = [mkThumbnail None t None None None])
  | _ => ts = []
  end
  /\ Forall
       (fun th =>
          th_height th = th_width th
          /\ forall id, th_id th = Some id ->
               exists size,
                 In (id, size) _ARTWORK_MAP
                 /\ Str.contains (size_name id) (th_url th) = true
                 /\ Image.sub (size_name id) (th_url th) = th_url th
                 /\ th_preference th
                    = (if String.eqb id "original" then Some 10%Z else None)
                 /\ th_width th
                    = (if String.eqb id "original" then None
                       else if String.eqb id "tiny"
                               && negb (Py.truthy_opt
                                          (Py.get "artwork_url" info))
                            then Some 18%Z else Some size))
       ts.
Proof.
  cbv zeta. unfold thumbnails.
  set (artwork_url := Py.get "artwork_url" info).
  destruct (if Py.truthy_opt artwork_url then artwork_url
            else Py.get "avatar_url" user) as [[| | |t| |]|];
    try (split; [reflexivity|constructor]).
  destruct (Image.search t) eqn:Hsearch.
  - assert (Hids : map th_id (map (artwork_thumbnail artwork_url t) _ARTWORK_MAP)
                   = map (fun e => Some (fst e)) _ARTWORK_MAP).
    { rewrite map_map. apply map_ext_in. intros [id size] Hin.
      destruct (@artwork_thumbnail_sized artwork_url t id size Hin Hsearch)
        as (Hid & _). exact Hid. }
    split; [split|].
    + intros _. split; [exact Hids|].
      rewrite map_map. apply map_ext_in. intros [id size] Hin.
      destruct (@artwork_thumbnail_sized artwork_url t id size Hin Hsearch)
        as (_ & Hurl & _). exact Hurl.
    + intros Hno. exfalso. apply Hno. now apply search_names_a_size.
    + apply Forall_forall. intros th Hth. apply in_map_iff in Hth
        as ([id size] & <- & Hin).
      destruct (@artwork_thumbnail_sized artwork_url t id size Hin Hsearch)
        as (Hid & Hurl & Hh & Hp & Hw).
      split; [exact Hh|]. intros id' Hid'. rewrite Hid in Hid'.
      injection Hid' as <-. exists size. split; [exact Hin|].
      destruct (@artwork_ids_are_sizes id size Hin) as [Hne Hall].
      rewrite Hurl. split; [apply ImageFacts.sub_contains; exact Hsearch|].
      split; [apply (@ImageFacts.sub_sub id Hne Hall)|]. auto.
  - split; [split|].
    + intros Hyes. apply search_names_a_size in Hyes. congruence.
    + reflexivity.
    + constructor; [|constructor]. split; [reflexivity|]. discriminate.
Qed.

(** X14.  Which size the artwork of the payload names does not matter:
    the thumbnails made from an artwork URL and those made from the same
    URL with any size of [_ARTWORK_MAP] put in its place are the same. *)
Theorem artwork_size_does_not_matter (info info' user : list (string * json))
    (t id : string) (size : Z) :
  In (id, size) _ARTWORK_MAP ->
  Py.get "artwork_url" info = Some (JStr t) ->
  Py.get "artwork_url" info'
  = Some (JStr (Image.sub (size_name id) t)) ->
  thumbnails info' user = thumbnails info user.
Proof.
  intros Hin Ht Ht'.
  destruct (@artwork_ids_are_sizes id size Hin) as [Hne Hall].
  destruct (Image.search t) eqn:Hsearch.
  - assert (Htruthy : Str.nonempty t = true).
    { destruct t; [discriminate Hsearch|reflexivity]. }
    assert (Htruthy' : Str.nonempty (Image.sub (size_name id) t) = true).
    { pose proof (@ImageFacts.sub_contains (size_name id) t Hsearch) as H.
      destruct (Image.sub (size_name id) t); [discriminate H|reflexivity]. }
    unfold thumbnails. rewrite Ht, Ht'. cbn [Py.truthy_opt Py.truthy].
    rewrite Htruthy, Htruthy', (@ImageFacts.search_sub id Hne Hall), Hsearch.
    apply map_ext. intros [id2 size2]. unfold artwork_thumbnail.
    rewrite (@ImageFacts.sub_sub id Hne Hall).
    cbn [Py.truthy_opt Py.truthy]. rewrite Htruthy, Htruthy'. reflexivity.
  - unfold thumbnails.
    rewrite Ht, Ht', (@ImageFacts.sub_without_match (size_name id) t Hsearch).
    reflexivity.
Qed.

Lemma artwork_size_does_not_matter_witness :
  thumbnails
    [("artwork_url",
      JStr "https://i1.sndcdn.com/artworks-000031955188-rwb18x-crop.jpg")] []
  = thumbnails
      [("artwork_url",
        JStr "https://i1.sndcdn.com/artworks-000031955188-rwb18x-large.jpg")]
      [].
Proof.
  apply (@artwork_size_does_not_matter
           [("artwork_url",
             JStr "https://i1.sndcdn.com/artworks-000031955188-rwb18x-large.jpg")]
           [("artwork_url",
             JStr "https://i1.sndcdn.com/artworks-000031955188-rwb18x-crop.jpg")]
           [] "https://i1.sndcdn.com/artworks-000031955188-rwb18x-large.jpg"
           "crop" 400%Z).
  - cbn. tauto.
  - reflexivity.
  - vm_compute. reflexivity.
Defined.

(** ** Sets and playlists *)

Section Silent.

Context {E : Env}.

Lemma silent_ret {A : Type} (a : A) : silent (ret a).
Proof. intros s. reflexivity. Qed.

Lemma silent_raise {A : Type} (e : exn) : silent (@raise A e).
Proof. intros s. reflexivity. Qed.

Lemma silent_bind {A B : Type} (m : M A) (k : A -> M B) :
  silent m -> (forall a, silent (k a)) -> silent (bind m k).
Proof.
  intros Hm Hk s. unfold bind. specialize (Hm s).
  destruct (m s) as [[e|a] s1]; cbn [snd] in *; subst s1; [reflexivity|].
  apply Hk.
Qed.

Lemma silent_of_option {A : Type} (e : exn) (o : option A) :
  silent (of_option e o).
Proof. destruct o; [apply silent_ret|apply silent_raise]. Qed.

Lemma silent_of_sum {A : Type} (r : exn + A) : silent (of_sum r).
Proof. destruct r; [apply silent_raise|apply silent_ret]. Qed.

Lemma silent_getitem (key : string) (obj : json) : silent (getitem key obj).
Proof.
  destruct obj; try apply silent_raise. apply silent_of_option.
Qed.

Lemma silent_as_dict (obj : json) : silent (as_dict obj).
Proof. destruct obj; try apply silent_raise. apply silent_ret. Qed.

Lemma silent_iterate (obj : json) : silent (iterate obj).
Proof. destruct obj; try apply silent_raise; apply silent_ret. Qed.

Lemma silent_map_M {A B : Type} (f : A -> M B) (l : list A) :
  (forall a, silent (f a)) -> silent (map_M f l).
Proof.
  intros Hf. induction l as [|a l IH]; [apply silent_ret|].
  cbn [map_M]. apply silent_bind; [apply Hf|]. intros b.
  apply silent_bind; [exact IH|]. intros bs. apply silent_ret.
Qed.

Lemma silent_track_ids (tracks : list json) : silent (track_ids tracks).
Proof.
  apply silent_map_M. intros t. apply silent_bind; [apply silent_getitem|].
  intros v. apply silent_ret.
Qed.

Lemma silent_all_have_permalink (tracks : list json) :
  silent (all_have_permalink tracks).
Proof.
  induction tracks as [|t rest IH]; [apply silent_ret|].
  cbn [all_have_permalink]. apply silent_bind; [apply silent_as_dict|].
  intros fields. destruct (Py.truthy_opt _); [exact IH|apply silent_ret].
Qed.

Lemma silent_set_entries (token : option string) (tracks : list json) :
  silent (set_entries token tracks).
Proof.
  induction tracks as [|t rest IH]; [apply silent_ret|].
  cbn [set_entries]. apply silent_bind; [apply silent_as_dict|].
  intros fields. destruct (Py.truthy_opt _).
  - apply silent_bind; [exact IH|]. intros es. apply silent_ret.
  - destruct (negb _); [exact IH|].
    apply silent_bind; [exact IH|]. intros es. apply silent_ret.
Qed.

Lemma silent_sends {A : Type} (Q : request -> Prop) (m : M A) :
  silent m -> sends Q m.
Proof. intros Hm s. rewrite (Hm s). apply extends_refl. Qed.

End Silent.

(** X15.  A set that is read without a secret token is made from the
    payload alone: whatever the payload looks like, and whether the
    call returns or raises, [_extract_set] leaves the session as it was
    and so sends nothing. *)
Theorem set_without_token_is_not_completed `{E : Env} (playlist : json)
    (s : state) :
  snd (_extract_set playlist None s) = s.
Proof.
  revert s. change (silent (_extract_set playlist None)).
  unfold _extract_set.
  apply silent_bind; [apply silent_getitem|]. intros idv.
  apply silent_bind; [apply silent_as_dict|]. intros fields.
  apply silent_bind; [apply silent_of_sum|]. intros tracks.
  apply silent_bind; [apply silent_all_have_permalink|]. intros complete.
  rewrite andb_false_r.
  apply silent_bind; [apply silent_ret|]. intros tracks'.
  apply silent_bind; [apply silent_set_entries|]. intros entries.
  apply silent_ret.
Qed.

(** X16.  With a secret token the tracks are asked for only when a
    track of the payload lacks its link: a payload whose tracks all
    have one is turned into the result without a request, one entry for
    each track. *)
Theorem complete_set_is_not_completed `{E : Env}
    (fields : list (string * json)) (idv : json) (tracks : list json)
    (token : option string) (s : state) :
  Py.assoc "id" fields = Some idv ->
  collection_items (match Py.get "tracks" fields with
                    | Some t => t
                    | None => JNull
                    end) = inr tracks ->
  fst (all_have_permalink tracks s) = inr true ->
  exists entries,
    _extract_set (JObj fields) token s
    = (inr (mkSetResult entries (compat_str idv) (Py.get "title" fields)
              (Py.get "description" fields)), s)
    /\ length entries = length tracks.
Proof.
  intros Hid Htracks Hall.
  assert (Hentries : forall tracks0,
             fst (all_have_permalink tracks0 s) = inr true ->
             exists entries,
               set_entries token tracks0 s = (inr entries, s)
               /\ length entries = length tracks0).
  { clear. induction tracks0 as [|t rest IH]; intros Hall.
    - exists []. auto.
    - cbn [all_have_permalink set_entries] in *.
      destruct t as [| | | | |tf]; try discriminate Hall.
      cbn [as_dict] in *. unfold bind at 1 in Hall. unfold bind at 1.
      cbn [ret] in *.
      destruct (Py.truthy_opt (Py.get "permalink_url" tf));
        [|discriminate Hall].
      destruct (IH Hall) as (entries & Hes & Hlen).
      unfold bind at 1. rewrite Hes. eexists. split; [reflexivity|].
      cbn [length]. now rewrite Hlen. }
  destruct (Hentries tracks Hall) as (entries & Hes & Hlen).
  exists entries. split; [|exact Hlen].
  unfold _extract_set. cbn [getitem]. rewrite Hid.
  unfold of_option. unfold bind at 1. cbn [ret as_dict].
  unfold bind at 1. cbn [ret]. rewrite Htracks. unfold bind at 1.
  cbn [of_sum ret]. unfold bind at 1.
  pose proof (silent_all_have_permalink tracks s) as Hs.
  destruct (all_have_permalink tracks s) as [[e|complete] s1];
    cbn [fst snd] in *; [discriminate|].
  injection Hall as ->. subst s1. cbn [negb andb].
  unfold bind at 1. cbn [ret]. unfold bind at 1. rewrite Hes. reflexivity.
Qed.

Lemma complete_set_is_not_completed_witness :
  let E := Cases.playlist_env in
  exists entries,
    _extract_set Cases.complete_payload (Some Fixture.secret) Fixture.start
    = (inr (mkSetResult entries "4110309" (Some (JStr "Non-Site")) None),
       Fixture.start)
    /\ length entries = 2.
Proof.
  cbv zeta.
  destruct (@complete_set_is_not_completed Cases.playlist_env
              [("id", JNum 4110309); ("title", JStr "Non-Site");
               ("tracks", JArr [Cases.linked_track 11 "one";
                                Cases.linked_track 12 "two"])]
              (JNum 4110309)
              [Cases.linked_track 11 "one"; Cases.linked_track 12 "two"]
              (Some Fixture.secret) Fixture.start
              eq_refl eq_refl eq_refl) as (entries & Hrun & Hlen).
  exists entries. split; [exact Hrun|exact Hlen].
Defined.

Section TokenOfSet.

Context {E : Env}.

Lemma silent_py_contains (key : string) (obj : json) :
  silent (py_contains key obj).
Proof. destruct obj; try apply silent_raise; apply silent_ret. Qed.

Lemma silent_error_messages (errors : json) : silent (error_messages errors).
Proof.
  destruct errors as [| | |[|] |items|[|]]; try apply silent_raise;
    try apply silent_ret.
  cbn [error_messages]. apply silent_map_M. intros err.
  apply silent_bind; [apply silent_getitem|]. intros m. apply silent_ret.
Qed.

Lemma tracks_request_carries_token (token ids playlist_id : string)
    (r : request) :
  json_or_refresh (_API_V2_BASE ++ "tracks")
    [("ids", ids); ("playlistId", playlist_id);
     ("playlistSecretToken", token)] r ->
  rq_kind r = GetJson -> is_tracks_request token r.
Proof.
  intros [Hw|[c ->]] Hkind.
  - unfold is_webpage in Hw. congruence.
  - split; [reflexivity|]. split; [reflexivity|].
    exists ids, playlist_id. split; reflexivity.
Qed.

Lemma sends_extract_set (token : string) (playlist : json) :
  sends (fun r => rq_kind r = GetJson -> is_tracks_request token r)
    (_extract_set playlist (Some token)).
Proof.
  unfold _extract_set.
  apply sends_bind; [apply silent_sends, silent_getitem|]. intros idv.
  apply sends_bind; [apply silent_sends, silent_as_dict|]. intros fields.
  apply sends_bind; [apply silent_sends, silent_of_sum|]. intros tracks.
  apply sends_bind; [apply silent_sends, silent_all_have_permalink|].
  intros complete.
  apply sends_bind.
  - destruct (negb complete && Py.truthy_str (Some token));
      [|apply sends_ret].
    apply sends_bind; [apply silent_sends, silent_track_ids|]. intros ids.
    apply sends_bind; [|intros answer; apply silent_sends, silent_iterate].
    eapply sends_weaken; [|apply sends_download_json].
    intros r. apply tracks_request_carries_token.
  - intros tracks'.
    apply sends_bind; [apply silent_sends, silent_set_entries|].
    intros entries. apply sends_ret.
Qed.

End TokenOfSet.

(** X17.  The secret token of a playlist or a set goes with every
    request for JSON that is made for it.  [_extract_set] asks for
    nothing but the tracks, at the endpoint [tracks] with the token as
    [playlistSecretToken] beside the ids and the id of the playlist;
    [SoundcloudPlaylistIE] first asks for the playlist with the token as
    [secret_token], [SoundcloudSetIE] resolves the address of the set
    with the token as its last segment. *)
Theorem playlist_token_is_forwarded `{E : Env} (token : string) :
  Str.nonempty token = true ->
  (forall playlist,
      sends (fun r => rq_kind r = GetJson -> is_tracks_request token r)
        (_extract_set playlist (Some token)))
  /\ (forall playlist_id,
        sends (fun r =>
                 rq_kind r = GetJson ->
                 (rq_url r = _API_V2_BASE ++ "playlists/" ++ playlist_id
                  /\ Py.assoc "secret_token" (rq_query r) = Some token)
                 \/ is_tracks_request token r)
          (SoundcloudPlaylistIE_real_extract playlist_id (Some token)))
  /\ (forall uploader slug_title,
        sends (fun r =>
                 rq_kind r = GetJson ->
                 rq_url r
                 = _resolv_url (_BASE_URL ++ uploader ++ "/sets/" ++ slug_title
                                ++ "/" ++ token)
                 \/ is_tracks_request token r)
          (SoundcloudSetIE_real_extract uploader slug_title (Some token))).
Proof.
  intros Hne. split; [|split].
  - intros playlist. apply sends_extract_set.
  - intros playlist_id. unfold SoundcloudPlaylistIE_real_extract.
    rewrite Hne. apply sends_bind.
    + eapply sends_weaken; [|apply sends_download_json].
      intros r [Hw|[c ->]] Hkind.
      * unfold is_webpage in Hw. congruence.
      * left. split; reflexivity.
    + intros data. eapply sends_weaken; [|apply sends_extract_set].
      intros r H Hkind. right. exact (H Hkind).
  - intros uploader slug_title. unfold SoundcloudSetIE_real_extract.
    apply sends_bind.
    + unfold SoundcloudSetIE_resolve. rewrite Hne. apply sends_bind.
      * eapply sends_weaken; [|apply sends_download_json].
        intros r [Hw|[c ->]] Hkind.
        -- unfold is_webpage in Hw. congruence.
        -- left. cbn [json_request rq_url]. f_equal. f_equal.
           rewrite !ReSem.append_assoc. reflexivity.
      * intros info. apply sends_bind;
          [apply silent_sends, silent_py_contains|].
        intros [|]; [|apply sends_ret].
        apply sends_bind; [apply silent_sends, silent_getitem|].
        intros errors.
        apply sends_bind; [apply silent_sends, silent_error_messages|].
        intros msgs. apply sends_raise.
    + intros info. eapply sends_weaken; [|apply sends_extract_set].
      intros r H Hkind. right. exact (H Hkind).
Qed.

Lemma playlist_token_is_forwarded_witness :
  let E := Cases.playlist_env in
  let out := SoundcloudPlaylistIE_real_extract "4110309" (Some Fixture.secret)
               Fixture.start in
  sent (snd out)
  = [mkRequest GetJson "https://api-v2.soundcloud.com/playlists/4110309"
       [("secret_token", Fixture.secret);
        ("client_id", "a3e059563d7fd3372b49b37f00a00bcf")];
     mkRequest GetJson "https://api-v2.soundcloud.com/tracks"
       [("ids", "11,12"); ("playlistId", "4110309");
        ("playlistSecretToken", Fixture.secret);
        ("client_id", "a3e059563d7fd3372b49b37f00a00bcf")]]
  /\ extends
       (fun r =>
          rq_kind r = GetJson ->
          (rq_url r = _API_V2_BASE ++ "playlists/" ++ "4110309"
           /\ Py.assoc "secret_token" (rq_query r) = Some Fixture.secret)
          \/ is_tracks_request Fixture.secret r)
       Fixture.start (snd out).
Proof.
  cbv zeta. split; [vm_compute; reflexivity|].
  destruct (@playlist_token_is_forwarded Cases.playlist_env Fixture.secret
              eq_refl) as (_ & H & _).
  apply (H "4110309" Fixture.start).
Defined.

(** X18.  The entries of a set.  Tracks that have neither a link nor
    an id are left out, and only they: there is one entry for each of
    the others.  An entry has the id of its track and a URL that is
    never empty: the link of the payload or, where that is missing, the
    API URL of the id, with the secret token behind it when there is
    one.  The loop fails only on a track that is no dictionary, with an
    [AttributeError]; it never touches the session. *)
Theorem set_entries_are_addressable `{E : Env} (token : option string)
    (tracks : list json) (s : state) :
  match set_entries token tracks s with
  | (inr entries, s') =>
      s' = s
      /\ Forall is_dict tracks
      /\ length entries = length (filter addressable tracks)
      /\ Forall (fun e =>
                   Py.truthy (se_url e) = true
                   /\ exists fields,
                        In (JObj fields) tracks
                        /\ entry_of_track token fields e)
           entries
  | (inl e, s') =>
      s' = s /\ e = AttributeError /\ ~ Forall is_dict tracks
  end.
Proof.
  induction tracks as [|t rest IH].
  - cbn. repeat split; constructor.
  - cbn [set_entries].
    destruct t as [| | | | |fields];
      try (cbn; split; [reflexivity|]; split; [reflexivity|];
           intros H; inversion H as [|? ? [f Hf] ?]; discriminate Hf).
    cbn [as_dict]. unfold bind at 1. cbn [ret].
    assert (Hdict : is_dict (JObj fields)) by (now exists fields).
    assert (Hweaken : forall entries,
               Forall (fun e =>
                         Py.truthy (se_url e) = true
                         /\ exists fields0,
                              In (JObj fields0) rest
                              /\ entry_of_track token fields0 e) entries ->
               Forall (fun e =>
                         Py.truthy (se_url e) = true
                         /\ exists fields0,
                              In (JObj fields0) (JObj fields :: rest)
                              /\ entry_of_track token fields0 e) entries).
    { intros entries H. eapply Forall_impl; [|exact H].
      intros e (Hu & f & Hin & He). split; [exact Hu|].
      exists f. split; [now right|exact He]. }
    assert (Hfail : forall e s',
               s' = s /\ e = AttributeError /\ ~ Forall is_dict rest ->
               s' = s /\ e = AttributeError
               /\ ~ Forall is_dict (JObj fields :: rest)).
    { intros e s' (H1 & H2 & H3). repeat split; auto.
      intros H. inversion H. contradiction. }
    cbn [filter addressable].
    destruct (Py.truthy_opt (Py.get "permalink_url" fields)) eqn:Hlink.
    + cbn [orb]. unfold bind at 1.
      destruct (set_entries token rest s) as [[e|entries] s'];
        [apply Hfail, IH|].
      destruct IH as (-> & Hall & Hlen & Hes). cbn [ret].
      split; [reflexivity|]. split; [now constructor|].
      split; [cbn [length]; now rewrite Hlen|].
      constructor; [|apply Hweaken, Hes].
      cbn [se_url se_id].
      destruct (Py.get "permalink_url" fields) as [u|] eqn:Hu;
        [|discriminate Hlink].
      split; [exact Hlink|]. exists fields. split; [now left|].
      split; [reflexivity|]. left. cbn [se_url]. rewrite Hu. auto.
    + cbn [orb].
      destruct (Py.truthy_str (str_or_none (Py.get "id" fields))) eqn:Hid;
        cbn [negb].
      * unfold bind at 1.
        destruct (set_entries token rest s) as [[e|entries] s'];
          [apply Hfail, IH|].
        destruct IH as (-> & Hall & Hlen & Hes). cbn [ret].
        split; [reflexivity|]. split; [now constructor|].
        split; [cbn [length]; now rewrite Hlen|].
        constructor; [|apply Hweaken, Hes].
        cbn [se_url se_id].
        destruct (str_or_none (Py.get "id" fields)) as [track_id|] eqn:Hsome;
          [|discriminate Hid].
        cbn [Py.truthy_str] in Hid.
        split.
        -- cbn [Py.truthy]. unfold track_api_url, _API_V2_BASE.
           destruct token as [tok|]; [destruct (Str.nonempty tok)|];
             reflexivity.
        -- exists fields. split; [now left|].
           split; [cbn [se_id]; now rewrite Hsome|].
           right. split; [exact Hlink|]. exists track_id. cbn [se_id se_url].
           auto.
      * destruct (set_entries token rest s) as [[e|entries] s'];
          [apply Hfail, IH|].
        destruct IH as (-> & Hall & Hlen & Hes).
        split; [reflexivity|]. split; [now constructor|].
        split; [exact Hlen|apply Hweaken, Hes].
Qed.

(** ** Users and stations *)

Section Resolvers.

Context {E : Env}.

Lemma download_json_answered (url : string) (query : dict) (non_fatal : bool)
    (s : state) (j : json) :
  fetch_json (sent s) (json_request url query (CLIENT_ID s)) = inr j ->
  _download_json url query non_fatal s
  = (inr j, after_request s (json_request url query (CLIENT_ID s))).
Proof.
  intros H. rewrite download_json_first_answer; rewrite H; [reflexivity|].
  discriminate.
Qed.

End Resolvers.

(** X19.  The resolvers of a user, of a user permalink and of a track
    station do not look for an error list.  When the resolve call is
    answered with a document that has no [id], as the error documents
    of the API are, each of them fails with [KeyError('id')] right after
    its one request, and the messages of the document are lost. *)
Theorem user_resolvers_ignore_error_lists `{E : Env} (s : state)
    (fields : list (string * json)) (uploader url : string)
    (rsrc : option resource) :
  (forall r, fetch_json (sent s) r = inr (JObj fields)) ->
  Py.assoc "id" fields = None ->
  SoundcloudUserIE_real_extract uploader rsrc s
  = (inl (KeyError "id"),
     after_request s
       (json_request (_resolv_url (_BASE_URL ++ uploader)) [] (CLIENT_ID s)))
  /\ SoundcloudUserPermalinkIE_real_extract url s
     = (inl (KeyError "id"),
        after_request s (json_request (_resolv_url url) [] (CLIENT_ID s)))
  /\ SoundcloudTrackStationIE_real_extract url s
     = (inl (KeyError "id"),
        after_request s (json_request (_resolv_url url) [] (CLIENT_ID s))).
Proof.
  intros Hfetch Hid. split; [|split].
  - unfold SoundcloudUserIE_real_extract. unfold bind at 1.
    rewrite (download_json_answered _ _ _ _ (Hfetch _)).
    unfold bind at 1. cbn [getitem]. rewrite Hid. reflexivity.
  - unfold SoundcloudUserPermalinkIE_real_extract. unfold bind at 1.
    rewrite (download_json_answered _ _ _ _ (Hfetch _)).
    unfold bind at 1. cbn [getitem]. rewrite Hid. reflexivity.
  - unfold SoundcloudTrackStationIE_real_extract. unfold bind at 1.
    rewrite (download_json_answered _ _ _ _ (Hfetch _)).
    unfold bind at 1. cbn [getitem]. rewrite Hid. reflexivity.
Qed.

Lemma user_resolvers_ignore_error_lists_witness :
  let E := Fixture.not_found_env in
  fst (SoundcloudUserIE_real_extract "nobody" (Some UserLikes) Fixture.start)
  = inl (KeyError "id")
  /\ fst (SoundcloudUserPermalinkIE_real_extract
            "https://api.soundcloud.com/users/0" Fixture.start)
     = inl (KeyError "id")
  /\ fst (SoundcloudTrackStationIE_real_extract
            "https://soundcloud.com/stations/track/nobody/nothing"
            Fixture.start)
     = inl (KeyError "id").
Proof.
  cbv zeta.
  destruct (@user_resolvers_ignore_error_lists Fixture.not_found_env
              Fixture.start
              [("errors", JArr [JObj [("error_message", JStr "not found")]])]
              "nobody" "https://api.soundcloud.com/users/0" (Some UserLikes)
              (fun r => eq_refl) eq_refl) as (H1 & H2 & _).
  destruct (@user_resolvers_ignore_error_lists Fixture.not_found_env
              Fixture.start
              [("errors", JArr [JObj [("error_message", JStr "not found")]])]
              "nobody" "https://soundcloud.com/stations/track/nobody/nothing"
              None (fun r => eq_refl) eq_refl) as (_ & _ & H3).
  rewrite H1, H2, H3. repeat split.
Defined.

Module StationFacts.

Import Str.

Lemma id_here_shape (s d : string) :
  Station.id_here s = Some d ->
  nonempty d = true
  /\ all_chars is_digit d = true
  /\ exists rest, s = ("soundcloud:track-stations:" ++ d) ++ rest.
Proof.
  unfold Station.id_here.
  destruct (strip_prefix "soundcloud:track-stations:" s) as [r|] eqn:Hp;
    [|discriminate].
  destruct (span is_digit r) as [run rest] eqn:Hspan.
  destruct run as [|c run]; [discriminate|]. intros [= <-].
  destruct (TagFacts.span_all _ _ Hspan) as [Hall ->].
  apply ImageFacts.strip_prefix_app in Hp as ->.
  split; [reflexivity|]. split; [exact Hall|].
  exists rest. rewrite ReSem.append_assoc. reflexivity.
Qed.

Lemma id_shape (s d : string) :
  Station.id s = Some d ->
  nonempty d = true
  /\ all_chars is_digit d = true
  /\ contains ("soundcloud:track-stations:" ++ d) s = true.
Proof.
  induction s as [|c s IH]; cbn [Station.id].
  - destruct (Station.id_here "") eqn:H; [discriminate H|discriminate].
  - destruct (Station.id_here (String c s)) as [m|] eqn:Hhere.
    + intros [= ->]. destruct (id_here_shape _ Hhere) as (Hne & Hall & rest & Hs).
      split; [exact Hne|]. split; [exact Hall|]. rewrite Hs.
      apply StrFacts.contains_app_r, StrFacts.contains_self.
    + intros H. destruct (IH H) as (Hne & Hall & Hc).
      split; [exact Hne|]. split; [exact Hall|].
      apply (StrFacts.contains_app_l _ (String c "") s). exact Hc.
Qed.

End StationFacts.

(** X20.  A track station is named by the digits of its id.  When
    [SoundcloudTrackStationIE] returns, the id of the payload is a
    string in which [soundcloud:track-stations:] is followed by digits;
    the id of the playlist is that run of digits, not empty, while the
    pages are asked for under the whole id. *)
Theorem station_is_named_by_its_digits `{E : Env} (url : string)
    (s s' : state) (p : paged_playlist) :
  SoundcloudTrackStationIE_real_extract url s = (inr p, s') ->
  exists station digits,
    pp_id p = Some digits
    /\ Str.nonempty digits = true
    /\ Str.all_chars Str.is_digit digits = true
    /\ Str.contains ("soundcloud:track-stations:" ++ digits) station = true
    /\ pp_base_url p = _API_V2_BASE ++ "stations/" ++ station ++ "/tracks".
Proof.
  unfold SoundcloudTrackStationIE_real_extract. intros H.
  apply bind_inr in H as (track & s1 & _ & H).
  apply bind_inr in H as (idv & s2 & Hid & H).
  apply bind_inr in H as (digits & s3 & Hsearch & H).
  apply bind_inr in H as (tv & s4 & _ & H).
  apply ret_inr in H as [<- _].
  destruct idv as [| | |station| |]; try discriminate Hsearch.
  cbn [search_station_id] in Hsearch. unfold of_option in Hsearch.
  destruct (Station.id station) as [d|] eqn:Hd; [|discriminate Hsearch].
  apply ret_inr in Hsearch as [<- _].
  destruct (StationFacts.id_shape _ Hd) as (Hne & Hall & Hc).
  exists station, d. cbn [pp_id pp_base_url compat_str]. auto.
Qed.

Lemma station_is_named_by_its_digits_witness :
  let E := Cases.station_env in
  exists p s',
    SoundcloudTrackStationIE_real_extract
      "https://soundcloud.com/stations/track/officialsundial/your-text"
      Fixture.start = (inr p, s')
    /\ pp_id p = Some "286017854"
    /\ pp_base_url p
       = "https://api-v2.soundcloud.com/stations/soundcloud:track-stations:286017854/tracks"
    /\ Str.all_chars Str.is_digit "286017854" = true.
Proof.
  cbv zeta.
  pose (run := @SoundcloudTrackStationIE_real_extract Cases.station_env
                 "https://soundcloud.com/stations/track/officialsundial/your-text"
                 Fixture.start).
  assert (Hrun : run = (fst run, snd run)) by (destruct run; reflexivity).
  assert (Hp : fst run
               = inr (mkPagedPlaylist
                        "https://api-v2.soundcloud.com/stations/soundcloud:track-stations:286017854/tracks"
                        (Some "286017854")
                        (Some (JStr "Track station: your text"))))
    by (vm_compute; reflexivity).
  rewrite Hp in Hrun.
  destruct (@station_is_named_by_its_digits Cases.station_env _ _ _ _ Hrun)
    as (station & digits & Hid & _ & Hall & _).
  cbn [pp_id] in Hid. injection Hid as <-.
  eexists _, _. split; [exact Hrun|]. repeat split; exact Hall.
Defined.

(** ** Searching *)

Section SearchPages.

Context {E : Env}.

Lemma search_items_silent (demand : option nat) (items : list json)
    (s : state) :
  snd (search_items demand items s) = s.
Proof.
  revert demand s; induction items as [|item rest IH]; intros demand s;
    cbn [search_items]; [reflexivity|].
  destruct (satisfied demand); [reflexivity|].
  destruct (Py.truthy item); [|apply IH].
  assert (Hs : silent (uri <- getitem "uri" item ;;
                       info <- _extract_info_dict item None true ;;
                       ret (mkSearchResult uri info))).
  { apply silent_bind; [apply silent_getitem|]. intros uri.
    apply silent_bind; [|intros info; apply silent_ret].
    intros s0. apply flat_extraction. }
  specialize (Hs s).
  destruct ((uri <- getitem "uri" item ;;
             info <- _extract_info_dict item None true ;;
             ret (mkSearchResult uri info)) s) as [[e|r] s1];
    cbn [snd] in Hs; subst s1; [reflexivity|].
  specialize (IH (take_one demand) s).
  destruct (search_items (take_one demand) rest s) as [[rs fin] s2].
  exact IH.
Qed.

Lemma search_result_flat (item : json) (s : state) :
  match (uri <- getitem "uri" item ;;
         info <- _extract_info_dict item None true ;;
         ret (mkSearchResult uri info)) s with
  | (inr r, _) => formats (sr_info r) = None
  | (inl _, _) => True
  end.
Proof.
  unfold bind at 1.
  destruct (getitem "uri" item s) as [[e|uri] s1]; [exact I|].
  unfold bind at 1.
  pose proof (flat_extraction item None s1) as [_ Hflat].
  destruct (_extract_info_dict item None true s1) as [[e|info] s2];
    [exact I|].
  cbn [ret sr_info]. now apply Hflat.
Qed.

(** what is taken from a page and what is left to take add up *)
Lemma search_items_count (n : nat) (items : list json) (s : state) :
  let out := fst (search_items (Some n) items s) in
  length (fst out) <= n
  /\ (forall d, snd out = ItemsRead d -> d = Some (n - length (fst out)))
  /\ Forall (fun r => formats (sr_info r) = None) (fst out).
Proof.
  cbv zeta. revert n s; induction items as [|item rest IH]; intros n s;
    cbn [search_items].
  - cbn. split; [lia|]. split; [|constructor].
    intros d [= <-]. f_equal. lia.
  - destruct n as [|n]; cbn [satisfied].
    + cbn. split; [lia|]. split; [|constructor]. intros d [= <-]. reflexivity.
    + destruct (Py.truthy item); [|apply IH].
      pose proof (search_result_flat item s) as Hflat.
      destruct ((uri <- getitem "uri" item ;;
                 info <- _extract_info_dict item None true ;;
                 ret (mkSearchResult uri info)) s) as [[e|r] s1];
        [cbn; split; [lia|split; [intros d Hd; discriminate Hd|constructor]]|].
      cbn [take_one Nat.pred].
      specialize (IH n s1).
      destruct (search_items (Some n) rest s1) as [[rs fin] s3].
      cbn [fst snd length] in *. destruct IH as (Hlen & Hleft & Hall).
      split; [lia|]. split.
      * intros d Hd. rewrite (Hleft d Hd). f_equal.
      * constructor; [exact Hflat|exact Hall].
Qed.

Lemma search_from_count (rounds n : nat) (url : string) (s : state) :
  let out := fst (search_from rounds (Some n) url s) in
  length (fst out) <= n
  /\ (snd out = SearchTaken -> length (fst out) = n)
  /\ Forall (fun r => formats (sr_info r) = None) (fst out).
Proof.
  cbv zeta. revert n url s; induction rounds as [|rounds IH]; intros n url s;
    cbn [search_from].
  - destruct n as [|n]; cbn [satisfied fst snd length].
    + repeat split; [lia|constructor].
    + split; [lia|]. split; [discriminate|constructor].
  - destruct n as [|n]; cbn [satisfied].
    + cbn. repeat split; [lia|constructor].
    + assert (Hno : forall (e : exn) (s1 : state),
                 let out := fst (@nil search_result, SearchRaised e, s1) in
                 length (fst out) <= S n
                 /\ (snd out = SearchTaken -> length (fst out) = S n)
                 /\ Forall (fun r => formats (sr_info r) = None) (fst out)).
      { intros e s1. cbn. split; [lia|]. split; [discriminate|constructor]. }
      destruct (_download_json url [] false s) as [[e|response] s1];
        [apply Hno|].
      destruct response as [| | | | |fields]; try apply Hno.
      destruct (collection_items _) as [e|items]; [apply Hno|].
      pose proof (search_items_count (S n) items s1) as Hitems.
      cbv zeta in Hitems.
      destruct (search_items (Some (S n)) items s1) as [[rs [d|e]] s2];
        cbn [fst snd] in Hitems |- *; destruct Hitems as (Hlen & Hleft & Hall);
        [|split; [exact Hlen|split; [discriminate|exact Hall]]].
      rewrite (Hleft d eq_refl).
      destruct (S n - length rs) as [|k] eqn:Hk; cbn [satisfied].
      * cbn [fst snd]. split; [exact Hlen|]. split; [lia|exact Hall].
      * assert (Hend : forall fin,
                   fin <> SearchTaken ->
                   length rs <= S n
                   /\ (fin = SearchTaken -> length rs = S n)
                   /\ Forall (fun r => formats (sr_info r) = None) rs).
        { intros fin Hfin. split; [exact Hlen|].
          split; [contradiction|exact Hall]. }
        destruct (Py.get "next_href" fields) as [[| | |next| |]|];
          try (apply Hend; discriminate);
          try (match goal with |- context [if ?c then _ else _] =>
                 destruct c end; apply Hend; discriminate).
        destruct (Str.nonempty next); [|apply Hend; discriminate].
        specialize (IH (S k) next s2).
        destruct (search_from rounds (Some (S k)) next s2) as [[rs' fin] s3].
        cbn [fst snd] in IH |- *. destruct IH as (Hlen' & Htaken & Hall').
        rewrite length_app. split; [lia|]. split.
        -- intros Hfin. rewrite (Htaken Hfin). lia.
        -- apply Forall_app. auto.
Qed.

Lemma search_from_extends (rounds : nat) (demand : option nat) (url : string)
    (s : state) :
  extends is_page_request s (snd (search_from rounds demand url s)).
Proof.
  revert demand url s; induction rounds as [|rounds IH]; intros demand url s;
    cbn [search_from]; destruct (satisfied demand); try apply extends_refl.
  assert (Hpage : extends is_page_request s
                    (snd (_download_json url [] false s))).
  { eapply extends_weaken; [|apply sends_download_json].
    intros r [Hw|[c ->]]; [now left|]. right. now exists url, c. }
  destruct (_download_json url [] false s) as [[e|response] s1];
    cbn [snd] in Hpage |- *; [exact Hpage|].
  destruct response as [| | | | |fields]; try exact Hpage.
  destruct (collection_items _) as [e|items]; [exact Hpage|].
  pose proof (search_items_silent demand items s1) as Hsilent.
  destruct (search_items demand items s1) as [[rs [d|e]] s2];
    cbn [snd] in Hsilent |- *; subst s2; [|exact Hpage].
  destruct (satisfied d); [exact Hpage|].
  destruct (Py.get "next_href" fields) as [[| | |next| |]|];
    try exact Hpage;
    try (match goal with |- context [if ?c then _ else _] =>
           destruct c end; exact Hpage).
  destruct (Str.nonempty next); [|exact Hpage].
  specialize (IH d next s1).
  destruct (search_from rounds d next s1) as [[rs' fin] s3].
  cbn [snd] in IH |- *. eapply extends_trans; eauto.
Qed.

Lemma search_from_starts (rounds : nat) (demand : option nat) (url : string)
    (s : state) :
  satisfied demand = false ->
  starts_with (json_request url [] (CLIENT_ID s)) s
    (snd (search_from (S rounds) demand url s)).
Proof.
  intros Hd. cbn [search_from]. rewrite Hd.
  pose proof (download_json_starts url [] false s) as Hstart.
  destruct (_download_json url [] false s) as [[e|response] s1];
    cbn [snd] in Hstart |- *; [exact Hstart|].
  destruct response as [| | | | |fields]; try exact Hstart.
  destruct (collection_items _) as [e|items]; [exact Hstart|].
  pose proof (search_items_silent demand items s1) as Hsilent.
  destruct (search_items demand items s1) as [[rs [d|e]] s2];
    cbn [snd] in Hsilent |- *; subst s2; [|exact Hstart].
  destruct (satisfied d); [exact Hstart|].
  destruct (Py.get "next_href" fields) as [[| | |next| |]|];
    try exact Hstart;
    try (match goal with |- context [if ?c then _ else _] =>
           destruct c end; exact Hstart).
  destruct (Str.nonempty next); [|exact Hstart].
  pose proof (search_from_extends rounds d next s1) as Hrest.
  destruct (search_from rounds d next s1) as [[rs' fin] s3].
  cbn [snd] in Hrest |- *. eapply starts_with_extends; eauto.
Qed.

End SearchPages.

(** X21.  A search for [n] results hands on at most [n], and exactly
    [n] when it ends because the consumer has what it asked for; every
    result is a flat one, without formats. *)
Theorem search_hands_on_at_most_n `{E : Env} (rounds : nat) (query : string)
    (n : nat) (s : state) :
  let out := fst (_get_n_results rounds query (Some n) s) in
  length (fst out) <= n
  /\ (snd out = SearchTaken -> length (fst out) = n)
  /\ Forall (fun r => formats (sr_info r) = None) (fst out).
Proof. apply search_from_count. Qed.

(** X22.  A search asks for pages and for nothing else: besides the
    requests of a refresh of the client id, every request is one for
    JSON whose query is the client id alone, none is made for a single
    result, and none at all when nothing is asked for.  The first page
    is asked for at [search/tracks] with [limit], [q],
    [linked_partitioning=1] and [offset=0] in its URL, where the limit
    is the number of results asked for, and 200 when that is more or
    unbounded. *)
Theorem search_asks_for_pages_only `{E : Env} (rounds : nat) (query : string)
    (n : option nat) (s : state) :
  extends is_page_request s (snd (_get_n_results rounds query n s))
  /\ (if satisfied n then snd (_get_n_results rounds query n s) = s
      else
        starts_with
          (json_request
             (update_url_query (_API_V2_BASE ++ "search/tracks")
                [("limit",
                  str_of_nat (match n with
                              | Some k => Nat.min k 200
                              | None => 200
                              end));
                 ("q", query); ("linked_partitioning", "1"); ("offset", "0")])
             [] (CLIENT_ID s))
          s (snd (_get_n_results (S rounds) query n s))).
Proof.
  split; [apply search_from_extends|].
  destruct (satisfied n) eqn:Hn.
  - unfold _get_n_results, _get_collection.
    destruct rounds; cbn [search_from]; rewrite Hn; reflexivity.
  - unfold _get_n_results, _get_collection.
    pose proof (search_from_starts rounds n
                  (first_search_url "search/tracks" (Some n) query) s Hn) as H.
    destruct n as [k|]; exact H.
Qed.

(** ** Logging in *)

Section LoginFacts.

Context {A : Auth}.

Lemma verify_oauth_token_cases (token : string) (l : login_state) :
  exists l',
    _verify_oauth_token token l = (inr tt, l')
    /\ ls_probes l' = (ls_probes l ++ [probe_for l token])%list
    /\ CLIENT_ID (ls_session l') = CLIENT_ID (ls_session l)
    /\ cache (ls_session l') = cache (ls_session l)
    /\ sent (ls_session l') = sent (ls_session l)
    /\ match verify_session (ls_probes l) (probe_for l token) with
       | inr _ =>
           _HEADERS l'
           = Py.setitem "Authorization" ("OAuth " ++ token) (_HEADERS l)
           /\ ls_logins l' = S (ls_logins l)
           /\ warnings (ls_session l') = warnings (ls_session l)
       | inl e =>
           _HEADERS l' = _HEADERS l
           /\ ls_logins l' = ls_logins l
           /\ warnings (ls_session l')
              = (warnings (ls_session l)
                 ++ [msg e;
                     "Provided authorization token is invalid. Continuing as guest"])%list
       end.
Proof.
  unfold _verify_oauth_token.
  change (mkAuthProbe
            (_API_VERIFY_AUTH_TOKEN
               (_API_AUTH_QUERY_TEMPLATE (CLIENT_ID (ls_session l)))) token)
    with (probe_for l token).
  destruct (verify_session (ls_probes l) (probe_for l token)) as [e|[]];
    eexists; (split; [reflexivity|]); cbn; auto 10.
Qed.

End LoginFacts.

(** X23.  Logging in fails only for a user name other than [oauth],
    and then at once: with an [ExtractorError], without a probe and with
    nothing changed.  With [oauth] the call always returns.  A token is
    probed only while the shared headers are empty, with one probe that
    posts the password as the access token; the [Authorization] header
    is set, to [OAuth] and the password, exactly when that probe is
    answered, and a probe that fails leaves the headers empty and two
    warnings, the session going on as a guest.  The client id, the cache
    and the requests of the session are never touched. *)
Theorem login_fails_only_for_passwords `{A : Auth} (username password : string)
    (l : login_state) :
  match _perform_login username password l with
  | (inl e, l') =>
      username <> "oauth" /\ l' = l /\ exists x, e = Extractor x
  | (inr _, l') =>
      username = "oauth"
      /\ CLIENT_ID (ls_session l') = CLIENT_ID (ls_session l)
      /\ cache (ls_session l') = cache (ls_session l)
      /\ sent (ls_session l') = sent (ls_session l)
      /\ (if has_headers l then l' = l
          else
            ls_probes l' = (ls_probes l ++ [probe_for l password])%list
            /\ match verify_session (ls_probes l) (probe_for l password) with
               | inr _ =>
                   _HEADERS l' = [("Authorization", "OAuth " ++ password)]
                   /\ warnings (ls_session l') = warnings (ls_session l)
               | inl e =>
                   _HEADERS l' = []
                   /\ warnings (ls_session l')
                      = (warnings (ls_session l)
                         ++ [msg e;
                             "Provided authorization token is invalid. Continuing as guest"])%list
               end)
  end.
Proof.
  unfold _perform_login.
  destruct (String.eqb username "oauth") eqn:Hu; cbn [negb].
  - apply String.eqb_eq in Hu.
    destruct (has_headers l) eqn:Hh; [auto 10|].
    destruct (verify_oauth_token_cases password l)
      as (l' & -> & Hp & Hc & Hk & Hs & Hv).
    split; [exact Hu|]. split; [exact Hc|]. split; [exact Hk|].
    split; [exact Hs|]. split; [exact Hp|].
    unfold has_headers in Hh. destruct (_HEADERS l) as [|kv hs] eqn:Hhs;
      [|discriminate Hh].
    destruct (verify_session (ls_probes l) (probe_for l password)) as [e|u];
      destruct Hv as (Hh' & _ & Hw); auto.
  - apply String.eqb_neq in Hu. split; [exact Hu|]. split; [reflexivity|].
    eauto.
Qed.

(** X24.  A token is verified once.  After a login with a token that
    the probe accepts, the [Authorization] header is [OAuth] and that
    token, and neither the initialisation, whatever cookie it finds, nor
    another login with any other token sends a probe or changes
    anything. *)
Theorem verified_login_is_kept `{A : Auth} (password : string)
    (l : login_state) :
  _HEADERS l = [] ->
  verify_session (ls_probes l) (probe_for l password) = inr tt ->
  exists l',
    _perform_login "oauth" password l = (inr tt, l')
    /\ Py.assoc "Authorization" (_HEADERS l') = Some ("OAuth " ++ password)
    /\ ls_probes l' = (ls_probes l ++ [probe_for l password])%list
    /\ (forall cookie, _real_initialize cookie l' = (inr tt, l'))
    /\ (forall other, _perform_login "oauth" other l' = (inr tt, l')).
Proof.
  intros Hh Hv.
  destruct (verify_oauth_token_cases password l)
    as (l' & Hrun & Hp & _ & _ & _ & Hcase).
  rewrite Hv, Hh in Hcase. cbn [Py.setitem] in Hcase.
  destruct Hcase as (Hh' & _).
  exists l'. split.
  - unfold _perform_login. cbn [String.eqb Ascii.eqb Bool.eqb negb].
    unfold has_headers. rewrite Hh. exact Hrun.
  - split; [rewrite Hh'; reflexivity|]. split; [exact Hp|]. split.
    + intros cookie. unfold _real_initialize, has_headers. now rewrite Hh'.
    + intros other. unfold _perform_login, has_headers.
      cbn [String.eqb Ascii.eqb Bool.eqb negb]. now rewrite Hh'.
Qed.

Lemma verified_login_is_kept_witness :
  let A := Cases.auth in
  exists l',
    _perform_login "oauth" "good" Cases.guest = (inr tt, l')
    /\ _HEADERS l' = [("Authorization", "OAuth good")]
    /\ _real_initialize (Some "stale") l' = (inr tt, l')
    /\ fst (_perform_login "oauth" "bad" Cases.guest) = inr tt
    /\ _HEADERS (snd (_perform_login "oauth" "bad" Cases.guest)) = [].
Proof.
  cbv zeta.
  destruct (@verified_login_is_kept Cases.auth "good" Cases.guest
              eq_refl eq_refl) as (l' & Hrun & _ & _ & Hinit & _).
  exists l'. split; [exact Hrun|]. split.
  - assert (H : snd (@_perform_login Cases.auth "oauth" "good" Cases.guest) = l')
      by (rewrite Hrun; reflexivity).
    rewrite <- H. vm_compute. reflexivity.
  - split; [apply Hinit|]. split; vm_compute; reflexivity.
Defined.

(** ** The queries of a paged collection *)

Section PageQueries.

Context {E : Env}.

Lemma entries_from_later_pages (n : nat) (url : string) (s : state) :
  extends is_later_page_request s
    (snd (entries_from n url later_page_query s)).
Proof.
  revert url s; induction n as [|n IH]; intros url s; cbn [entries_from];
    [apply extends_refl|].
  pose proof (entries_page_state url later_page_query s) as Hst.
  assert (Hpage : extends is_later_page_request s
                    (snd (entries_page url later_page_query s))).
  { rewrite Hst. eapply extends_weaken; [|apply sends_fetch_page].
    intros r [Hw|[c ->]]; [now left|]. right. now exists url, c. }
  destruct (entries_page url later_page_query s)
    as [[ys [url' query'| |e]] s1] eqn:Hp; cbn [snd] in *;
    [|exact Hpage|exact Hpage].
  destruct (entries_page_next _ _ _ Hp) as (-> & _).
  specialize (IH url' s1).
  change (Py.pop "offset" later_page_query) with later_page_query.
  destruct (entries_from n url' later_page_query s1) as [[ys' fin] s2].
  cbn [snd] in *. eapply extends_trans; eauto.
Qed.

Lemma entries_requests (rounds : nat) (url : string) (s : state) :
  extends (fun r => is_first_page_request url r \/ is_later_page_request r)
    s (snd (_entries rounds url s)).
Proof.
  unfold _entries. destruct rounds as [|n]; cbn [entries_from];
    [apply extends_refl|].
  pose proof (entries_page_state url first_page_query s) as Hst.
  assert (Hpage : extends
                    (fun r => is_first_page_request url r
                              \/ is_later_page_request r)
                    s (snd (entries_page url first_page_query s))).
  { rewrite Hst. eapply extends_weaken; [|apply sends_fetch_page].
    intros r [Hw|[c ->]]; [right; now left|]. left. now exists c. }
  destruct (entries_page url first_page_query s)
    as [[ys [url' query'| |e]] s1] eqn:Hp; cbn [snd] in *;
    [|exact Hpage|exact Hpage].
  destruct (entries_page_next _ _ _ Hp) as (-> & _).
  pose proof (entries_from_later_pages n url' s1) as Hrest.
  change (Py.pop "offset" first_page_query) with later_page_query.
  destruct (entries_from n url' later_page_query s1) as [[ys' fin] s2].
  cbn [snd] in *.
  eapply extends_trans; [exact Hpage|].
  eapply extends_weaken; [|exact Hrest]. intros r Hr. now right.
Qed.

End PageQueries.

(** X25.  Every page of a collection is asked for with [limit=200] and
    [linked_partitioning=1].  Whatever the pages hold and however many
    there are, a request of the generator for JSON is one for the first
    page, at the URL of the collection under the query with [offset=0],
    or one for a later page, under that query without [offset]; the
    client id apart, nothing else is ever in the query. *)
Theorem pages_keep_the_limit `{E : Env} (rounds : nat) (url : string)
    (s : state) :
  extends (fun r => is_first_page_request url r \/ is_later_page_request r)
    s (snd (_entries rounds url s))
  /\ extends
       (fun r =>
          rq_kind r = GetJson ->
          Py.assoc "limit" (rq_query r) = Some "200"
          /\ Py.assoc "linked_partitioning" (rq_query r) = Some "1"
          /\ (Py.assoc "offset" (rq_query r) = None
              \/ (Py.assoc "offset" (rq_query r) = Some "0" /\ rq_url r = url)))
       s (snd (_entries rounds url s)).
Proof.
  split; [apply entries_requests|].
  eapply extends_weaken; [|apply entries_requests].
  intros r [[c ->]|[Hw|(u & c & ->)]] Hkind.
  - cbn. auto.
  - unfold is_webpage in Hw. congruence.
  - cbn. auto.
Qed.

(** ** Error lists *)

(** X26.  The resolvers of a set and of related items report an error
    list: answered with a document whose [errors] hold messages, each
    fails with one [ExtractorError] whose text joins all the messages
    with commas, so that every message is in it.  They differ on an
    empty list: the set resolver looks for the key and still fails, the
    resolver of related items looks at the truth value and goes on to
    read the document. *)
Theorem error_lists_are_reported `{E : Env} (s : state)
    (fields : list (string * json)) (ms : list string)
    (uploader slug_title slug : string) (token : option string)
    (rel : relation) :
  (forall r, fetch_json (sent s) r = inr (JObj fields)) ->
  Py.assoc "errors" fields
  = Some (JArr (map (fun m => JObj [("error_message", JStr m)]) ms)) ->
  fst (SoundcloudSetIE_resolve uploader slug_title token s)
  = inl (Extractor
           (mkExtractorError
              ("unable to download video webpage: " ++ Str.join "," ms) None))
  /\ (ms <> [] ->
      fst (SoundcloudRelatedIE_real_extract slug rel s)
      = inl (Extractor
               (mkExtractorError
                  ("soundcloud:related said: " ++ Str.join "," ms) None)))
  /\ (ms = [] ->
      forall x, fst (SoundcloudRelatedIE_real_extract slug rel s)
                <> inl (Extractor x))
  /\ (forall m, In m ms -> Str.contains m (Str.join "," ms) = true).
Proof.
  intros Hfetch Herr. split; [|split; [|split]].
  - unfold SoundcloudSetIE_resolve. unfold bind at 1.
    rewrite (download_json_answered _ _ _ _ (Hfetch _)).
    unfold bind at 1. cbn [py_contains ret]. rewrite Herr.
    unfold bind at 1. cbn [getitem]. rewrite Herr.
    unfold of_option, ret. cbn beta iota.
    unfold bind at 1. rewrite error_messages_strings. reflexivity.
  - intros Hne. destruct ms as [|m0 ms]; [contradiction|].
    unfold SoundcloudRelatedIE_real_extract. unfold bind at 1.
    rewrite (download_json_answered _ _ _ _ (Hfetch _)).
    unfold bind at 1. cbn [as_dict ret]. unfold Py.get. rewrite Herr.
    cbn [Py.truthy_opt Py.truthy map].
    unfold bind at 1. cbn [getitem]. rewrite Herr.
    unfold of_option, ret. cbn beta iota.
    unfold bind at 1.
    rewrite (error_messages_strings (m0 :: ms)). reflexivity.
  - intros -> x. unfold SoundcloudRelatedIE_real_extract. unfold bind at 1.
    rewrite (download_json_answered _ _ _ _ (Hfetch _)).
    unfold bind at 1. cbn [as_dict ret]. unfold Py.get at 1. rewrite Herr.
    cbn [Py.truthy_opt Py.truthy map].
    unfold bind at 1. cbn [getitem].
    destruct (Py.assoc "id" fields); cbn; discriminate.
  - intros m Hin. now apply StrFacts.contains_join.
Qed.

Lemma error_lists_are_reported_witness :
  let E := Fixture.not_found_env in
  fst (SoundcloudSetIE_resolve "artist" "album" (Some Fixture.secret)
         Fixture.start)
  = inl (Extractor (mkExtractorError
                      "unable to download video webpage: not found" None))
  /\ fst (SoundcloudRelatedIE_real_extract "artist/song" Albums Fixture.start)
     = inl (Extractor (mkExtractorError
                         "soundcloud:related said: not found" None)).
Proof.
  cbv zeta.
  destruct (@error_lists_are_reported Fixture.not_found_env Fixture.start
              [("errors", JArr [JObj [("error_message", JStr "not found")]])]
              ["not found"] "artist" "album" "artist/song"
              (Some Fixture.secret) Albums (fun r => eq_refl) eq_refl)
    as (Hset & Hrel & _).
  split; [exact Hset|]. apply Hrel. discriminate.
Defined.

(** ** The original file *)

(** X27.  The original file is looked for only with the permission of
    the payload: unless both [downloadable] and [has_downloads_left] are
    true there, nothing is requested and nothing collected.  When the
    probe returns, it has collected nothing or exactly one descriptor.
    In the second case the download endpoint of the track has answered
    with a document whose [redirectUri] is a string, a [HEAD] request
    for this string was the last request sent, and it was answered.
    The descriptor is [download], of quality 10 and noted as
    [Original]; its URL is the URL the [HEAD] request ended at, which
    is also the one URL remembered as used; its extension is the one
    detected from the answer, with [mp3] standing in where none or an
    empty one is detected, so it is never empty; its size is the
    content length of the answer. *)
Theorem original_file_needs_permission `{E : Env}
    (info : list (string * json)) (track_id : string) (query : dict)
    (s : state) :
  if Py.truthy_opt (Py.get "downloadable" info)
     && Py.truthy_opt (Py.get "has_downloads_left" info)
  then
    match original_download info track_id query s with
    | (inr (urls, fs), s') =>
        (urls = [] /\ fs = [])
        \/ exists fields s1 redirect h f,
             _download_json
               (update_url_query
                  (_API_V2_BASE ++ "tracks/" ++ track_id ++ "/download") query)
               [] true s = (inr (JObj fields), s1)
             /\ Py.get "redirectUri" fields = Some (JStr redirect)
             /\ fetch_head (sent s1) (mkRequest Head redirect []) = inr h
             /\ sent s' = (sent s1 ++ [mkRequest Head redirect []])%list
             /\ urls = [uh_url h] /\ fs = [f]
             /\ f_url f = uh_url h
             /\ is_original f
             /\ f_ext f
                = Some (match uh_ext h with
                        | Some e => if Str.nonempty e then e else "mp3"
                        | None => "mp3"
                        end)
             /\ Py.truthy_str (f_ext f) = true
             /\ f_filesize f = uh_content_length h
    | (inl _, _) => True
    end
  else original_download info track_id query s = (inr ([], []), s).
Proof.
  destruct (Py.truthy_opt (Py.get "downloadable" info)
            && Py.truthy_opt (Py.get "has_downloads_left" info)) eqn:Hc;
    [|unfold original_download; rewrite Hc; reflexivity].
  destruct (original_download info track_id query s) as [[e|[urls fs]] s']
    eqn:H; [exact I|].
  unfold original_download in H. rewrite Hc in H.
  apply bind_inr in H as (answer & s1 & Hanswer & H).
  apply bind_inr in H as (fields & s2 & Hfields & H).
  destruct (Py.get "redirectUri" fields) as [[| | |redirect| |]|] eqn:Hget;
    try (match type of H with context [if ?c then _ else _] =>
           destruct c end; try discriminate H);
    try (apply ret_inr in H as [[= <- <-] _]; now left).
  apply bind_inr in H as (probe & s3 & Hprobe & H).
  destruct probe as [h|]; apply ret_inr in H as [[= <- <-] <-]; [|now left].
  right.
  assert (Hdoc : answer = JObj fields /\ s2 = s1).
  { destruct (Py.truthy answer).
    - destruct answer; try discriminate Hfields.
      cbn [as_dict] in Hfields. apply ret_inr in Hfields as [-> ->]. auto.
    - apply ret_inr in Hfields as [<- _]. discriminate Hget. }
  destruct Hdoc as [-> ->].
  unfold _request_head_nonfatal in Hprobe.
  destruct (fetch_head (sent s1) (mkRequest Head redirect [])) as [e|h']
    eqn:Hhead; [discriminate Hprobe|].
  injection Hprobe as <- <-.
  exists fields, s1, redirect, h'. eexists (mkFormat _ _ _ _ _ _ _ _ _ _).
  split; [exact Hanswer|]. split; [exact Hget|]. split; [exact Hhead|].
  split; [reflexivity|]. split; [reflexivity|]. split; [reflexivity|].
  split; [reflexivity|]. split; [repeat split|]. split; [reflexivity|].
  split; [|reflexivity].
  cbn [f_ext Py.truthy_str].
  destruct (uh_ext h') as [e|]; [|reflexivity].
  destruct (Str.nonempty e) eqn:He; [exact He|reflexivity].
Qed.
